(** * Gmail OTP forwarding bot: the multi-user monitoring engine

    A shallow embedding of [ProfessionalMultiUserOTPBot] (the multi-user
    bot of the repository) and the properties of its OTP extraction,
    dedup cache, notification retry, OTP logging and onboarding dialogue.

    Text is modelled as [string], i.e. a sequence of 8-bit characters read
    as the code points U+0000..U+00FF; on that range the character classes
    below are the ones Python's [re] and [str] methods use for [str]
    values. *)

From Stdlib Require Import ZArith NArith Ascii String List Lia Bool.
From stdpp Require Import gmap strings list.

Local Open Scope string_scope.
Local Open Scope list_scope.
Local Open Scope nat_scope.

(** ** Character classes of Python [str] on U+0000..U+00FF *)

Module Chars.

Definition code (c : ascii) : N := N_of_ascii c.

Definition in_range (lo hi : N) (c : ascii) : bool :=
  ((lo <=? code c) && (code c <=? hi))%N.

(** [\d] of [re] for [str] patterns: the decimal digits. *)
Definition is_decimal (c : ascii) : bool := in_range 48 57 c.

(** [str.isdigit] on one character: decimal digits and the superscript
    digits U+00B2, U+00B3, U+00B9. *)
Definition isdigit_char (c : ascii) : bool :=
  is_decimal c || in_range 178 179 c || (code c =? 185)%N.

(** [\s] of [re], which is [str.isspace]. *)
Definition is_space (c : ascii) : bool :=
  in_range 9 13 c || in_range 28 32 c || (code c =? 133)%N || (code c =? 160)%N.

(** [\w] of [re]: alphanumeric characters and the underscore. *)
Definition is_word (c : ascii) : bool :=
  in_range 48 57 c || in_range 65 90 c || (code c =? 95)%N || in_range 97 122 c
  || (code c =? 170)%N || in_range 178 179 c || (code c =? 181)%N
  || in_range 185 186 c || in_range 188 190 c || in_range 192 214 c
  || in_range 216 246 c || in_range 248 255 c.

(** Simple lower-casing, as applied by [re.IGNORECASE]. *)
Definition lower (c : ascii) : ascii :=
  if in_range 65 90 c || in_range 192 214 c || in_range 216 222 c
  then ascii_of_N (code c + 32) else c.

(** [str.isdigit]: every character is a digit and there is at least one. *)
Definition isdigit (s : list ascii) : bool :=
  negb (Nat.eqb (length s) 0) && forallb isdigit_char s.

(** [str.strip] with no argument: whitespace removed at both ends. *)
Fixpoint lstrip (s : list ascii) : list ascii :=
  match s with
  | c :: s' => if is_space c then lstrip s' else s
  | [] => []
  end.

Definition strip (s : list ascii) : list ascii := rev (lstrip (rev (lstrip s))).

End Chars.

(** ** The fragment of [re] used by the bot *)

Module Re.
Import Chars.

(** One member of a character set. *)
Inductive item :=
| Chr (c : ascii)   (* a literal character *)
| Digit             (* \d *)
| Space.            (* \s *)

Definition charset := list item.

(** Patterns: sequences of single characters and sets, [\b], greedy
    quantifiers over a set, and a capturing group. *)
Inductive regex :=
| Eps
| One (cs : charset)
| WordB
| Rep (cs : charset) (lo : nat) (hi : option nat)
| Cat (r1 r2 : regex)
| Group (r : regex).

Definition item_match (ignorecase : bool) (it : item) (c : ascii) : bool :=
  match it with
  | Chr p => if ignorecase then Ascii.eqb (lower c) (lower p) else Ascii.eqb c p
  | Digit => is_decimal c
  | Space => is_space c
  end.

Definition set_match (ignorecase : bool) (cs : charset) (c : ascii) : bool :=
  existsb (fun it => item_match ignorecase it c) cs.

Definition word_opt (c : option ascii) : bool :=
  match c with Some x => is_word x | None => false end.

(** [\b]: exactly one of the characters before and after the position is a
    word character (the ends of the text count as non-word). *)
Definition boundary (prev : option ascii) (s : list ascii) : bool :=
  xorb (word_opt prev) (word_opt (head s)).

Definition can_take (hi : option nat) : bool :=
  match hi with Some 0 => false | _ => true end.

Section Matcher.
Context {R : Type}.
Variable ignorecase : bool.

(** Greedy [cs{lo,hi}] with backtracking: take as many characters as
    allowed, then give them back one at a time while the rest of the
    pattern (the continuation [k]) fails. *)
Fixpoint rep (cs : charset) (lo : nat) (hi : option nat)
    (prev : option ascii) (s : list ascii)
    (k : option ascii -> list ascii -> option R) : option R :=
  let stop := if Nat.eqb lo 0 then k prev s else None in
  match s with
  | c :: s' =>
      if can_take hi && set_match ignorecase cs c then
        match rep cs (pred lo) (option_map pred hi) (Some c) s' k with
        | Some r => Some r
        | None => stop
        end
      else stop
  | [] => stop
  end.

(** Backtracking matcher in continuation-passing style.  [prev] is the
    character before the current position, [s] the rest of the text and
    [cap] the text of the capturing group once it has been closed. *)
Fixpoint run (r : regex) (prev : option ascii) (s : list ascii)
    (cap : option (list ascii))
    (k : option ascii -> list ascii -> option (list ascii) -> option R)
    : option R :=
  match r with
  | Eps => k prev s cap
  | One cs =>
      match s with
      | c :: s' => if set_match ignorecase cs c then k (Some c) s' cap else None
      | [] => None
      end
  | WordB => if boundary prev s then k prev s cap else None
  | Rep cs lo hi => rep cs lo hi prev s (fun p s' => k p s' cap)
  | Cat r1 r2 => run r1 prev s cap (fun p s' cap' => run r2 p s' cap' k)
  | Group r1 =>
      run r1 prev s cap
        (fun p s' _ => k p s' (Some (take (length s - length s') s)))
  end.

End Matcher.

(** A match of [r] starting at the current position: the unmatched rest of
    the text and the captured group. *)
Definition match_here (ignorecase : bool) (r : regex)
    (prev : option ascii) (s : list ascii)
    : option (list ascii * option (list ascii)) :=
  run ignorecase r prev s None (fun _ s' cap => Some (s', cap)).

(** What [re.findall] reports for one match: the group when the pattern
    has one, the whole match otherwise. *)
Definition reported (s rest : list ascii) (cap : option (list ascii))
    : list ascii :=
  match cap with
  | Some g => g
  | None => take (length s - length rest) s
  end.

(** Left-to-right scan for non-overlapping matches.  [skip] counts the
    characters of the previous match still to be stepped over. *)
Fixpoint scan (ignorecase : bool) (r : regex) (skip : nat)
    (prev : option ascii) (s : list ascii) : list (list ascii) :=
  match skip with
  | S n =>
      match s with
      | c :: s' => scan ignorecase r n (Some c) s'
      | [] => []
      end
  | 0 =>
      match match_here ignorecase r prev s with
      | Some (rest, cap) =>
          reported s rest cap ::
          match s with
          | c :: s' =>
              scan ignorecase r (pred (length s - length rest)) (Some c) s'
          | [] => []
          end
      | None =>
          match s with
          | c :: s' => scan ignorecase r 0 (Some c) s'
          | [] => []
          end
      end
  end.

(** [re.findall(pattern, text, flags)]. *)
Definition findall (ignorecase : bool) (r : regex) (text : list ascii)
    : list (list ascii) :=
  scan ignorecase r 0 None text.

(** The literal characters of [w] in sequence. *)
Fixpoint lits (w : list ascii) : regex :=
  match w with
  | [] => Eps
  | c :: w' => Cat (One [Chr c]) (lits w')
  end.

End Re.

(** ** OTP extraction *)

Import Chars Re.

Definition chars (s : string) : list ascii := list_ascii_of_string s.

(** [\b(\d{n})\b] *)
Definition bare (n : nat) : regex :=
  Cat WordB (Cat (Group (Rep [Digit] n (Some n))) WordB).

(** [kw[:\s-]*(\d{4,8})] *)
Definition keyword (kw : string) : regex :=
  Cat (lits (chars kw))
      (Cat (Rep [Chr ":"; Space; Chr "-"] 0 None)
           (Group (Rep [Digit] 4 (Some 8)))).

Definition bare_patterns : list regex := [bare 6; bare 4; bare 5; bare 8].

Definition keyword_patterns : list regex :=
  map keyword
    ["code"; "verification"; "otp"; "pin"; "token"; "confirm";
     "authenticate"; "security"].

Definition patterns : list regex := bare_patterns ++ keyword_patterns.

(** The test on a candidate: [4 <= len(code) <= 8 and code.isdigit()]. *)
Definition valid_code (code : list ascii) : bool :=
  (4 <=? length code)%nat && (length code <=? 8)%nat && isdigit code.

(** The inner loop: the first match of one pattern that passes the test. *)
Definition first_valid (r : regex) (text : list ascii) : option (list ascii) :=
  find valid_code (findall true r text).

(** The outer loop over the patterns. *)
Fixpoint first_pattern (ps : list regex) (text : list ascii)
    : option (list ascii) :=
  match ps with
  | [] => None
  | r :: ps' =>
      match first_valid r text with
      | Some code => Some code
      | None => first_pattern ps' text
      end
  end.

(** [extract_otp]; [None] stands for Python's [None] on both sides. *)
Definition extract_otp (text : option string) : option string :=
  match text with
  | None => None
  | Some t =>
      match chars t with
      | [] => None
      | cs => string_of_list_ascii <$> first_pattern patterns cs
      end
  end.

(** ** What the patterns mean *)

(** The character before the position reached after reading [l]. *)
Definition prev_after (prev : option ascii) (l : list ascii) : option ascii :=
  match last l with Some c => Some c | None => prev end.

(** [run] is a bare run of [n] digits at offset [i] of the text: [n]
    decimal digits with no word character right before or right after. *)
Definition bare_run_at (n : nat) (t : list ascii) (i : nat) (run : list ascii)
    : Prop :=
  exists pre post,
    t = pre ++ run ++ post /\ length pre = i /\ length run = n /\
    forallb is_decimal run = true /\
    word_opt (last pre) = false /\ word_opt (head post) = false.


(** The separators of [[:\s-]]. *)
Definition is_sep (c : ascii) : bool :=
  Ascii.eqb c ":" || is_space c || Ascii.eqb c "-".

(** The keyword [kw] read at the start of [s], ignoring case. *)
Fixpoint ci_prefix (kw s : list ascii) : bool :=
  match kw, s with
  | [], _ => true
  | k :: kw', c :: s' => Ascii.eqb (lower c) (lower k) && ci_prefix kw' s'
  | _ :: _, [] => false
  end.

(** Number of leading characters of [s] a greedy quantifier bounded by
    [hi] reads. *)
Fixpoint greedy_len (ic : bool) (cs : charset) (hi : option nat)
    (s : list ascii) : nat :=
  match s with
  | c :: s' =>
      if can_take hi && set_match ic cs c
      then S (greedy_len ic cs (option_map pred hi) s') else 0
  | [] => 0
  end.

(** A match of a keyword pattern, said without the matcher: the keyword
    in any letter case, then as many separators as there are, then the
    digits [digs], between four and eight of them and as many as there
    are up to eight. *)
Definition keyword_match (kw s rest digs : list ascii) : Prop :=
  exists w seps,
    s = w ++ seps ++ digs ++ rest /\
    map lower w = map lower kw /\
    forallb is_sep seps = true /\
    forallb is_decimal digs = true /\
    4 <= length digs <= 8 /\
    (length digs = 8 \/ forall c, head rest = Some c -> is_decimal c = false).

(** Pattern number [i] decides the result [code]: it is the first valid
    candidate of that pattern, and no earlier pattern has one. *)
Definition selected_by (ps : list regex) (i : nat) (text code : list ascii)
    : Prop :=
  exists r, ps !! i = Some r /\ first_valid r text = Some code /\
    forall j q, j < i -> ps !! j = Some q -> first_valid q text = None.


(** A code as the bot forwards it: four to eight decimal digits. *)
Definition four_to_eight_digits (code : list ascii) : Prop :=
  4 <= length code <= 8 /\ forallb is_decimal code = true.

(** ** The bot: state and collaborators *)

(** Chat messages, up to their wording.  The OTP notice also carries a
    title and a help line drawn at random and the wall-clock time, which
    are left out. *)
Inductive Notice :=
| InvalidEmail
| EmailReceived (email : string)
| StartOver
| TestingConnection
| Connected (email : string)
| ErrorStartingMonitoring
| ErrorSavingCredentials
| ConnectionFailed
| OtpNotice (sender_name subject code : string).

(** What one POST to [sendMessage] comes back with. *)
Inductive Reply :=
| Answer (status_code : nat) (json : option string)
    (* a response; [json] is [None] when its body does not parse *)
| NoAnswer.
    (* [requests.post] raised *)

Inductive Level := INFO | WARNING | ERROR.

Inductive LogLine :=
| SendFailed (attempt status_code : nat)
| SendError (chat : Z) (attempt : nat)
| OtpLogged (chat : Z) (code : string) (ms : Z)
| OtpLogError (chat : Z)
| UserSaved (email : string) (chat : Z)
| UserSaveError (chat : Z)
| MonitoringStarted (chat : Z)
| ConnectionError (email : string) (err : string)
| MonitoringError (email : string)
| OtpForwarded (email code : string) (ms : Z).

(** What the bot does to the outside, in order. *)
Inductive Event :=
| Post (chat : Z) (text : Notice)
| Sleep (ms : nat)
| Log (lvl : Level) (line : LogLine)
| Fetch (email_id : string)
| ThreadStart (chat : Z).

(** [self.users[chat_id]] *)
Record UserConfig := {
  email : string;
  password : string;
  is_monitoring : bool;
  last_processed_emails : gset string;
  last_email_count : nat;
}.

(** [self.user_stats[chat_id]] *)
Record UserStats := {
  total_otps : nat;
  last_otp_time : option Z;
  session_start : Z;
}.

(** [self.waiting_states[chat_id]] *)
Inductive WaitingState := AwaitEmail | AwaitPassword.

(** Rows of the tables [users] and [otp_logs]. *)
Record UserRow := {
  row_username : string;
  row_first_name : string;
  row_email : string;
  row_password_hash : string;
  row_last_active : Z;
  row_total_otps : nat;
  row_is_active : bool;
}.

Record OtpRow := {
  otp_chat_id : Z;
  otp_sender_email : string;
  otp_sender_name : string;
  otp_code : string;
  otp_subject : string;
  otp_detection_time_ms : Z;
}.

Record Bot := {
  users : gmap Z UserConfig;
  monitoring_threads : gset Z;
  waiting_states : gmap Z WaitingState;
  temp_credentials : gmap Z string;
  user_stats : gmap Z UserStats;
  gmail_locks : gset Z;
  db_users : gmap Z UserRow;
  db_otp_logs : list OtpRow;
  trace : list Event;
  posts : nat;         (* POSTs made so far *)
  transactions : nat;  (* store transactions attempted so far *)
}.

(** A message as the poll cycle reads it after decoding, and the time in
    milliseconds since the cycle started. *)
Record Message := {
  msg_sender_email : string;
  msg_sender_name : string;
  msg_subject : string;
  msg_body : string;
  msg_elapsed_ms : Z;
}.

Inductive Fetched :=
| FetchOK (m : Message)
| FetchNotOK              (* the status of the fetch is not "OK" *)
| FetchRaises.            (* the fetch, or reading its result, raises *)

(** One connection to the mailbox: what each command of the connection
    comes back with. *)
Record Mailbox := {
  mb_login : string -> string -> option string;
    (* connect, login, select: [Some err] when one of them raises *)
  mb_count : option nat;
    (* STATUS inbox (MESSAGES), when it is "OK" *)
  mb_unseen : option (list string);
    (* SEARCH UNSEEN SINCE today, when it is "OK" and not empty *)
  mb_fetch : string -> Fetched;
}.

(** [user_info] of a chat message, with the defaults filled in. *)
Record UserInfo := { username : string; first_name : string }.

(** Field updates. *)
Definition with_users (f : gmap Z UserConfig -> gmap Z UserConfig) (w : Bot) : Bot :=
  {| users := f (users w); monitoring_threads := monitoring_threads w;
     waiting_states := waiting_states w; temp_credentials := temp_credentials w;
     user_stats := user_stats w; gmail_locks := gmail_locks w;
     db_users := db_users w; db_otp_logs := db_otp_logs w; trace := trace w;
     posts := posts w; transactions := transactions w |}.

Definition with_threads (f : gset Z -> gset Z) (w : Bot) : Bot :=
  {| users := users w; monitoring_threads := f (monitoring_threads w);
     waiting_states := waiting_states w; temp_credentials := temp_credentials w;
     user_stats := user_stats w; gmail_locks := gmail_locks w;
     db_users := db_users w; db_otp_logs := db_otp_logs w; trace := trace w;
     posts := posts w; transactions := transactions w |}.

Definition with_waiting (f : gmap Z WaitingState -> gmap Z WaitingState) (w : Bot) : Bot :=
  {| users := users w; monitoring_threads := monitoring_threads w;
     waiting_states := f (waiting_states w); temp_credentials := temp_credentials w;
     user_stats := user_stats w; gmail_locks := gmail_locks w;
     db_users := db_users w; db_otp_logs := db_otp_logs w; trace := trace w;
     posts := posts w; transactions := transactions w |}.

Definition with_temp (f : gmap Z string -> gmap Z string) (w : Bot) : Bot :=
  {| users := users w; monitoring_threads := monitoring_threads w;
     waiting_states := waiting_states w; temp_credentials := f (temp_credentials w);
     user_stats := user_stats w; gmail_locks := gmail_locks w;
     db_users := db_users w; db_otp_logs := db_otp_logs w; trace := trace w;
     posts := posts w; transactions := transactions w |}.

Definition with_stats (f : gmap Z UserStats -> gmap Z UserStats) (w : Bot) : Bot :=
  {| users := users w; monitoring_threads := monitoring_threads w;
     waiting_states := waiting_states w; temp_credentials := temp_credentials w;
     user_stats := f (user_stats w); gmail_locks := gmail_locks w;
     db_users := db_users w; db_otp_logs := db_otp_logs w; trace := trace w;
     posts := posts w; transactions := transactions w |}.

Definition with_locks (f : gset Z -> gset Z) (w : Bot) : Bot :=
  {| users := users w; monitoring_threads := monitoring_threads w;
     waiting_states := waiting_states w; temp_credentials := temp_credentials w;
     user_stats := user_stats w; gmail_locks := f (gmail_locks w);
     db_users := db_users w; db_otp_logs := db_otp_logs w; trace := trace w;
     posts := posts w; transactions := transactions w |}.

Definition with_db (f : gmap Z UserRow -> gmap Z UserRow)
    (g : list OtpRow -> list OtpRow) (w : Bot) : Bot :=
  {| users := users w; monitoring_threads := monitoring_threads w;
     waiting_states := waiting_states w; temp_credentials := temp_credentials w;
     user_stats := user_stats w; gmail_locks := gmail_locks w;
     db_users := f (db_users w); db_otp_logs := g (db_otp_logs w);
     trace := trace w; posts := posts w; transactions := transactions w |}.

(** An effect on the outside is appended to the trace. *)
Definition emit (e : Event) (w : Bot) : Bot :=
  {| users := users w; monitoring_threads := monitoring_threads w;
     waiting_states := waiting_states w; temp_credentials := temp_credentials w;
     user_stats := user_stats w; gmail_locks := gmail_locks w;
     db_users := db_users w; db_otp_logs := db_otp_logs w;
     trace := trace w ++ [e];
     posts := posts w; transactions := transactions w |}.

Definition count_post (w : Bot) : Bot :=
  {| users := users w; monitoring_threads := monitoring_threads w;
     waiting_states := waiting_states w; temp_credentials := temp_credentials w;
     user_stats := user_stats w; gmail_locks := gmail_locks w;
     db_users := db_users w; db_otp_logs := db_otp_logs w; trace := trace w;
     posts := S (posts w); transactions := transactions w |}.

Definition count_transaction (w : Bot) : Bot :=
  {| users := users w; monitoring_threads := monitoring_threads w;
     waiting_states := waiting_states w; temp_credentials := temp_credentials w;
     user_stats := user_stats w; gmail_locks := gmail_locks w;
     db_users := db_users w; db_otp_logs := db_otp_logs w; trace := trace w;
     posts := posts w; transactions := S (transactions w) |}.

(** The state right after [__init__] on an empty store. *)
Definition initial : Bot :=
  {| users := ∅; monitoring_threads := ∅; waiting_states := ∅;
     temp_credentials := ∅; user_stats := ∅; gmail_locks := ∅;
     db_users := ∅; db_otp_logs := []; trace := []; posts := 0;
     transactions := 0 |}.

(** How a call into the cycle ends: normally, or with an exception that
    the cycle's handler catches. *)
Inductive Outcome :=
| Normal (w : Bot)
| Raised (w : Bot).

Definition state_of (o : Outcome) : Bot :=
  match o with Normal w => w | Raised w => w end.

(** ** The bot: operations *)

Section Operations.

(** The chat transport: the reply to the [n]-th POST of the process. *)
Variable transport : nat -> Reply.

(** The store: whether the [n]-th transaction of the process commits
    ([false]: [sqlite3] raises before the commit). *)
Variable store_up : nat -> bool.

(** [list(s)] for a set [s]: the order in which Python iterates it. *)
Variable set_order : gset string -> list string.

(** [hashlib.sha256(f"{password}_{chat_id}").hexdigest()] *)
Variable password_hash : string -> Z -> string.

Definition max_retries : nat := 3.

(** The [for attempt in range(max_retries)] loop of [send_message], from
    attempt number [attempt] on, with [left] attempts to go. *)
Fixpoint send_attempts (left attempt : nat) (chat : Z) (text : Notice)
    (w : Bot) : option string * Bot :=
  match left with
  | 0 => (None, w)
  | S left' =>
      let reply := transport (posts w) in
      let w := count_post (emit (Post chat text) w) in
      let again (w : Bot) :=
        let w := if attempt <? max_retries - 1 then emit (Sleep 1000) w else w in
        send_attempts left' (S attempt) chat text w in
      match reply with
      | Answer status_code json =>
          if status_code =? 200 then
            match json with
            | Some j => (Some j, w)
            | None => again (emit (Log ERROR (SendError chat (attempt + 1))) w)
            end
          else again (emit (Log WARNING (SendFailed (attempt + 1) status_code)) w)
      | NoAnswer => again (emit (Log ERROR (SendError chat (attempt + 1))) w)
      end
  end.

Definition send_message (chat : Z) (text : Notice) (w : Bot)
    : option string * Bot :=
  send_attempts max_retries 0 chat text w.

(** [log_otp]; [now] is the clock. *)
Definition log_otp (chat : Z) (sender_email sender_name code subject : string)
    (detection_time_ms now : Z) (w : Bot) : Bot :=
  let committed := store_up (transactions w) in
  let w := count_transaction w in
  if committed then
    let row := {| otp_chat_id := chat; otp_sender_email := sender_email;
                  otp_sender_name := sender_name; otp_code := code;
                  otp_subject := subject;
                  otp_detection_time_ms := detection_time_ms |} in
    let bump (r : UserRow) :=
      {| row_username := row_username r; row_first_name := row_first_name r;
         row_email := row_email r; row_password_hash := row_password_hash r;
         row_last_active := now; row_total_otps := row_total_otps r + 1;
         row_is_active := row_is_active r |} in
    let w := with_db (alter bump chat) (fun rows => rows ++ [row]) w in
    let w :=
      with_stats
        (alter (fun s => {| total_otps := total_otps s + 1;
                            last_otp_time := Some now;
                            session_start := session_start s |}) chat) w in
    emit (Log INFO (OtpLogged chat code detection_time_ms)) w
  else emit (Log ERROR (OtpLogError chat)) w.

(** [save_user] *)
Definition save_user (chat : Z) (email password : string) (info : UserInfo)
    (now : Z) (w : Bot) : bool * Bot :=
  let committed := store_up (transactions w) in
  let w := count_transaction w in
  if committed then
    let row := {| row_username := username info;
                  row_first_name := first_name info; row_email := email;
                  row_password_hash := password_hash password chat;
                  row_last_active := now; row_total_otps := 0;
                  row_is_active := true |} in
    let w := with_db (insert chat row) id w in
    let w :=
      with_users
        (insert chat {| email := email; password := password;
                        is_monitoring := false; last_processed_emails := ∅;
                        last_email_count := 0 |}) w in
    let w :=
      with_stats
        (insert chat {| total_otps := 0; last_otp_time := None;
                        session_start := now |}) w in
    let w := with_locks (union {[chat]}) w in
    (true, emit (Log INFO (UserSaved email chat)) w)
  else (false, emit (Log ERROR (UserSaveError chat)) w).

Definition set_monitoring (b : bool) (u : UserConfig) : UserConfig :=
  {| email := email u; password := password u; is_monitoring := b;
     last_processed_emails := last_processed_emails u;
     last_email_count := last_email_count u |}.

(** [start_monitoring_for_user] *)
Definition start_monitoring_for_user (chat : Z) (w : Bot) : bool * Bot :=
  match users w !! chat with
  | None => (false, w)
  | Some u =>
      if is_monitoring u then (true, w)
      else
        let w := with_users (insert chat (set_monitoring true u)) w in
        let w := emit (ThreadStart chat) w in
        let w := with_threads (union {[chat]}) w in
        (true, emit (Log INFO (MonitoringStarted chat)) w)
  end.

(** ['@' in text], ['.' in text] *)
Definition contains (c : ascii) (text : string) : bool :=
  existsb (Ascii.eqb c) (chars text).

Definition stripped (text : string) : string :=
  string_of_list_ascii (strip (chars text)).

(** [handle_user_input]; [mb] is the mailbox connection the call opens
    when it tests the credentials. *)
Definition handle_user_input (chat : Z) (text : string) (info : UserInfo)
    (mb : Mailbox) (now : Z) (w : Bot) : Bot :=
  match waiting_states w !! chat with
  | None => w
  | Some AwaitEmail =>
      if negb (contains "@" text) || negb (contains "." text) then
        snd (send_message chat InvalidEmail w)
      else
        let w := with_temp (insert chat (stripped text)) w in
        let w := with_waiting (insert chat AwaitPassword) w in
        snd (send_message chat (EmailReceived (stripped text)) w)
  | Some AwaitPassword =>
      match temp_credentials w !! chat with
      | None => snd (send_message chat StartOver w)
      | Some email =>
          let password := stripped text in
          let w := snd (send_message chat TestingConnection w) in
          let w :=
            match mb_login mb email password with
            | None =>
                let (saved, w) := save_user chat email password info now w in
                if saved then
                  let (started, w) := start_monitoring_for_user chat w in
                  if started
                  then snd (send_message chat (Connected email) w)
                  else snd (send_message chat ErrorStartingMonitoring w)
                else snd (send_message chat ErrorSavingCredentials w)
            | Some err =>
                let w := snd (send_message chat ConnectionFailed w) in
                emit (Log ERROR (ConnectionError email err)) w
            end in
          let w := with_waiting (delete chat) w in
          with_temp (delete chat) w
      end
  end.

(** [handle_login_command] when no monitoring is active for the chat. *)
Definition begin_login (chat : Z) (w : Bot) : Bot :=
  with_waiting (insert chat AwaitEmail) w.

(** *** The poll cycle *)

Definition set_processed (s : gset string) (u : UserConfig) : UserConfig :=
  {| email := email u; password := password u;
     is_monitoring := is_monitoring u; last_processed_emails := s;
     last_email_count := last_email_count u |}.

Definition set_count (n : nat) (u : UserConfig) : UserConfig :=
  {| email := email u; password := password u;
     is_monitoring := is_monitoring u;
     last_processed_emails := last_processed_emails u;
     last_email_count := n |}.

(** The dedup cache of a chat (empty when the chat is unknown). *)
Definition cache (chat : Z) (w : Bot) : gset string :=
  match users w !! chat with
  | Some u => last_processed_emails u
  | None => ∅
  end.

(** [user_config["last_processed_emails"].add(email_id_str)] *)
Definition mark_processed (chat : Z) (email_id : string) (w : Bot) : Bot :=
  with_users
    (alter (fun u => set_processed ({[email_id]} ∪ last_processed_emails u) u)
       chat) w.

(** The memory management at the end of the loop body:
    [if len(s) > 100: for old in list(s)[:50]: s.discard(old)]. *)
Definition trim (s : gset string) : gset string :=
  if 100 <? size s
  then foldl (fun s old => s ∖ {[old]}) s (take 50 (set_order s))
  else s.

Definition clean_old (chat : Z) (w : Bot) : Bot :=
  with_users (alter (fun u => set_processed (trim (last_processed_emails u)) u) chat) w.

(** OTP from the subject first, from the body when the subject has none. *)
Definition otp_of (m : Message) : option string :=
  match extract_otp (Some (msg_subject m)) with
  | Some code => Some code
  | None => extract_otp (Some (msg_body m))
  end.

(** The loop body after the identifier has been marked: fetch, extract,
    notify, log, clean. *)
Definition process_marked (chat : Z) (mb : Mailbox) (now : Z)
    (email_id : string) (w : Bot) : Outcome :=
  let w := emit (Fetch email_id) w in
  match mb_fetch mb email_id with
  | FetchRaises => Raised w
  | FetchNotOK => Normal (clean_old chat w)
  | FetchOK m =>
      match otp_of m with
      | Some otp =>
          let w :=
            snd (send_message chat
                   (OtpNotice (msg_sender_name m) (msg_subject m) otp) w) in
          let w :=
            log_otp chat (msg_sender_email m) (msg_sender_name m) otp
              (msg_subject m) (msg_elapsed_ms m) now w in
          let user_email := from_option email "" (users w !! chat) in
          let w := emit (Log INFO (OtpForwarded user_email otp (msg_elapsed_ms m))) w in
          Normal (clean_old chat w)
      | None => Normal (clean_old chat w)
      end
  end.

(** The body of [for email_id in reversed(email_ids[-5:])]. *)
Definition process_candidate (chat : Z) (mb : Mailbox) (now : Z)
    (email_id : string) (w : Bot) : Outcome :=
  if decide (email_id ∈ cache chat w) then Normal w
  else process_marked chat mb now email_id (mark_processed chat email_id w).

Fixpoint process_candidates (chat : Z) (mb : Mailbox) (now : Z)
    (email_ids : list string) (w : Bot) : Outcome :=
  match email_ids with
  | [] => Normal w
  | email_id :: rest =>
      match process_candidate chat mb now email_id w with
      | Normal w => process_candidates chat mb now rest w
      | Raised w => Raised w
      end
  end.

(** [reversed(email_ids[-5:])] *)
Definition newest_five (email_ids : list string) : list string :=
  rev (drop (length email_ids - 5) email_ids).

(** One turn of the [while] loop of [monitor_gmail_for_user], for a chat
    that is being monitored; [mb] is the connection the turn opens. *)
Definition poll_cycle (chat : Z) (mb : Mailbox) (now : Z) (w : Bot) : Bot :=
  match users w !! chat with
  | None => w
  | Some u =>
      let failed (w : Bot) :=
        emit (Sleep 2000) (emit (Log ERROR (MonitoringError (email u))) w) in
      let w :=
        match mb_login mb (email u) (password u) with
        | Some _ => failed w
        | None =>
            match mb_count mb with
            | Some current_count =>
                if last_email_count u <? current_count then
                  let w := with_users (alter (set_count current_count) chat) w in
                  match mb_unseen mb with
                  | Some email_ids =>
                      match process_candidates chat mb now
                              (newest_five email_ids) w with
                      | Normal w => w
                      | Raised w => failed w
                      end
                  | None => w
                  end
                else if last_email_count u =? 0 then
                  with_users (alter (set_count current_count) chat) w
                else w
            | None => w
            end
        end in
      emit (Sleep 200) w
  end.

(** Successive turns of the loop, one mailbox connection each. *)
Definition poll_cycles (chat : Z) (now : Z) (mbs : list Mailbox) (w : Bot)
    : Bot :=
  foldl (fun w mb => poll_cycle chat mb now w) w mbs.

End Operations.

(** ** Reading the trace and the store *)

(** The code a reply delivers: status 200 and a body that parses. *)
Definition delivered (r : Reply) : option string :=
  match r with
  | Answer status_code (Some j) => if status_code =? 200 then Some j else None
  | _ => None
  end.

Definition is_post (e : Event) : bool :=
  match e with Post _ _ => true | _ => false end.

Definition is_log (e : Event) : bool :=
  match e with Log _ _ => true | _ => false end.

(** The line logged for attempt number [attempt] when [reply] is not a
    delivery. *)
Definition failure_log (chat : Z) (attempt : nat) (reply : Reply) : Event :=
  match reply with
  | Answer status_code json =>
      if status_code =? 200 then Log ERROR (SendError chat (attempt + 1))
      else Log WARNING (SendFailed (attempt + 1) status_code)
  | NoAnswer => Log ERROR (SendError chat (attempt + 1))
  end.

(** [n] attempts at the same message with a one-second pause between
    consecutive attempts. *)
Fixpoint paced (n : nat) (chat : Z) (text : Notice) : list Event :=
  match n with
  | 0 => []
  | S n' =>
      Post chat text ::
      match n' with 0 => [] | S _ => Sleep 1000 :: paced n' chat text end
  end.

(** Everything but the trace and the count of POSTs is the same. *)
Definition same_memory (w w' : Bot) : Prop :=
  users w' = users w /\ monitoring_threads w' = monitoring_threads w /\
  waiting_states w' = waiting_states w /\
  temp_credentials w' = temp_credentials w /\
  user_stats w' = user_stats w /\ gmail_locks w' = gmail_locks w /\
  db_users w' = db_users w /\ db_otp_logs w' = db_otp_logs w /\
  transactions w' = transactions w.

(** The events a step added to the trace. *)
Definition added (w w' : Bot) : list Event := drop (length (trace w)) (trace w').

Definition is_fetch_of (email_id : string) (e : Event) : bool :=
  match e with Fetch i => String.eqb i email_id | _ => false end.

(** How often the message [email_id] was fetched. *)
Definition fetches (email_id : string) (evs : list Event) : nat :=
  length (List.filter (is_fetch_of email_id) evs).

(** [list(s)] lists the members of [s], each once. *)
Definition enumerates (set_order : gset string -> list string) : Prop :=
  forall s, set_order s ≡ₚ elements s.

(** The POSTs among some events. *)
Definition posts_of (evs : list Event) : list Event := List.filter is_post evs.

(** The free text has the shape of an address: it holds an at sign and a
    dot. *)
Definition address_shaped (text : string) : Prop :=
  In "@"%char (chars text) /\ In "."%char (chars text).

(** The row [log_otp] appends for a message. *)
Definition otp_row (chat : Z) (m : Message) (code : string) : OtpRow :=
  {| otp_chat_id := chat; otp_sender_email := msg_sender_email m;
     otp_sender_name := msg_sender_name m; otp_code := code;
     otp_subject := msg_subject m;
     otp_detection_time_ms := msg_elapsed_ms m |}.

(** The in-memory counters of [chat] moved on by one OTP at time [now]. *)
Definition counters_advanced (chat : Z) (now : Z) (w w' : Bot) : Prop :=
  exists s,
    user_stats w !! chat = Some s /\
    user_stats w' !! chat =
      Some {| total_otps := total_otps s + 1; last_otp_time := Some now;
              session_start := session_start s |}.

Definition no_fetch (evs : list Event) : Prop :=
  Forall (fun e => forall i, e <> Fetch i) evs.

(** From [w] to [w'] the cache of [chat] only gained identifiers, at most
    [k] of them, and the messages fetched in between are the gained
    identifiers, once each. *)
Definition processed_once (chat : Z) (k : nat) (w w' : Bot) : Prop :=
  is_Some (users w' !! chat) /\
  cache chat w ⊆ cache chat w' /\
  size (cache chat w') <= size (cache chat w) + k /\
  exists evs, trace w' = trace w ++ evs /\
    forall i, fetches i evs =
              if decide (i ∈ cache chat w' ∖ cache chat w) then 1 else 0.

(** ** An example run of the poller *)

(** A transport that delivers every POST and a store that commits every
    transaction. *)
Definition delivering : nat -> Reply := fun _ => Answer 200 (Some "{}").

Definition committing : nat -> bool := fun _ => true.

Definition plain_hash (password : string) (chat : Z) : string := password.

(** The mail of the end-to-end example: subject ["Security code: 482913"]. *)
Definition code_mail : Message :=
  {| msg_sender_email := "noreply@example.com"; msg_sender_name := "Example";
     msg_subject := "Security code: 482913"; msg_body := "";
     msg_elapsed_ms := 0 |}.

(** A connection that finds [count] messages in the inbox, one of them
    unread, [email_id], whose fetch gives [fetched]. *)
Definition inbox (count : nat) (email_id : string) (fetched : Fetched)
    : Mailbox :=
  {| mb_login := fun _ _ => None; mb_count := Some count;
     mb_unseen := Some [email_id]; mb_fetch := fun _ => fetched |}.

(** Successive connections: each finds one message more than the one
    before, the unread one being the next of [email_ids]. *)
Fixpoint inboxes (count : nat) (fetched : Fetched) (email_ids : list string)
    : list Mailbox :=
  match email_ids with
  | [] => []
  | email_id :: rest =>
      inbox (S count) email_id fetched :: inboxes (S count) fetched rest
  end.

(** The state once a user has logged in: saved and monitored, nothing
    processed yet. *)
Definition logged_in (chat : Z) : Bot :=
  (start_monitoring_for_user chat
     (save_user committing plain_hash chat "user@example.com" "abcdefghijklmnop"
        {| username := ""; first_name := "" |} 0 initial).2).2.

(** The poller of [chat] from login on, over connections that present
    [email_ids] one after the other. *)
Definition poll_from_login (set_order : gset string -> list string)
    (chat : Z) (fetched : Fetched) (email_ids : list string) : Bot :=
  poll_cycles delivering committing set_order chat 0
    (inboxes 0 fetched email_ids) (logged_in chat).

(** A mailbox that refuses every login. *)
Definition refusing : Mailbox :=
  {| mb_login := fun _ _ => Some "AUTHENTICATIONFAILED"; mb_count := None;
     mb_unseen := None; mb_fetch := fun _ => FetchRaises |}.

(** The state of chat 1 once the address has been received. *)
Definition address_received : Bot :=
  handle_user_input delivering committing plain_hash 1 "user@example.com"
    {| username := ""; first_name := "" |} refusing 0 (begin_login 1 initial).

(** Message sequence numbers 1 to 151. *)
Definition numbers_151 : list string :=
  ["1"; "2"; "3"; "4"; "5"; "6"; "7"; "8"; "9"; "10"; "11"; "12"; "13";
   "14"; "15"; "16"; "17"; "18"; "19"; "20"; "21"; "22"; "23"; "24"; "25";
   "26"; "27"; "28"; "29"; "30"; "31"; "32"; "33"; "34"; "35"; "36"; "37";
   "38"; "39"; "40"; "41"; "42"; "43"; "44"; "45"; "46"; "47"; "48"; "49";
   "50"; "51"; "52"; "53"; "54"; "55"; "56"; "57"; "58"; "59"; "60"; "61";
   "62"; "63"; "64"; "65"; "66"; "67"; "68"; "69"; "70"; "71"; "72"; "73";
   "74"; "75"; "76"; "77"; "78"; "79"; "80"; "81"; "82"; "83"; "84"; "85";
   "86"; "87"; "88"; "89"; "90"; "91"; "92"; "93"; "94"; "95"; "96"; "97";
   "98"; "99"; "100"; "101"; "102"; "103"; "104"; "105"; "106"; "107";
   "108"; "109"; "110"; "111"; "112"; "113"; "114"; "115"; "116"; "117";
   "118"; "119"; "120"; "121"; "122"; "123"; "124"; "125"; "126"; "127";
   "128"; "129"; "130"; "131"; "132"; "133"; "134"; "135"; "136"; "137";
   "138"; "139"; "140"; "141"; "142"; "143"; "144"; "145"; "146"; "147";
   "148"; "149"; "150"; "151"].

Definition numbers_101 : list string := take 101 numbers_151.

(** One notification and one OTP event per message
    identifier, for the poller of chat 1 fed with mails that all carry a
    code: however the identifiers [email_ids] come up, there are no more
    OTP events and no more POSTs than distinct identifiers. *)
Definition one_per_identifier (set_order : gset string -> list string)
    : Prop :=
  forall email_ids : list string,
    let w := poll_from_login set_order 1 (FetchOK code_mail) email_ids in
    length (db_otp_logs w) <= size (list_to_set email_ids : gset string) /\
    length (posts_of (trace w)) <= size (list_to_set email_ids : gset string).

(** What is known of the poller of [chat]: its cache, the count it has
    seen, the number of OTP events in the store and of POSTs made. *)
Definition poller_at (chat : Z) (w : Bot) (c : gset string)
    (count events notified : nat) : Prop :=
  exists u, users w !! chat = Some u /\
    last_processed_emails u = c /\ last_email_count u = count /\
    length (db_otp_logs w) = events /\
    length (posts_of (trace w)) = notified.

(** ** More about the texts [extract_otp] reads *)

(** The keywords of the keyword-prefixed patterns, in their order. *)
Definition keywords : list string :=
  ["code"; "verification"; "otp"; "pin"; "token"; "confirm";
   "authenticate"; "security"].

(** The lengths of the bare patterns, in their order. *)
Definition bare_lengths : list nat := [6; 4; 5; 8].

(** Two texts that differ at most in the case of their letters. *)
Definition same_up_to_case (t1 t2 : list ascii) : Prop :=
  map lower t1 = map lower t2.

(** Number of decimal digits of a text. *)
Definition decimal_count (t : list ascii) : nat :=
  length (List.filter is_decimal t).

(** [g] is a contiguous part of [t]. *)
Definition part_of (g t : list ascii) : Prop :=
  exists pre post, t = pre ++ g ++ post.


(** ** The commands of the chat *)

(** The chat messages of the commands, up to their wording; dates and
    the counts of the day are left out. *)
Inductive Text :=
| Welcome (first_name : string)
| AlreadyConnected (email : string) (total_otps : nat)
| GmailSetup
| LoggedOut (email : string)
| NotConnected
| StatusConnected (email : string) (total_otps active_users : nat)
| StatusError
| StatusDisconnected
| NoStatistics
| Statistics (total_otps : nat) (is_monitoring : bool)
| Help
| UnknownCommand.

(** The log lines of the commands and of the start of the process. *)
Inductive Line :=
| DatabaseInitialized
| LoadingUsers (n : nat)
| LoadedUser (email username : string) (total_otps : nat)
| LoadError
| UserDeleted (chat : Z)
| UserDeleteError (chat : Z)
| MonitoringStopped (chat : Z)
| StatsError (chat : Z)
| MainLoopError
| BotStopped.

(** [message['from']]: the fields the bot reads, when present. *)
Record Sender := {
  from_username : option string;
  from_first_name : option string;
}.

(** A chat message of an update. *)
Record ChatMessage := {
  cm_chat : Z;
  cm_text : option string;
  cm_from : Sender;
}.

(** What [get_user_stats] reads off the store, without the dates, the
    count of the day and the recent codes. *)
Record Stats := {
  st_total_otps : nat;
  st_is_monitoring : bool;
}.

(** [chat_id in self.users and self.users[chat_id]["is_monitoring"]] *)
Definition monitored (chat : Z) (w : Bot) : bool :=
  match users w !! chat with
  | Some u => is_monitoring u
  | None => false
  end.

(** [len([u for u in self.users.values() if u['is_monitoring']])] *)
Definition active_users (w : Bot) : nat :=
  length (List.filter (fun p : Z * UserConfig => is_monitoring p.2)
            (map_to_list (users w))).

(** [UPDATE users SET is_active = 0] on one row. *)
Definition deactivate (r : UserRow) : UserRow :=
  {| row_username := row_username r; row_first_name := row_first_name r;
     row_email := row_email r; row_password_hash := row_password_hash r;
     row_last_active := row_last_active r;
     row_total_otps := row_total_otps r; row_is_active := false |}.

(** [user_info] as [save_user] reads it: absent fields are empty. *)
Definition info_of (s : Sender) : UserInfo :=
  {| username := default "" (from_username s);
     first_name := default "" (from_first_name s) |}.

(** [text.startswith('/')] *)
Definition is_command (text : string) : bool :=
  match chars text with
  | c :: _ => Ascii.eqb c "/"
  | [] => false
  end.

Section Commands.

Variable transport : nat -> Reply.
Variable store_up : nat -> bool.
Variable set_order : gset string -> list string.
Variable password_hash : string -> Z -> string.

(** The wording of the commands' chat messages and log lines. *)
Variable wording : Text -> Notice.
Variable line : Line -> LogLine.

(** [stop_monitoring_for_user]; the wait for the thread (at most two
    seconds) leaves no mark on the state. *)
Definition stop_monitoring_for_user (chat : Z) (w : Bot) : Bot :=
  let w := with_users (alter (set_monitoring false) chat) w in
  let w := with_threads (fun s => s ∖ {[chat]}) w in
  emit (Log INFO (line (MonitoringStopped chat))) w.

(** [delete_user] *)
Definition delete_user (chat : Z) (w : Bot) : bool * Bot :=
  let w :=
    with_users
      (alter (fun u => if is_monitoring u then set_monitoring false u else u)
         chat) w in
  let w := with_threads (fun s => s ∖ {[chat]}) w in
  let committed := store_up (transactions w) in
  let w := count_transaction w in
  if committed then
    let w := with_db (alter deactivate chat) id w in
    let w := with_users (delete chat) w in
    let w := with_stats (delete chat) w in
    let w := with_locks (fun s => s ∖ {[chat]}) w in
    let w := with_temp (delete chat) w in
    (true, emit (Log INFO (line (UserDeleted chat))) w)
  else (false, emit (Log ERROR (line (UserDeleteError chat))) w).

(** [get_user_stats]; reading the store counts as a transaction. *)
Definition get_user_stats (chat : Z) (w : Bot) : option Stats * Bot :=
  let up := store_up (transactions w) in
  let w := count_transaction w in
  if up then
    match db_users w !! chat with
    | Some r =>
        (Some {| st_total_otps := row_total_otps r;
                 st_is_monitoring := monitored chat w |}, w)
    | None => (None, w)
    end
  else (None, emit (Log ERROR (line (StatsError chat))) w).

(** [handle_start_command] *)
Definition handle_start_command (chat : Z) (from : Sender) (w : Bot) : Bot :=
  snd (send_message transport chat
         (wording (Welcome (default "User" (from_first_name from)))) w).

(** [handle_login_command] *)
Definition handle_login_command (chat : Z) (w : Bot) : Bot :=
  let ask (w : Bot) :=
    let w := with_waiting (insert chat AwaitEmail) w in
    snd (send_message transport chat (wording GmailSetup) w) in
  match users w !! chat with
  | Some u =>
      if is_monitoring u then
        let (stats, w) := get_user_stats chat w in
        match stats with
        | Some s =>
            snd (send_message transport chat
                   (wording (AlreadyConnected (email u) (st_total_otps s))) w)
        | None => ask w
        end
      else ask w
  | None => ask w
  end.

(** [handle_logout_command] *)
Definition handle_logout_command (chat : Z) (w : Bot) : Bot :=
  match users w !! chat with
  | Some u =>
      if is_monitoring u then
        let w := stop_monitoring_for_user chat w in
        let w := snd (delete_user chat w) in
        let w := with_waiting (delete chat) w in
        let w := with_temp (delete chat) w in
        snd (send_message transport chat (wording (LoggedOut (email u))) w)
      else snd (send_message transport chat (wording NotConnected) w)
  | None => snd (send_message transport chat (wording NotConnected) w)
  end.

(** [handle_status_command]; it raises when the chat has no entry in
    [self.user_stats]. *)
Definition handle_status_command (chat : Z) (w : Bot) : Outcome :=
  match users w !! chat with
  | Some u =>
      if is_monitoring u then
        let (stats, w) := get_user_stats chat w in
        match stats with
        | Some s =>
            match user_stats w !! chat with
            | Some _ =>
                Normal
                  (snd (send_message transport chat
                          (wording (StatusConnected (email u) (st_total_otps s)
                                      (active_users w))) w))
            | None => Raised w
            end
        | None => Normal (snd (send_message transport chat (wording StatusError) w))
        end
      else Normal (snd (send_message transport chat (wording StatusDisconnected) w))
  | None => Normal (snd (send_message transport chat (wording StatusDisconnected) w))
  end.

(** [handle_stats_command] *)
Definition handle_stats_command (chat : Z) (w : Bot) : Bot :=
  let (stats, w) := get_user_stats chat w in
  match stats with
  | Some s =>
      snd (send_message transport chat
             (wording (Statistics (st_total_otps s) (st_is_monitoring s))) w)
  | None => snd (send_message transport chat (wording NoStatistics) w)
  end.

(** [handle_help_command] *)
Definition handle_help_command (chat : Z) (w : Bot) : Bot :=
  snd (send_message transport chat (wording Help) w).

(** [handle_message]; [mb] is the connection a password test opens and
    [now] the clock. *)
Definition handle_message (m : ChatMessage) (mb : Mailbox) (now : Z) (w : Bot)
    : Outcome :=
  let chat := cm_chat m in
  let text := stripped (default "" (cm_text m)) in
  if String.eqb text "/start" then
    Normal (handle_start_command chat (cm_from m) w)
  else if String.eqb text "/login" then Normal (handle_login_command chat w)
  else if String.eqb text "/logout" then Normal (handle_logout_command chat w)
  else if String.eqb text "/status" then handle_status_command chat w
  else if String.eqb text "/stats" then Normal (handle_stats_command chat w)
  else if String.eqb text "/help" then Normal (handle_help_command chat w)
  else if is_command text then
    Normal (snd (send_message transport chat (wording UnknownCommand) w))
  else
    Normal (handle_user_input transport store_up password_hash chat text
              (info_of (cm_from m)) mb now w).

(** One message of an update in the loop of [run]: an exception of the
    handler is logged and followed by a pause of one second. *)
Definition deliver (m : ChatMessage) (mb : Mailbox) (now : Z) (w : Bot) : Bot :=
  match handle_message m mb now w with
  | Normal w => w
  | Raised w => emit (Sleep 1000) (emit (Log ERROR (line MainLoopError)) w)
  end.

(** The body of the loop of [load_all_users] for one row. *)
Definition load_row (now : Z) (w : Bot) (p : Z * UserRow) : Bot :=
  let w :=
    with_stats
      (insert p.1 {| total_otps := row_total_otps p.2;
                     last_otp_time := None; session_start := now |}) w in
  let w := with_locks (union {[p.1]}) w in
  emit (Log INFO (line (LoadedUser (row_email p.2) (row_username p.2)
                          (row_total_otps p.2)))) w.

(** [load_all_users]; the rows come in the order of the store's listing
    and the clock is read once. *)
Definition load_all_users (now : Z) (w : Bot) : Bot :=
  let up := store_up (transactions w) in
  let w := count_transaction w in
  if up then
    let rows :=
      List.filter (fun p : Z * UserRow => row_is_active p.2)
        (map_to_list (db_users w)) in
    let w := emit (Log INFO (line (LoadingUsers (length rows)))) w in
    foldl (load_row now) w rows
  else emit (Log ERROR (line LoadError)) w.

(** [__init__] on a store that holds [rows] and [logs]: the schema is
    made sure of (when that raises there is no bot), then the users are
    loaded. *)
Definition start_up (rows : gmap Z UserRow) (logs : list OtpRow) (now : Z)
    : option Bot :=
  let w := with_db (fun _ => rows) (fun _ => logs) initial in
  let up := store_up (transactions w) in
  let w := count_transaction w in
  if up then Some (load_all_users now (emit (Log INFO (line DatabaseInitialized)) w))
  else None.

(** What happens to the bot: a chat message is handled, or the poller of
    a monitored chat takes a turn. *)
Inductive Step :=
| Incoming (m : ChatMessage) (mb : Mailbox) (now : Z)
| Turn (chat : Z) (mb : Mailbox) (now : Z).

Definition step (w : Bot) (s : Step) : Bot :=
  match s with
  | Incoming m mb now => deliver m mb now w
  | Turn chat mb now =>
      if monitored chat w
      then poll_cycle transport store_up set_order chat mb now w
      else w
  end.

Definition steps (l : list Step) (w : Bot) : Bot := foldl step w l.

(** The end of [run], once the loop is left: every user's monitoring is
    stopped, in the order in which the users are listed. *)
Definition shut_down (w : Bot) : Bot :=
  let w :=
    foldl (fun w chat => stop_monitoring_for_user chat w) w
      (map_to_list (users w)).*1 in
  emit (Log INFO (line BotStopped)) w.

End Commands.

(** ** Reading the state *)

(** The tables agree with each other: every user has statistics, a lock
    and a row in the store, the threads on record are those of the
    monitored users, and a chat asked for its password has an address
    staged. *)
Definition consistent (w : Bot) : Prop :=
  (forall c, is_Some (users w !! c) ->
             is_Some (user_stats w !! c) /\ c ∈ gmail_locks w /\
             is_Some (db_users w !! c)) /\
  (forall c, c ∈ monitoring_threads w <-> monitored c w = true) /\
  (forall c, waiting_states w !! c = Some AwaitPassword ->
             is_Some (temp_credentials w !! c)).

(** Nothing is known of [chat] in memory. *)
Definition forgotten (chat : Z) (w : Bot) : Prop :=
  users w !! chat = None /\ user_stats w !! chat = None /\
  (chat ∉ gmail_locks w) /\ (chat ∉ monitoring_threads w) /\
  waiting_states w !! chat = None /\ temp_credentials w !! chat = None.

(** The memory of every chat but [chat] is the same. *)
Definition others_untouched (chat : Z) (w w' : Bot) : Prop :=
  forall c, c <> chat ->
    users w' !! c = users w !! c /\
    user_stats w' !! c = user_stats w !! c /\
    (c ∈ gmail_locks w' <-> c ∈ gmail_locks w) /\
    (c ∈ monitoring_threads w' <-> c ∈ monitoring_threads w) /\
    waiting_states w' !! c = waiting_states w !! c /\
    temp_credentials w' !! c = temp_credentials w !! c /\
    db_users w' !! c = db_users w !! c.

(** The messages fetched among some events, in order. *)
Definition fetched_ids (evs : list Event) : list string :=
  omap (fun e => match e with Fetch i => Some i | _ => None end) evs.

(** The threads started among some events, in order. *)
Definition threads_started (evs : list Event) : list Z :=
  omap (fun e => match e with ThreadStart c => Some c | _ => None end) evs.

(** The tables in memory and in the store are the same; the trace and
    the counts of POSTs and transactions may differ. *)
Definition same_tables (w w' : Bot) : Prop :=
  users w' = users w /\ monitoring_threads w' = monitoring_threads w /\
  waiting_states w' = waiting_states w /\
  temp_credentials w' = temp_credentials w /\
  user_stats w' = user_stats w /\ gmail_locks w' = gmail_locks w /\
  db_users w' = db_users w /\ db_otp_logs w' = db_otp_logs w.

(** What a turn of the poller of [chat] may change: the cache and the
    count of its own user, its statistics, its row and the OTP log.  The
    threads, the locks, the dialogue states, everything of the other
    chats, and the address, the credential and the monitoring flag of its
    own user stay. *)
Definition poller_footprint (chat : Z) (w w' : Bot) : Prop :=
  monitoring_threads w' = monitoring_threads w /\
  waiting_states w' = waiting_states w /\
  temp_credentials w' = temp_credentials w /\
  gmail_locks w' = gmail_locks w /\
  (forall c, c <> chat ->
     users w' !! c = users w !! c /\
     user_stats w' !! c = user_stats w !! c /\
     db_users w' !! c = db_users w !! c) /\
  is_monitoring <$> users w' !! chat = is_monitoring <$> users w !! chat /\
  email <$> users w' !! chat = email <$> users w !! chat /\
  password <$> users w' !! chat = password <$> users w !! chat /\
  (is_Some (user_stats w' !! chat) <-> is_Some (user_stats w !! chat)) /\
  (is_Some (db_users w' !! chat) <-> is_Some (db_users w !! chat)).

(** ** Example runs of the commands *)

(** The wording does not matter to the runs: one message and one line
    stand for all. *)
Definition any_text : Text -> Notice := fun _ => StartOver.

Definition any_line : Line -> LogLine := fun _ => MonitoringStarted 0.

(** A store that never commits. *)
Definition failing : nat -> bool := fun _ => false.

(** The statistics [load_all_users] sets up for a row. *)
Definition loaded_stats (now : Z) (r : UserRow) : UserStats :=
  {| total_otps := row_total_otps r; last_otp_time := None;
     session_start := now |}.

(** A chat message of chat 1 with the text [text]. *)
Definition says (text : string) : ChatMessage :=
  {| cm_chat := 1; cm_text := Some text;
     cm_from := {| from_username := None; from_first_name := None |} |}.

(** The bot right after its start on an empty store. *)
Definition started : Bot :=
  load_all_users committing any_line 0
    (emit (Log INFO (any_line DatabaseInitialized))
       (count_transaction (with_db (fun _ => ∅) (fun _ => []) initial))).

(** Chat 1 logs in: the command, the address, the credential. *)
Definition login_session : list Step :=
  [Incoming (says "/login") (inbox 0 "" FetchNotOK) 0;
   Incoming (says "user@example.com") (inbox 0 "" FetchNotOK) 0;
   Incoming (says "abcdefghijklmnop") (inbox 0 "" FetchNotOK) 0].
(** ** Properties of the matcher *)

Section MatcherFacts.

Lemma decimal_is_word c : is_decimal c = true -> is_word c = true.
Proof. unfold is_word, is_decimal. intros ->. reflexivity. Qed.

Lemma decimal_isdigit_char c : is_decimal c = true -> isdigit_char c = true.
Proof. unfold isdigit_char. intros ->. reflexivity. Qed.

Lemma prev_after_cons prev c l : prev_after prev (c :: l) = prev_after (Some c) l.
Proof.
  unfold prev_after. destruct l as [|d l]; [reflexivity|].
  change (last (c :: d :: l)) with (last (d :: l)).
  destruct (last (d :: l)) eqn:E; [reflexivity|].
  apply last_None in E. discriminate.
Qed.

(** A quantifier with equal bounds reads exactly [n] characters. *)
Lemma rep_exact {R} ic cs n prev s (k : option ascii -> list ascii -> option R) :
  rep ic cs n (Some n) prev s k =
  if (n <=? length s)%nat && forallb (set_match ic cs) (take n s)
  then k (prev_after prev (take n s)) (drop n s) else None.
Proof.
  revert prev s. induction n as [|n IH]; intros prev s.
  - destruct s; reflexivity.
  - destruct s as [|c s]; [reflexivity|].
    cbn [rep can_take option_map pred Nat.eqb andb].
    rewrite IH. cbn [take firstn drop skipn forallb length].
    change (S n <=? S (length s))%nat with (n <=? length s)%nat.
    rewrite prev_after_cons.
    destruct (set_match ic cs c); cbn [andb].
    + destruct ((n <=? length s)%nat && forallb (set_match ic cs) (take n s));
        [|reflexivity].
      destruct (k _ _); reflexivity.
    + rewrite andb_false_r. reflexivity.
Qed.

Lemma set_match_digit ic c : set_match ic [Digit] c = is_decimal c.
Proof. unfold set_match. cbn. apply orb_false_r. Qed.

Lemma forallb_set_digit ic l :
  forallb (set_match ic [Digit]) l = forallb is_decimal l.
Proof.
  induction l as [|c l IH]; [reflexivity|].
  cbn [forallb]. rewrite set_match_digit, IH. reflexivity.
Qed.

(** The bare pattern [\b(\d{n})\b] at one position, in closed form. *)
Lemma match_here_bare_eq n prev s :
  match_here true (bare n) prev s =
  if boundary prev s && ((n <=? length s)%nat && forallb is_decimal (take n s))
     && boundary (prev_after prev (take n s)) (drop n s)
  then Some (drop n s, Some (take n s)) else None.
Proof.
  unfold match_here, bare. cbn [run].
  destruct (boundary prev s); [|reflexivity]. cbn [andb].
  rewrite rep_exact.
  rewrite forallb_set_digit.
  destruct (n <=? length s)%nat eqn:Hn; [|reflexivity]. cbn [andb].
  destruct (forallb is_decimal (take n s)); [|reflexivity].
  destruct (boundary _ _); [|reflexivity].
  apply Nat.leb_le in Hn. rewrite length_drop.
  replace (length s - (length s - n)) with n by lia. reflexivity.
Qed.

End MatcherFacts.

Section ScanFacts.

Lemma head_digit_word (l : list ascii) :
  l <> [] -> forallb is_decimal l = true -> word_opt (head l) = true.
Proof.
  destruct l as [|c l]; [congruence|]. cbn. intros _ H.
  apply andb_true_iff in H as [H _]. by apply decimal_is_word.
Qed.

Lemma last_digit_word prev (l : list ascii) :
  l <> [] -> forallb is_decimal l = true ->
  word_opt (prev_after prev l) = true.
Proof.
  intros Hne H. unfold prev_after.
  destruct (last l) as [c|] eqn:E.
  - apply decimal_is_word. rewrite forallb_forall in H. apply H.
    apply list_elem_of_In. apply last_Some in E as [l' ->]. set_solver.
  - apply last_None in E. congruence.
Qed.

(** The bare pattern matches at a position exactly when a bare run of
    [n] digits starts there. *)
Lemma match_here_bare_iff n prev s rest cap :
  0 < n ->
  match_here true (bare n) prev s = Some (rest, cap) <->
  exists run, s = run ++ rest /\ cap = Some run /\ length run = n /\
    forallb is_decimal run = true /\
    word_opt prev = false /\ word_opt (head rest) = false.
Proof.
  intros Hn. rewrite match_here_bare_eq. split.
  - destruct (boundary prev s) eqn:B1; [|discriminate]. cbn [andb].
    destruct (n <=? length s)%nat eqn:L; [|discriminate]. cbn [andb].
    destruct (forallb is_decimal (take n s)) eqn:D; [|discriminate].
    destruct (boundary _ (drop n s)) eqn:B2; [|discriminate].
    intros [= <- <-]. apply Nat.leb_le in L.
    assert (Hne : take n s <> []).
    { intros E. apply (f_equal length) in E. rewrite length_take in E.
      cbn in E. lia. }
    exists (take n s). repeat split.
    + symmetry. apply take_drop.
    + rewrite length_take. lia.
    + assumption.
    + unfold boundary in B1.
      assert (W : word_opt (head s) = true).
      { rewrite <- (take_drop n s). destruct (take n s) eqn:E; [congruence|].
        apply (head_digit_word (a :: l)); [congruence|assumption]. }
      rewrite W in B1. destruct (word_opt prev); [discriminate|reflexivity].
    + unfold boundary in B2. rewrite (last_digit_word prev _ Hne D) in B2.
      destruct (word_opt (head (drop n s))); [discriminate|reflexivity].
  - intros (run & -> & -> & Hlen & D & W1 & W2).
    assert (Hne : run <> []) by (destruct run; [cbn in Hlen; lia|congruence]).
    rewrite <- Hlen.
    rewrite take_app_length, drop_app_length, D.
    replace (length run <=? length (run ++ rest))%nat with true
      by (symmetry; apply Nat.leb_le; rewrite length_app; lia).
    unfold boundary. rewrite W1, W2, (last_digit_word prev run Hne D).
    replace (word_opt (head (run ++ rest))) with true.
    + reflexivity.
    + symmetry. destruct run as [|c run]; [congruence|].
      apply (head_digit_word (c :: run)); [congruence|assumption].
Qed.

(** Positions where the pattern does not match are stepped over. *)
Lemma scan_no_match ic r pre prev s :
  (forall a b, pre = a ++ b -> b <> [] ->
     match_here ic r (prev_after prev a) (b ++ s) = None) ->
  scan ic r 0 prev (pre ++ s) = scan ic r 0 (prev_after prev pre) s.
Proof.
  revert prev. induction pre as [|c pre IH]; intros prev H; [reflexivity|].
  pose proof (H [] (c :: pre) eq_refl ltac:(congruence)) as H0.
  change (match_here ic r prev (c :: pre ++ s) = None) in H0.
  cbn [app scan]. rewrite H0.
  rewrite prev_after_cons. apply IH.
  intros a b -> Hb. rewrite <- (prev_after_cons prev).
  apply (H (c :: a) b); [reflexivity|assumption].
Qed.

Lemma prev_after_None l : prev_after None l = last l.
Proof. unfold prev_after. destruct (last l); reflexivity. Qed.

(** A bare run that is the leftmost one is the first thing [findall]
    reports for the bare pattern. *)
Lemma findall_bare_first n t i run :
  0 < n ->
  bare_run_at n t i run ->
  (forall j run', bare_run_at n t j run' -> i <= j) ->
  head (findall true (bare n) t) = Some run.
Proof.
  intros Hn (pre & post & -> & Hi & Hlen & D & W1 & W2) Hmin.
  unfold findall. rewrite scan_no_match.
  - rewrite prev_after_None.
    assert (M : match_here true (bare n) (last pre) (run ++ post)
                = Some (post, Some run)).
    { apply match_here_bare_iff; [assumption|]. exists run. auto 10. }
    destruct (run ++ post) eqn:E; cbn [scan]; rewrite M; reflexivity.
  - intros a b -> Hb.
    destruct (match_here _ _ _ _) as [[rest cap]|] eqn:M; [|reflexivity].
    exfalso. apply match_here_bare_iff in M; [|assumption].
    destruct M as (run' & E & -> & Hlen' & D' & W1' & W2').
    rewrite prev_after_None in W1'.
    assert (B : bare_run_at n ((a ++ b) ++ run ++ post) (length a) run').
    { exists a, rest. rewrite <- E, <- app_assoc. auto 10. }
    apply Hmin in B. rewrite <- Hi, length_app in B.
    destruct b; [congruence|]. cbn in B. lia.
Qed.

End ScanFacts.

Section Loops.


Lemma first_pattern_None ps text :
  first_pattern ps text = None <->
  forall r, r ∈ ps -> first_valid r text = None.
Proof.
  induction ps as [|r ps IH]; cbn [first_pattern].
  - split; [|reflexivity]. intros _ r Hr. by apply elem_of_nil in Hr.
  - destruct (first_valid r text) eqn:E.
    + split; [discriminate|]. intros H.
      rewrite H in E; [discriminate|]. apply elem_of_cons. by left.
    + rewrite IH. split.
      * intros H q Hq. apply elem_of_cons in Hq as [->|Hq]; auto.
      * intros H q Hq. apply H. apply elem_of_cons. by right.
Qed.

Lemma chars_string l : chars (string_of_list_ascii l) = l.
Proof. apply list_ascii_of_string_of_list_ascii. Qed.

Lemma string_chars s : string_of_list_ascii (chars s) = s.
Proof. apply string_of_list_ascii_of_string. Qed.

Lemma extract_otp_Some t code :
  extract_otp (Some t) = Some code <->
  first_pattern patterns (chars t) = Some (chars code).
Proof.
  unfold extract_otp.
  destruct (chars t) as [|c cs] eqn:E.
  - split; [discriminate|]. vm_compute. discriminate.
  - rewrite <- E. destruct (first_pattern patterns (chars t)) as [l|]; cbn.
    + split.
      * intros [= <-]. by rewrite chars_string.
      * intros [= ->]. by rewrite string_chars.
    + split; discriminate.
Qed.

End Loops.

Section KeywordFacts.

Lemma set_match_sep c :
  set_match true [Chr ":"; Space; Chr "-"] c = is_sep c.
Proof. destruct c as [[] [] [] [] [] [] [] []]; reflexivity. Qed.

Lemma sep_not_decimal c : is_sep c = true -> is_decimal c = false.
Proof. destruct c as [[] [] [] [] [] [] [] []]; vm_compute; congruence. Qed.

Lemma greedy_len_le ic cs hi s : greedy_len ic cs hi s <= length s.
Proof.
  revert hi. induction s as [|c s IH]; intros hi; cbn [greedy_len length]; [lia|].
  destruct (can_take hi && _); [|lia]. specialize (IH (option_map pred hi)). lia.
Qed.

(** A greedy quantifier whose continuation never fails stops at the
    longest run. *)
Lemma rep_greedy {R} ic cs lo hi prev s
    (k : option ascii -> list ascii -> option R) :
  (forall p s', is_Some (k p s')) ->
  rep ic cs lo hi prev s k =
  let m := greedy_len ic cs hi s in
  if lo <=? m then k (prev_after prev (take m s)) (drop m s) else None.
Proof.
  intros Hk. revert lo hi prev.
  induction s as [|c s IH]; intros lo hi prev; cbn [rep greedy_len].
  - cbn. destruct lo; reflexivity.
  - destruct (can_take hi && set_match ic cs c).
    + rewrite IH. cbn zeta.
      set (m := greedy_len ic cs (option_map pred hi) s).
      cbn [take firstn drop skipn]. rewrite prev_after_cons.
      destruct (pred lo <=? m) eqn:E.
      * apply Nat.leb_le in E.
        replace (lo <=? S m) with true by (symmetry; apply Nat.leb_le; lia).
        destruct (Hk (prev_after (Some c) (take m s)) (drop m s)) as [r ->].
        reflexivity.
      * apply Nat.leb_gt in E.
        replace (lo <=? S m) with false by (symmetry; apply Nat.leb_gt; lia).
        destruct lo; [lia|reflexivity].
    + cbn. destruct lo; reflexivity.
Qed.

(** A star whose continuation cannot start on a character of the set
    never gives a character back. *)
Lemma rep_star {R} ic cs prev s (k : option ascii -> list ascii -> option R) :
  (forall p c s', set_match ic cs c = true -> k p (c :: s') = None) ->
  rep ic cs 0 None prev s k =
  let m := greedy_len ic cs None s in
  k (prev_after prev (take m s)) (drop m s).
Proof.
  intros Hk. revert prev.
  induction s as [|c s IH]; intros prev; cbn [rep greedy_len]; [reflexivity|].
  cbn [can_take option_map andb pred Nat.eqb].
  destruct (set_match ic cs c) eqn:E; [|reflexivity].
  rewrite IH. cbn zeta. cbn [take firstn drop skipn].
  rewrite prev_after_cons. rewrite (Hk prev c s E).
  destruct (k _ _); reflexivity.
Qed.

Lemma run_lits {R} w prev s cap
    (k : option ascii -> list ascii -> option (list ascii) -> option R) :
  run true (lits w) prev s cap k =
  if ci_prefix w s
  then k (prev_after prev (take (length w) s)) (drop (length w) s) cap
  else None.
Proof.
  revert prev s. induction w as [|a w IH]; intros prev s; [reflexivity|].
  cbn [lits run ci_prefix]. destruct s as [|c s]; [reflexivity|].
  unfold set_match. cbn [existsb item_match]. rewrite orb_false_r.
  destruct (Ascii.eqb (lower c) (lower a)); [|reflexivity].
  rewrite IH. cbn [andb length take firstn drop skipn].
  rewrite prev_after_cons. reflexivity.
Qed.

(** The keyword pattern at one position, in closed form. *)
Lemma match_here_keyword_eq kw prev s :
  match_here true (keyword kw) prev s =
  if ci_prefix (chars kw) s then
    let s1 := drop (length (chars kw)) s in
    let s2 := drop (greedy_len true [Chr ":"; Space; Chr "-"] None s1) s1 in
    let d := greedy_len true [Digit] (Some 8) s2 in
    if 4 <=? d then Some (drop d s2, Some (take d s2)) else None
  else None.
Proof.
  unfold match_here, keyword. cbn [run]. rewrite run_lits.
  destruct (ci_prefix (chars kw) s); [|reflexivity].
  rewrite rep_star.
  - cbn zeta. rewrite rep_greedy by eauto. cbn zeta.
    destruct (4 <=? _) eqn:E; [|reflexivity].
    set (s2 := drop _ (drop _ s)). set (d := greedy_len true [Digit] _ s2).
    rewrite (length_drop s2 d).
    pose proof (greedy_len_le true [Digit] (Some 8) s2) as Ld. fold d in Ld.
    replace (length s2 - (length s2 - d)) with d by lia. reflexivity.
  - intros p c s' Hc. cbn [rep can_take andb Nat.eqb].
    rewrite set_match_sep in Hc. apply sep_not_decimal in Hc.
    rewrite set_match_digit, Hc. reflexivity.
Qed.

End KeywordFacts.

Section KeywordSpec.

Lemma ci_prefix_iff w s :
  ci_prefix w s = true <->
  exists w' s', s = w' ++ s' /\ map lower w' = map lower w.
Proof.
  revert s. induction w as [|a w IH]; intros s; cbn [ci_prefix].
  - split; [|reflexivity]. intros _. by exists [], s.
  - destruct s as [|c s].
    + split; [discriminate|]. intros ([|x w'] & s' & E & M); discriminate.
    + rewrite andb_true_iff, Ascii.eqb_eq, IH. split.
      * intros (Hc & w' & s' & -> & M). exists (c :: w'), s'.
        cbn. by rewrite Hc, M.
      * intros ([|x w'] & s' & E & M); [discriminate|].
        cbn in E, M. injection E as -> ->. injection M as Hc M. eauto.
Qed.

Lemma greedy_len_prefix ic cs hi s :
  let m := greedy_len ic cs hi s in
  forallb (set_match ic cs) (take m s) = true /\
  (forall h, hi = Some h -> m <= h) /\
  (hi = Some m \/ forall c, head (drop m s) = Some c -> set_match ic cs c = false).
Proof.
  revert hi. induction s as [|c s IH]; intros hi; cbn [greedy_len].
  - cbn. repeat split; [intros; lia|]. right. discriminate.
  - destruct (can_take hi) eqn:C; cbn [andb].
    + destruct (set_match ic cs c) eqn:M.
      * destruct (IH (option_map pred hi)) as (A & B & D). cbn zeta.
        cbn [take firstn drop skipn forallb]. rewrite M, A.
        repeat split.
        -- intros h ->. destruct h; [discriminate|].
           specialize (B h eq_refl). lia.
        -- destruct D as [D|D]; [|by right]. left.
           destruct hi as [[|h]|]; cbn [option_map pred] in *; try discriminate.
           injection D as D. by rewrite <- D.
      * cbn. repeat split; [intros; lia|]. right. by intros ? [= <-].
    + destruct hi as [[|h]|]; try discriminate. cbn.
      repeat split; [intros ? [= <-]; lia|]. by left.
Qed.

Lemma greedy_len_unique ic cs hi a b :
  forallb (set_match ic cs) a = true ->
  (forall h, hi = Some h -> length a <= h) ->
  (hi = Some (length a) \/ forall c, head b = Some c -> set_match ic cs c = false) ->
  greedy_len ic cs hi (a ++ b) = length a.
Proof.
  revert hi. induction a as [|x a IH]; intros hi A B D.
  - destruct b as [|c b]; [reflexivity|]. cbn [app greedy_len length].
    destruct D as [->|D]; [reflexivity|].
    rewrite (D c eq_refl), andb_false_r. reflexivity.
  - cbn in A. apply andb_true_iff in A as [Mx A].
    cbn [app greedy_len length]. rewrite Mx.
    replace (can_take hi) with true.
    + cbn [andb]. f_equal. apply IH; [assumption| |].
      * intros h E. destruct hi as [[|h']|]; cbn in E; try discriminate.
        -- specialize (B 0 eq_refl). cbn in B. lia.
        -- injection E as <-. specialize (B (S h') eq_refl). cbn in B. lia.
      * destruct D as [->|D]; [by left|by right].
    + destruct hi as [[|h]|]; try reflexivity.
      specialize (B 0 eq_refl). cbn in B. lia.
Qed.

Lemma forallb_sep_set l :
  forallb (set_match true [Chr ":"; Space; Chr "-"]) l = forallb is_sep l.
Proof.
  induction l as [|c l IH]; [reflexivity|].
  cbn [forallb]. by rewrite set_match_sep, IH.
Qed.

(** The keyword pattern matches at a position exactly when the text there
    reads keyword, separators, four to eight digits. *)
Lemma match_here_keyword_iff kw prev s rest cap :
  match_here true (keyword kw) prev s = Some (rest, cap) <->
  exists digs, cap = Some digs /\ keyword_match (chars kw) s rest digs.
Proof.
  rewrite match_here_keyword_eq. split.
  - destruct (ci_prefix (chars kw) s) eqn:P; [|discriminate].
    apply ci_prefix_iff in P as (w & s1 & -> & Hw).
    assert (Lw : length w = length (chars kw)).
    { apply (f_equal length) in Hw. by rewrite !length_map in Hw. }
    rewrite <- Lw, drop_app_length. cbn zeta.
    destruct (greedy_len_prefix true [Chr ":"; Space; Chr "-"] None s1)
      as (A & _ & _).
    set (m := greedy_len true _ None s1) in *.
    destruct (greedy_len_prefix true [Digit] (Some 8) (drop m s1))
      as (A' & B' & D').
    set (d := greedy_len true [Digit] (Some 8) (drop m s1)) in *.
    destruct (4 <=? d) eqn:E; [|discriminate]. intros [= <- <-].
    apply Nat.leb_le in E. specialize (B' 8 eq_refl).
    pose proof (greedy_len_le true [Digit] (Some 8) (drop m s1)) as Ld.
    fold d in Ld.
    exists (take d (drop m s1)). split; [reflexivity|].
    exists w, (take m s1). repeat split.
    + by rewrite !take_drop.
    + assumption.
    + by rewrite <- forallb_sep_set.
    + by rewrite <- forallb_set_digit with (ic := true).
    + rewrite length_take. lia.
    + rewrite length_take. lia.
    + destruct D' as [D'|D'].
      * left. injection D' as D'. rewrite length_take. lia.
      * right. intros c Hc. rewrite <- (set_match_digit true). by apply D'.
  - intros (digs & -> & w & seps & -> & Hw & Hs & Hd & [L1 L2] & Hend).
    assert (Lw : length w = length (chars kw)).
    { apply (f_equal length) in Hw. by rewrite !length_map in Hw. }
    replace (ci_prefix (chars kw) (w ++ seps ++ digs ++ rest)) with true
      by (symmetry; apply ci_prefix_iff; eauto).
    rewrite <- Lw, drop_app_length. cbn zeta.
    rewrite (greedy_len_unique true _ None seps (digs ++ rest)).
    + rewrite drop_app_length.
      rewrite (greedy_len_unique true [Digit] (Some 8) digs rest).
      * replace (4 <=? length digs) with true
          by (symmetry; by apply Nat.leb_le).
        by rewrite take_app_length, drop_app_length.
      * by rewrite forallb_set_digit.
      * intros ? [= <-]. assumption.
      * destruct Hend as [->|Hend]; [by left|right].
        intros c Hc. rewrite set_match_digit. by apply Hend.
    + by rewrite forallb_sep_set.
    + discriminate.
    + right. intros c Hc. destruct digs as [|x digs]; [cbn in L1; lia|].
      cbn in Hc. injection Hc as <-. cbn in Hd.
      apply andb_true_iff in Hd as [Hx _].
      rewrite set_match_sep.
      destruct (is_sep x) eqn:S; [|reflexivity].
      apply sep_not_decimal in S. congruence.
Qed.

End KeywordSpec.

(** ** What [findall] reports for the patterns of the bot *)

Section Reported.



(** Whatever holds of every match holds of everything the scan reports. *)
Lemma scan_Forall ic r (P : list ascii -> Prop) :
  (forall prev s rest cap,
     match_here ic r prev s = Some (rest, cap) -> P (reported s rest cap)) ->
  forall s skip prev, Forall P (scan ic r skip prev s).
Proof.
  intros HP. induction s as [|c s IH]; intros skip prev.
  - destruct skip; cbn [scan]; [|constructor].
    destruct (match_here ic r prev []) as [[rest cap]|] eqn:M; constructor.
    + by apply (HP prev []).
    + constructor.
  - destruct skip; cbn [scan]; [|apply IH].
    destruct (match_here ic r prev (c :: s)) as [[rest cap]|] eqn:M.
    + constructor; [by apply (HP prev (c :: s))|apply IH].
    + apply IH.
Qed.

Lemma findall_bare_digits n t :
  0 < n ->
  Forall (fun g => length g = n /\ forallb is_decimal g = true)
    (findall true (bare n) t).
Proof.
  intros Hn. apply scan_Forall. intros prev s rest cap M.
  apply match_here_bare_iff in M as (run & -> & -> & L & D & _); [|done].
  by cbn.
Qed.

Lemma findall_keyword_digits kw t :
  Forall four_to_eight_digits (findall true (keyword kw) t).
Proof.
  apply scan_Forall. intros prev s rest cap M.
  apply match_here_keyword_iff in M
    as (digs & -> & w & seps & _ & _ & _ & D & L & _).
  by split.
Qed.

(** Every candidate of every pattern is made of four to eight decimal
    digits. *)
Lemma findall_patterns_digits r t :
  r ∈ patterns -> Forall four_to_eight_digits (findall true r t).
Proof.
  intros Hr. unfold patterns in Hr. apply elem_of_app in Hr as [Hr|Hr].
  - unfold bare_patterns in Hr.
    assert (exists n, r = bare n /\ 4 <= n <= 8) as (n & -> & Hn).
    { repeat (apply elem_of_cons in Hr as [->|Hr];
                [eexists; split; [reflexivity|lia]|]).
      by apply elem_of_nil in Hr. }
    eapply Forall_impl; [apply findall_bare_digits; lia|].
    intros g [L D]. split; [lia|done].
  - unfold keyword_patterns in Hr.
    apply list_elem_of_fmap in Hr as (kw & -> & _).
    apply findall_keyword_digits.
Qed.

Lemma first_valid_digits r t code :
  r ∈ patterns -> first_valid r t = Some code -> four_to_eight_digits code.
Proof.
  intros Hr H. unfold first_valid in H. apply find_some in H as [Hin _].
  pose proof (findall_patterns_digits r t Hr) as HF.
  rewrite Forall_forall in HF. apply HF. by apply list_elem_of_In.
Qed.

Lemma first_pattern_digits ps t code :
  (forall r, r ∈ ps -> r ∈ patterns) ->
  first_pattern ps t = Some code -> four_to_eight_digits code.
Proof.
  induction ps as [|r ps IH]; intros Hps; [discriminate|].
  cbn [first_pattern]. destruct (first_valid r t) eqn:E.
  - intros [= <-]. eapply first_valid_digits; [|exact E].
    apply Hps. set_solver.
  - apply IH. intros q Hq. apply Hps. set_solver.
Qed.

End Reported.

(** ** Properties of the operations *)

(** *** Sending *)

Lemma same_memory_trans w1 w2 w3 :
  same_memory w1 w2 -> same_memory w2 w3 -> same_memory w1 w3.
Proof.
  unfold same_memory. intros H1 H2. destruct_and!.
  repeat split; congruence.
Qed.

Lemma failure_log_is_log chat attempt reply :
  is_log (failure_log chat attempt reply) = true.
Proof.
  destruct reply as [sc json|]; cbn; [destruct (sc =? 200)|]; reflexivity.
Qed.

Lemma posts_of_paced n chat text :
  posts_of (paced n chat text) = replicate n (Post chat text).
Proof.
  induction n as [|n IH]; [reflexivity|].
  cbn [paced]. destruct n as [|n]; [reflexivity|].
  unfold posts_of in *. cbn [List.filter is_post]. rewrite IH. reflexivity.
Qed.

Lemma posts_of_not_log evs :
  posts_of (List.filter (fun e => negb (is_log e)) evs) = posts_of evs.
Proof.
  unfold posts_of. induction evs as [|e evs IH]; [reflexivity|].
  destruct e; cbn [List.filter is_log is_post negb]; rewrite ?IH; reflexivity.
Qed.

Lemma posts_of_app a b : posts_of (a ++ b) = posts_of a ++ posts_of b.
Proof. apply List.filter_app. Qed.

Section SendFacts.

Variable transport : nat -> Reply.

(** One turn of the retry loop. *)
Lemma send_attempts_step left attempt chat text w :
  send_attempts transport (S left) attempt chat text w =
  let reply := transport (posts w) in
  let w1 := count_post (emit (Post chat text) w) in
  match delivered reply with
  | Some j => (Some j, w1)
  | None =>
      let w2 := emit (failure_log chat attempt reply) w1 in
      send_attempts transport left (S attempt) chat text
        (if attempt <? max_retries - 1 then emit (Sleep 1000) w2 else w2)
  end.
Proof.
  cbn [send_attempts]. cbv zeta.
  destruct (transport (posts w)) as [status_code [j|]|]; cbn [delivered failure_log];
    try destruct (status_code =? 200); reflexivity.
Qed.

(** The retry loop from any attempt on: how many attempts it makes, what
    it adds to the trace and what it returns. *)
Lemma send_attempts_spec left attempt chat text w :
  left + attempt = max_retries -> 0 < left ->
  exists n evs,
    1 <= n <= left /\
    posts (send_attempts transport left attempt chat text w).2 = posts w + n /\
    trace (send_attempts transport left attempt chat text w).2 = trace w ++ evs /\
    List.filter (fun e => negb (is_log e)) evs = paced n chat text /\
    (forall i, i + 1 < n -> delivered (transport (posts w + i)) = None) /\
    (send_attempts transport left attempt chat text w).1
      = delivered (transport (posts w + (n - 1))) /\
    ((send_attempts transport left attempt chat text w).1 = None -> n = left) /\
    same_memory w (send_attempts transport left attempt chat text w).2.
Proof.
  revert attempt w. induction left as [|left IH]; intros attempt w Hsum Hpos; [lia|].
  rewrite send_attempts_step. cbv zeta.
  destruct (delivered (transport (posts w))) as [j|] eqn:D.
  - exists 1, [Post chat text]. cbn [fst snd posts trace count_post emit].
    rewrite Nat.add_0_r, D.
    split_and!; try done; try lia.
  - set (w2 := emit (failure_log chat attempt (transport (posts w)))
                 (count_post (emit (Post chat text) w))).
    destruct left as [|left].
    + exists 1, [Post chat text; failure_log chat attempt (transport (posts w))].
      assert ((attempt <? max_retries - 1) = false) as ->
        by (apply Nat.ltb_ge; unfold max_retries in *; lia).
      cbn [send_attempts fst snd]. subst w2.
      cbn [posts trace count_post emit Nat.sub]. rewrite Nat.add_0_r, D.
      split_and!; try done; try lia.
      * rewrite <- app_assoc. reflexivity.
      * cbn [List.filter is_log negb]. by rewrite failure_log_is_log.
    + assert ((attempt <? max_retries - 1) = true) as ->
        by (apply Nat.ltb_lt; unfold max_retries in *; lia).
      destruct (IH (S attempt) (emit (Sleep 1000) w2)) as
        (n & evs & Hn & Hp & Ht & Hf & Hfail & Hr & Hnone & Hmem); [lia|lia|].
      exists (S n),
        ([Post chat text; failure_log chat attempt (transport (posts w));
          Sleep 1000] ++ evs).
      rewrite Hp, Ht, Hr. subst w2. cbn [posts emit count_post trace].
      split_and!; try lia.
      * rewrite <- !app_assoc. reflexivity.
      * rewrite List.filter_app, Hf. cbn [List.filter is_log negb].
        rewrite failure_log_is_log. cbn [negb app].
        destruct n; [lia|]. reflexivity.
      * intros [|i] Hi; [by rewrite Nat.add_0_r|].
        replace (posts w + S i) with (S (posts w) + i) by lia.
        apply Hfail. lia.
      * f_equal. f_equal. lia.
      * intros E. rewrite Hr in Hnone. specialize (Hnone E). lia.
      * eapply same_memory_trans; [|exact Hmem]. by repeat split.
Qed.

Lemma send_message_spec chat text w :
  exists n evs,
    1 <= n <= 3 /\
    posts (send_message transport chat text w).2 = posts w + n /\
    trace (send_message transport chat text w).2 = trace w ++ evs /\
    List.filter (fun e => negb (is_log e)) evs = paced n chat text /\
    (forall i, i + 1 < n -> delivered (transport (posts w + i)) = None) /\
    (send_message transport chat text w).1
      = delivered (transport (posts w + (n - 1))) /\
    ((send_message transport chat text w).1 = None -> n = 3) /\
    same_memory w (send_message transport chat text w).2.
Proof. apply (send_attempts_spec 3 0); [reflexivity|lia]. Qed.

Lemma send_message_memory chat text w :
  same_memory w (send_message transport chat text w).2.
Proof. destruct (send_message_spec chat text w) as (n & evs & H). apply H. Qed.

(** What a call of [send_message] adds to the trace: between one and
    three POSTs of the same text, and nothing but POSTs, pauses and log
    lines. *)
Lemma send_message_trace chat text w :
  exists n evs,
    1 <= n <= 3 /\
    trace (send_message transport chat text w).2 = trace w ++ evs /\
    posts_of evs = replicate n (Post chat text) /\
    Forall (fun e => forall c, e <> ThreadStart c) evs /\
    Forall (fun e => forall i, e <> Fetch i) evs.
Proof.
  destruct (send_message_spec chat text w)
    as (n & evs & Hn & _ & Ht & Hf & _).
  exists n, evs. split_and!; try done; try lia.
  - by rewrite <- posts_of_not_log, Hf, posts_of_paced.
  - apply Forall_forall. intros e He c ->.
    assert (In (ThreadStart c) (paced n chat text)) as Hin.
    { rewrite <- Hf. apply List.filter_In. split; [|reflexivity].
      by apply list_elem_of_In. }
    clear -Hin. revert Hin. induction n as [|n IH]; [done|].
    cbn [paced]. destruct n; cbn; intros [?|H]; try done.
    destruct H as [?|H]; [done|]. by apply IH.
  - apply Forall_forall. intros e He c ->.
    assert (In (Fetch c) (paced n chat text)) as Hin.
    { rewrite <- Hf. apply List.filter_In. split; [|reflexivity].
      by apply list_elem_of_In. }
    clear -Hin. revert Hin. induction n as [|n IH]; [done|].
    cbn [paced]. destruct n; cbn; intros [?|H]; try done.
    destruct H as [?|H]; [done|]. by apply IH.
Qed.

Lemma users_send_message chat text w :
  users (send_message transport chat text w).2 = users w.
Proof. by destruct (send_message_memory chat text w) as (H & _). Qed.

End SendFacts.

(** *** The dedup cache *)

Lemma foldl_discard (s : gset string) l :
  foldl (fun s old => s ∖ {[old]}) s l = s ∖ list_to_set l.
Proof.
  revert s. induction l as [|x l IH]; intros s; cbn [foldl].
  - set_solver.
  - rewrite IH. set_solver.
Qed.

Lemma cache_emit chat e w : cache chat (emit e w) = cache chat w.
Proof. reflexivity. Qed.

Lemma cache_mark chat email_id w :
  is_Some (users w !! chat) ->
  cache chat (mark_processed chat email_id w) = {[email_id]} ∪ cache chat w.
Proof.
  intros [u Hu]. unfold cache, mark_processed. cbn [users with_users].
  by rewrite lookup_alter_eq, Hu.
Qed.

Lemma known_mark chat email_id w :
  is_Some (users (mark_processed chat email_id w) !! chat) <->
  is_Some (users w !! chat).
Proof.
  unfold mark_processed. cbn [users with_users]. rewrite lookup_alter_eq.
  destruct (users w !! chat); cbn; split; intros [? ?]; eauto; done.
Qed.

Lemma cache_set_count chat n w :
  cache chat (with_users (alter (set_count n) chat) w) = cache chat w.
Proof.
  unfold cache. cbn [users with_users]. rewrite lookup_alter_eq.
  by destruct (users w !! chat).
Qed.

Lemma known_set_count chat n w :
  is_Some (users (with_users (alter (set_count n) chat) w) !! chat) <->
  is_Some (users w !! chat).
Proof.
  cbn [users with_users]. rewrite lookup_alter_eq.
  destruct (users w !! chat); cbn; split; intros [? ?]; eauto; done.
Qed.

Lemma length_newest_five l : length (newest_five l) <= 5.
Proof. unfold newest_five. rewrite length_rev, length_drop. lia. Qed.

Lemma no_fetch_app a b : no_fetch a -> no_fetch b -> no_fetch (a ++ b).
Proof. apply Forall_app_2. Qed.

Lemma no_fetch_log e : is_log e = true -> no_fetch [e].
Proof. intros H. apply Forall_singleton. intros i ->. discriminate. Qed.

Lemma fetches_no_fetch i evs : no_fetch evs -> fetches i evs = 0.
Proof.
  unfold fetches. induction 1 as [|e evs He _ IH]; [done|].
  cbn [List.filter]. destruct e; cbn [is_fetch_of]; try done.
  by destruct (He email_id).
Qed.

Lemma fetches_app i a b : fetches i (a ++ b) = fetches i a + fetches i b.
Proof. unfold fetches. by rewrite List.filter_app, length_app. Qed.

Lemma fetches_cons_fetch i j evs :
  fetches i (Fetch j :: evs) = (if decide (i = j) then 1 else 0) + fetches i evs.
Proof.
  unfold fetches. cbn [List.filter is_fetch_of].
  destruct (String.eqb_spec j i) as [->|Hne].
  - by rewrite decide_True.
  - by rewrite decide_False by congruence.
Qed.

Section CacheFacts.

Variable set_order : gset string -> list string.

Lemma trim_eq s :
  trim set_order s =
  if 100 <? size s then s ∖ list_to_set (take 50 (set_order s)) else s.
Proof. unfold trim. destruct (100 <? size s); [apply foldl_discard|done]. Qed.

Lemma trim_small s : size s <= 100 -> trim set_order s = s.
Proof.
  intros H. rewrite trim_eq.
  by replace (100 <? size s) with false by (symmetry; apply Nat.ltb_ge; lia).
Qed.

(** When the cache is over a hundred, fifty identifiers leave it. *)
Lemma trim_size s :
  enumerates set_order -> 100 < size s ->
  size (trim set_order s) = size s - 50.
Proof.
  intros Hen Hs. rewrite trim_eq.
  replace (100 <? size s) with true by (symmetry; by apply Nat.ltb_lt).
  pose proof (Hen s) as Hp.
  assert (NoDup (set_order s)) as Hnd by (rewrite Hp; apply NoDup_elements).
  assert (length (set_order s) = size s) as Hlen by (by rewrite Hp).
  rewrite size_difference.
  - rewrite size_list_to_set
      by (eapply sublist_NoDup; [exact Hnd|apply sublist_take]).
    rewrite length_take. lia.
  - intros x Hx. apply elem_of_list_to_set in Hx.
    apply elem_of_take in Hx as (i & Hx & _).
    apply elem_of_elements. rewrite <- Hp. by eapply list_elem_of_lookup_2.
Qed.

Lemma trim_bound s :
  enumerates set_order -> size s <= 101 -> size (trim set_order s) <= 100.
Proof.
  intros Hen Hs. destruct (decide (size s <= 100)) as [H|H].
  - by rewrite trim_small.
  - rewrite trim_size by (done || lia). lia.
Qed.

Lemma cache_clean_old chat w :
  cache chat (clean_old set_order chat w) = trim set_order (cache chat w).
Proof.
  unfold cache, clean_old. cbn [users with_users]. rewrite lookup_alter_eq.
  destruct (users w !! chat); [done|]. by rewrite trim_small by (rewrite size_empty; lia).
Qed.

Lemma known_clean_old chat w :
  is_Some (users (clean_old set_order chat w) !! chat) <->
  is_Some (users w !! chat).
Proof.
  unfold clean_old. cbn [users with_users]. rewrite lookup_alter_eq.
  destruct (users w !! chat); cbn; split; intros [? ?]; eauto; done.
Qed.

End CacheFacts.

Section StoreFacts.

Variable store_up : nat -> bool.

Lemma users_log_otp chat se sn code subj ms now w :
  users (log_otp store_up chat se sn code subj ms now w) = users w.
Proof. unfold log_otp. by destruct (store_up _). Qed.

Lemma trace_log_otp chat se sn code subj ms now w :
  exists e, is_log e = true /\
    trace (log_otp store_up chat se sn code subj ms now w) = trace w ++ [e].
Proof.
  unfold log_otp. destruct (store_up (transactions w)).
  - by exists (Log INFO (OtpLogged chat code ms)).
  - by exists (Log ERROR (OtpLogError chat)).
Qed.

End StoreFacts.

(** *** Runs in which the cache is never cleaned *)

Lemma processed_once_neutral chat w w' evs :
  is_Some (users w' !! chat) -> cache chat w' = cache chat w ->
  trace w' = trace w ++ evs -> no_fetch evs ->
  processed_once chat 0 w w'.
Proof.
  intros Hk Hc Ht Hnf. split_and!; [done|by rewrite Hc|rewrite Hc; lia|].
  exists evs. split; [done|]. intros i.
  rewrite fetches_no_fetch by done. rewrite decide_False; [done|].
  rewrite Hc. set_solver.
Qed.

Lemma processed_once_refl chat w :
  is_Some (users w !! chat) -> processed_once chat 0 w w.
Proof.
  intros Hk. apply (processed_once_neutral chat w w []); try done.
  - by rewrite app_nil_r.
  - constructor.
Qed.

Lemma processed_once_trans chat k1 k2 w1 w2 w3 :
  processed_once chat k1 w1 w2 -> processed_once chat k2 w2 w3 ->
  processed_once chat (k1 + k2) w1 w3.
Proof.
  intros (_ & Hs1 & Hn1 & evs1 & Ht1 & Hf1) (Hk & Hs2 & Hn2 & evs2 & Ht2 & Hf2).
  split_and!; [done|set_solver|lia|].
  exists (evs1 ++ evs2). split; [by rewrite Ht2, Ht1, app_assoc|].
  intros i. rewrite fetches_app, Hf1, Hf2.
  repeat case_decide; try done; set_solver.
Qed.

Lemma processed_once_le chat k k' w w' :
  k <= k' -> processed_once chat k w w' -> processed_once chat k' w w'.
Proof.
  intros Hle (Hk & Hs & Hn & Hev). split_and!; [done|done|lia|done].
Qed.

Lemma processed_once_emit chat e w :
  (forall i, e <> Fetch i) -> is_Some (users w !! chat) ->
  processed_once chat 0 w (emit e w).
Proof.
  intros He Hk. apply (processed_once_neutral chat w _ [e]); try done.
  by apply Forall_singleton.
Qed.

(** *** One candidate, one turn *)

Section CycleFacts.

Variable transport : nat -> Reply.
Variable store_up : nat -> bool.
Variable set_order : gset string -> list string.

Lemma process_candidate_skip chat mb now email_id w :
  email_id ∈ cache chat w ->
  process_candidate transport store_up set_order chat mb now email_id w
  = Normal w.
Proof. intros H. unfold process_candidate. by rewrite decide_True. Qed.

Lemma process_candidate_fresh chat mb now email_id w :
  email_id ∉ cache chat w ->
  process_candidate transport store_up set_order chat mb now email_id w
  = process_marked transport store_up set_order chat mb now email_id
      (mark_processed chat email_id w).
Proof. intros H. unfold process_candidate. by rewrite decide_False. Qed.

(** The users table after the loop body: only the cache of [chat] can
    have changed, by the cleaning. *)
Lemma users_process_marked chat mb now email_id w :
  users (state_of (process_marked transport store_up set_order chat mb now
                     email_id w)) =
  match mb_fetch mb email_id with
  | FetchRaises => users w
  | _ => users (clean_old set_order chat w)
  end.
Proof.
  unfold process_marked.
  destruct (mb_fetch mb email_id) as [m| |]; [|done..].
  destruct (otp_of m) as [otp|]; [|done].
  cbn [state_of clean_old users with_users emit].
  by rewrite users_log_otp, users_send_message.
Qed.

Lemma cache_process_marked chat mb now email_id w :
  cache chat (state_of (process_marked transport store_up set_order chat mb
                          now email_id w)) =
  match mb_fetch mb email_id with
  | FetchRaises => cache chat w
  | _ => trim set_order (cache chat w)
  end.
Proof.
  unfold cache at 1. rewrite users_process_marked.
  destruct (mb_fetch mb email_id); try done; apply cache_clean_old.
Qed.

Lemma known_process_marked chat mb now email_id w :
  is_Some (users (state_of (process_marked transport store_up set_order chat
                              mb now email_id w)) !! chat) <->
  is_Some (users w !! chat).
Proof.
  rewrite users_process_marked.
  destruct (mb_fetch mb email_id); try done; apply known_clean_old.
Qed.

(** The loop body fetches its message once and nothing else. *)
Lemma trace_process_marked chat mb now email_id w :
  exists evs,
    trace (state_of (process_marked transport store_up set_order chat mb now
                       email_id w)) = trace w ++ Fetch email_id :: evs /\
    no_fetch evs.
Proof.
  unfold process_marked.
  destruct (mb_fetch mb email_id) as [m| |];
    [|exists []; split; [done|constructor]..].
  destruct (otp_of m) as [otp|]; [|exists []; split; [done|constructor]].
  cbn [state_of clean_old trace with_users emit].
  set (w1 := emit (Fetch email_id) w).
  destruct (send_message_trace transport chat
              (OtpNotice (msg_sender_name m) (msg_subject m) otp) w1)
    as (n & evs1 & _ & Ht1 & _ & _ & Hnf1).
  destruct (trace_log_otp store_up chat (msg_sender_email m) (msg_sender_name m) otp
              (msg_subject m) (msg_elapsed_ms m) now
              (send_message transport chat
                 (OtpNotice (msg_sender_name m) (msg_subject m) otp) w1).2)
    as (e & He & Ht2).
  eexists (evs1 ++ [e] ++ [_]). split.
  - rewrite Ht2, Ht1. subst w1. cbn [trace emit].
    rewrite <- !app_assoc. reflexivity.
  - apply no_fetch_app; [done|]. apply no_fetch_app; [by apply no_fetch_log|].
    by apply no_fetch_log.
Qed.

Lemma processed_once_candidate chat mb now email_id w :
  is_Some (users w !! chat) -> size (cache chat w) < 100 ->
  processed_once chat 1 w
    (state_of (process_candidate transport store_up set_order chat mb now
                 email_id w)).
Proof.
  intros Hk Hsz. destruct (decide (email_id ∈ cache chat w)) as [Hin|Hin].
  - rewrite process_candidate_skip by done. cbn [state_of].
    apply (processed_once_le chat 0); [lia|by apply processed_once_refl].
  - rewrite process_candidate_fresh by done.
    set (w1 := mark_processed chat email_id w).
    assert (Hc1 : cache chat w1 = {[email_id]} ∪ cache chat w)
      by (by apply cache_mark).
    assert (Hs1 : size (cache chat w1) = S (size (cache chat w))).
    { rewrite Hc1, size_union, size_singleton by set_solver. lia. }
    assert (Hc : cache chat (state_of (process_marked transport store_up
                    set_order chat mb now email_id w1))
                 = {[email_id]} ∪ cache chat w).
    { rewrite cache_process_marked.
      destruct (mb_fetch mb email_id); try done;
        rewrite trim_small by lia; done. }
    destruct (trace_process_marked chat mb now email_id w1)
      as (evs & Ht & Hnf).
    split_and!.
    + apply known_process_marked. by apply known_mark.
    + rewrite Hc. set_solver.
    + rewrite Hc, size_union, size_singleton by set_solver. lia.
    + exists (Fetch email_id :: evs). split; [done|]. intros i.
      rewrite fetches_cons_fetch, (fetches_no_fetch _ _ Hnf), Hc.
      repeat case_decide; try done; set_solver.
Qed.

(** Below a hundred identifiers, a candidate is in the cache once its
    turn is over, however the turn ended. *)
Lemma cached_after_candidate chat mb now email_id w :
  is_Some (users w !! chat) -> size (cache chat w) < 100 ->
  email_id ∈ cache chat
    (state_of (process_candidate transport store_up set_order chat mb now
                 email_id w)).
Proof.
  intros Hk Hsz. destruct (decide (email_id ∈ cache chat w)) as [Hin|Hin].
  - by rewrite process_candidate_skip.
  - rewrite process_candidate_fresh by done.
    assert (Hs1 : size (cache chat (mark_processed chat email_id w))
                  = S (size (cache chat w))).
    { rewrite cache_mark, size_union, size_singleton by (done || set_solver).
      lia. }
    rewrite cache_process_marked.
    destruct (mb_fetch mb email_id); rewrite ?trim_small by lia;
      rewrite cache_mark by done; set_solver.
Qed.

Lemma processed_once_candidates chat mb now email_ids w :
  is_Some (users w !! chat) ->
  size (cache chat w) + length email_ids <= 100 ->
  processed_once chat (length email_ids) w
    (state_of (process_candidates transport store_up set_order chat mb now
                 email_ids w)).
Proof.
  revert w. induction email_ids as [|i l IH]; intros w Hk Hsz.
  - by apply processed_once_refl.
  - cbn [length] in *. cbn [process_candidates].
    pose proof (processed_once_candidate chat mb now i w Hk ltac:(lia)) as H1.
    destruct (process_candidate _ _ _ _ _ _ _ _) as [w1|w1]; cbn [state_of] in *.
    + change (S (length l)) with (1 + length l).
      eapply processed_once_trans; [exact H1|].
      destruct H1 as (Hk1 & _ & Hn1 & _).
      apply IH; [done|lia].
    + apply (processed_once_le chat 1); [lia|done].
Qed.

Lemma processed_once_cycle chat mb now w :
  is_Some (users w !! chat) ->
  size (cache chat w) + 5 <= 100 ->
  processed_once chat 5 w
    (poll_cycle transport store_up set_order chat mb now w).
Proof.
  intros Hk Hsz. unfold poll_cycle. destruct Hk as [u Hu]. rewrite Hu.
  assert (Hk : is_Some (users w !! chat)) by eauto.
  match goal with |- processed_once _ _ _ (emit _ ?x) => set (wmid := x) end.
  enough (H5 : processed_once chat 5 w wmid).
  { change 5 with (5 + 0).
    eapply processed_once_trans; [exact H5|].
    apply processed_once_emit; [done|apply H5]. }
  subst wmid.
  destruct (mb_login mb (email u) (password u)).
  { apply (processed_once_le chat (0 + 0)); [lia|].
    eapply processed_once_trans; apply processed_once_emit; try done. }
  destruct (mb_count mb) as [current_count|];
    [|apply (processed_once_le chat 0); [lia|by apply processed_once_refl]].
  set (w1 := with_users (alter (set_count current_count) chat) w).
  assert (H01 : processed_once chat 0 w w1).
  { apply (processed_once_neutral chat w w1 []).
    - by apply known_set_count.
    - apply cache_set_count.
    - by rewrite app_nil_r.
    - constructor. }
  destruct (last_email_count u <? current_count).
  - destruct (mb_unseen mb) as [email_ids|];
      [|apply (processed_once_le chat 0); [lia|done]].
    pose proof (length_newest_five email_ids) as Hl.
    pose proof (processed_once_candidates chat mb now
                  (newest_five email_ids) w1) as H.
    destruct H01 as (Hk1 & _ & _ & _).
    specialize (H Hk1). unfold w1 in H at 1. rewrite cache_set_count in H.
    specialize (H ltac:(lia)).
    assert (Hw : processed_once chat 5 w
              (state_of (process_candidates transport store_up set_order
                           chat mb now (newest_five email_ids) w1))).
    { apply (processed_once_le chat (0 + length (newest_five email_ids)));
        [lia|].
      eapply processed_once_trans; [|exact H].
      apply (processed_once_neutral chat w w1 []).
      - done.
      - apply cache_set_count.
      - by rewrite app_nil_r.
      - constructor. }
    destruct (process_candidates _ _ _ _ _ _ _ _) as [w2|w2];
      cbn [state_of] in Hw; [done|].
    change 5 with (5 + (0 + 0)).
    eapply processed_once_trans; [exact Hw|].
    destruct Hw as (Hk2 & _).
    eapply processed_once_trans; apply processed_once_emit; try done.
  - destruct (last_email_count u =? 0);
      apply (processed_once_le chat 0); try lia; try done.
    by apply processed_once_refl.
Qed.

Lemma processed_once_cycles chat now mbs w :
  is_Some (users w !! chat) ->
  size (cache chat w) + 5 * length mbs <= 100 ->
  processed_once chat (5 * length mbs) w
    (poll_cycles transport store_up set_order chat now mbs w).
Proof.
  revert w. induction mbs as [|mb mbs IH]; intros w Hk Hsz.
  - by apply processed_once_refl.
  - cbn [length] in *. unfold poll_cycles. cbn [foldl].
    replace (5 * S (length mbs)) with (5 + 5 * length mbs) by lia.
    pose proof (processed_once_cycle chat mb now w Hk ltac:(lia)) as H1.
    eapply processed_once_trans; [exact H1|].
    destruct H1 as (Hk1 & _ & Hn1 & _).
    apply IH; [done|lia].
Qed.

(** *** The size of the cache when no fetch raises *)

Lemma cache_bounded_candidate chat mb now email_id w :
  enumerates set_order -> mb_fetch mb email_id <> FetchRaises ->
  size (cache chat w) <= 100 ->
  size (cache chat
          (state_of (process_candidate transport store_up set_order chat mb
                       now email_id w))) <= 100.
Proof.
  intros Hen Hf Hsz. destruct (decide (email_id ∈ cache chat w)) as [Hin|Hin].
  - by rewrite process_candidate_skip.
  - rewrite process_candidate_fresh, cache_process_marked by done.
    assert (size (cache chat (mark_processed chat email_id w)) <= 101).
    { unfold cache at 1, mark_processed. cbn [users with_users].
      rewrite lookup_alter_eq. fold (cache chat w).
      unfold cache in *. destruct (users w !! chat) as [u|]; cbn.
      - rewrite size_union_alt, size_singleton.
        pose proof (subseteq_size (last_processed_emails u ∖ {[email_id]})
                      (last_processed_emails u)) as Hs.
        specialize (Hs ltac:(set_solver)). lia.
      - rewrite size_empty. lia. }
    destruct (mb_fetch mb email_id); try done; by apply trim_bound.
Qed.

Lemma cache_bounded_candidates chat mb now email_ids w :
  enumerates set_order -> (forall i, mb_fetch mb i <> FetchRaises) ->
  size (cache chat w) <= 100 ->
  size (cache chat
          (state_of (process_candidates transport store_up set_order chat mb
                       now email_ids w))) <= 100.
Proof.
  intros Hen Hf. revert w. induction email_ids as [|i l IH]; intros w Hsz.
  - done.
  - cbn [process_candidates].
    pose proof (cache_bounded_candidate chat mb now i w Hen (Hf i) Hsz) as H.
    destruct (process_candidate _ _ _ _ _ _ _ _); cbn [state_of] in *;
      [by apply IH|done].
Qed.

(** As long as no fetch raises, the cache holds at most a hundred
    identifiers at the end of every turn. *)
Lemma cache_bounded_cycle chat mb now w :
  enumerates set_order -> (forall i, mb_fetch mb i <> FetchRaises) ->
  size (cache chat w) <= 100 ->
  size (cache chat (poll_cycle transport store_up set_order chat mb now w))
  <= 100.
Proof.
  intros Hen Hf Hsz. unfold poll_cycle.
  destruct (users w !! chat) as [u|] eqn:Hu; [|done].
  rewrite cache_emit.
  destruct (mb_login mb (email u) (password u)); [done|].
  destruct (mb_count mb) as [current_count|]; [|done].
  destruct (last_email_count u <? current_count).
  - destruct (mb_unseen mb) as [email_ids|]; [|by rewrite cache_set_count].
    pose proof (cache_bounded_candidates chat mb now (newest_five email_ids)
                  (with_users (alter (set_count current_count) chat) w)
                  Hen Hf) as H.
    rewrite cache_set_count in H. specialize (H Hsz).
    by destruct (process_candidates _ _ _ _ _ _ _ _).
  - destruct (last_email_count u =? 0); [by rewrite cache_set_count|done].
Qed.

End CycleFacts.

(** ** The poll cycle on the example run *)

Ltac bot_simpl :=
  cbn [users monitoring_threads waiting_states temp_credentials user_stats
       gmail_locks db_users db_otp_logs trace posts transactions
       with_users with_threads with_waiting with_temp with_stats with_locks
       with_db emit count_post count_transaction state_of fst snd
       email password is_monitoring last_processed_emails last_email_count
       set_processed set_count set_monitoring
       mb_login mb_count mb_unseen mb_fetch inbox].

Section RunFacts.

Variable set_order : gset string -> list string.

Lemma otp_of_code_mail : otp_of code_mail = Some "482913".
Proof. vm_compute. reflexivity. Qed.

Lemma send_message_delivering chat text w :
  send_message delivering chat text w
  = (Some "{}", count_post (emit (Post chat text) w)).
Proof. reflexivity. Qed.

Lemma posts_of_snoc evs e :
  posts_of (evs ++ [e]) = posts_of evs ++ (if is_post e then [e] else []).
Proof. rewrite posts_of_app. unfold posts_of. cbn. by destruct (is_post e). Qed.

Lemma logged_in_at chat : poller_at chat (logged_in chat) ∅ 0 0 0.
Proof.
  unfold logged_in, save_user, committing, start_monitoring_for_user.
  bot_simpl. rewrite lookup_insert_eq. bot_simpl.
  eexists. split; [apply lookup_insert_eq|]. by split_and!.
Qed.

Lemma cache_logged_in chat : cache chat (logged_in chat) = ∅.
Proof.
  destruct (logged_in_at chat) as (u & Hu & Hc & _).
  unfold cache. by rewrite Hu.
Qed.

(** A turn that finds a new identifier whose mail carries a code: the
    identifier is cached, the cache cleaned, one OTP event stored and one
    POST made. *)
Lemma cycle_fresh chat w c k r p email_id :
  poller_at chat w c k r p -> email_id ∉ c ->
  poller_at chat
    (poll_cycle delivering committing set_order chat
       (inbox (S k) email_id (FetchOK code_mail)) 0 w)
    (trim set_order ({[email_id]} ∪ c)) (S k) (S r) (S p).
Proof.
  intros (u & Hu & Hc & Hk & Hr & Hp) Hnew. unfold poller_at.
  unfold poll_cycle. rewrite Hu. bot_simpl.
  replace (last_email_count u <? S k) with true
    by (symmetry; apply Nat.ltb_lt; lia).
  change (newest_five [email_id]) with [email_id].
  cbn [process_candidates]. unfold process_candidate.
  rewrite decide_False
    by (unfold cache; bot_simpl; rewrite lookup_alter_eq, Hu; cbn; by rewrite Hc).
  unfold process_marked. bot_simpl. rewrite otp_of_code_mail.
  rewrite send_message_delivering. unfold log_otp, committing. bot_simpl.
  unfold clean_old, mark_processed. bot_simpl.
  eexists. split.
  { rewrite !lookup_alter_eq, Hu. reflexivity. }
  bot_simpl. rewrite Hc. split_and!; try done.
  - rewrite length_app. cbn. lia.
  - rewrite !posts_of_snoc. cbn [is_post]. rewrite !app_nil_r, length_app.
    cbn. lia.
Qed.


Lemma inboxes_app k fetched a b :
  inboxes k fetched (a ++ b)
  = inboxes k fetched a ++ inboxes (k + length a) fetched b.
Proof.
  revert k. induction a as [|x a IH]; intros k; cbn [inboxes app length].
  - by rewrite Nat.add_0_r.
  - rewrite IH. do 3 f_equal. lia.
Qed.

Lemma poll_cycles_app tr st chat now a b w :
  poll_cycles tr st set_order chat now (a ++ b) w
  = poll_cycles tr st set_order chat now b
      (poll_cycles tr st set_order chat now a w).
Proof. unfold poll_cycles. apply foldl_app. Qed.

(** New identifiers with mails that carry a code, while the cache stays
    within a hundred: each is cached, stored and notified once. *)
Lemma run_fresh chat email_ids w c k r p :
  poller_at chat w c k r p -> NoDup email_ids ->
  (forall i, i ∈ email_ids -> i ∉ c) ->
  size c + length email_ids <= 100 ->
  poller_at chat
    (poll_cycles delivering committing set_order chat 0
       (inboxes k (FetchOK code_mail) email_ids) w)
    (c ∪ list_to_set email_ids) (k + length email_ids)
    (r + length email_ids) (p + length email_ids) /\
  size (c ∪ list_to_set email_ids) = size c + length email_ids.
Proof.
  revert w c k r p.
  induction email_ids as [|i l IH]; intros w c k r p Hat Hnd Hnew Hsz.
  - cbn [inboxes length list_to_set]. rewrite !Nat.add_0_r.
    replace (c ∪ ∅) with c by set_solver. done.
  - cbn [inboxes length] in *. unfold poll_cycles. cbn [foldl].
    apply NoDup_cons in Hnd as [Hi Hnd].
    assert (Hic : i ∉ c) by (apply Hnew; set_solver).
    assert (Hs1 : size ({[i]} ∪ c) = S (size c)).
    { rewrite size_union, size_singleton by set_solver. lia. }
    pose proof (cycle_fresh chat w c k r p i Hat Hic) as H1.
    rewrite trim_small in H1 by lia.
    destruct (IH _ _ _ _ _ H1 Hnd) as [H2 H3].
    + intros j Hj. specialize (Hnew j ltac:(set_solver)). set_solver.
    + lia.
    + replace (c ∪ list_to_set (i :: l)) with ({[i]} ∪ c ∪ list_to_set l)
        by set_solver.
      replace (k + S (length l)) with (S k + length l) by lia.
      replace (r + S (length l)) with (S r + length l) by lia.
      replace (p + S (length l)) with (S p + length l) by lia.
      split; [exact H2|]. lia.
Qed.



Lemma NoDup_numbers_101 : NoDup numbers_101.
Proof. apply (bool_decide_unpack _). vm_compute. exact I. Qed.

End RunFacts.

(** * The properties of the specification *)

(** ** OTP extraction *)


(** C7, as the code has it.  For ["Your verification code: 48213"] the
    result is ["48213"], and it is the bare 5-digit pattern, third in the
    order, that selects it: the bare 6- and 4-digit patterns find nothing
    and the keyword patterns are never tried (the pattern for the keyword
    code would find the same digits). *)
Theorem extract_otp_verification_code :
  extract_otp (Some "Your verification code: 48213") = Some "48213" /\
  patterns !! 2 = Some (bare 5) /\
  selected_by patterns 2 (chars "Your verification code: 48213")
    (chars "48213") /\
  first_valid (keyword "code") (chars "Your verification code: 48213")
  = Some (chars "48213").
Proof.
  split_and!.
  - vm_compute. reflexivity.
  - reflexivity.
  - exists (bare 5). split_and!.
    + reflexivity.
    + vm_compute. reflexivity.
    + intros j q Hj Hq.
      destruct j as [|[|j]]; [| |lia]; injection Hq as <-;
        vm_compute; reflexivity.
  - vm_compute. reflexivity.
Qed.

(** C7, as the specification states it, does not hold: no keyword-prefixed pattern (the
    patterns from the fifth on) is the one that selects ["48213"]. *)
Lemma extract_otp_verification_code_not_by_keyword :
  ~ exists i, 4 <= i /\
      selected_by patterns i (chars "Your verification code: 48213")
        (chars "48213").
Proof.
  intros (i & Hi & r & _ & _ & Hmin).
  specialize (Hmin 2 (bare 5) ltac:(lia) eq_refl).
  vm_compute in Hmin. discriminate.
Qed.




(** ** Notification and logging *)

Section DeliveryClaims.

Variable transport : nat -> Reply.
Variable store_up : nat -> bool.
Variable set_order : gset string -> list string.

(** The loop body for a new identifier whose mail carries a code. *)
Lemma process_marked_found chat mb now email_id w m otp :
  mb_fetch mb email_id = FetchOK m -> otp_of m = Some otp ->
  process_marked transport store_up set_order chat mb now email_id w =
  let w1 :=
    (send_message transport chat
       (OtpNotice (msg_sender_name m) (msg_subject m) otp)
       (emit (Fetch email_id) w)).2 in
  let w2 :=
    log_otp store_up chat (msg_sender_email m) (msg_sender_name m) otp
      (msg_subject m) (msg_elapsed_ms m) now w1 in
  Normal (clean_old set_order chat
            (emit (Log INFO (OtpForwarded (from_option email "" (users w2 !! chat))
                               otp (msg_elapsed_ms m))) w2)).
Proof. intros Hf Ho. unfold process_marked. by rewrite Hf, Ho. Qed.

(** C4.  [send_message] makes between one and three attempts, with a
    pause of one second between two attempts and none after the last; an
    attempt that does not come back with status 200 and a body, or that
    raises, is followed by the next one until three are made; the call
    ends with the reply of the last attempt, [None] after three failures,
    and touches nothing but the trace.  A poll cycle whose three attempts
    all fail still appends the OTP event to the store. *)
Theorem send_message_retry_budget (chat : Z) (text : Notice) (w : Bot) :
  (exists n evs,
     1 <= n <= 3 /\
     posts (send_message transport chat text w).2 = posts w + n /\
     trace (send_message transport chat text w).2 = trace w ++ evs /\
     List.filter (fun e => negb (is_log e)) evs = paced n chat text /\
     (forall i, i + 1 < n -> delivered (transport (posts w + i)) = None) /\
     (send_message transport chat text w).1
       = delivered (transport (posts w + (n - 1))) /\
     ((send_message transport chat text w).1 = None -> n = 3) /\
     same_memory w (send_message transport chat text w).2) /\
  (forall mb now email_id m otp,
     email_id ∉ cache chat w ->
     mb_fetch mb email_id = FetchOK m -> otp_of m = Some otp ->
     (forall i, i < 3 -> delivered (transport (posts w + i)) = None) ->
     store_up (transactions w) = true ->
     let w' :=
       state_of (process_candidate transport store_up set_order chat mb now
                   email_id w) in
     posts w' = posts w + 3 /\
     db_otp_logs w' = db_otp_logs w ++ [otp_row chat m otp]).
Proof.
  split; [apply send_message_spec|].
  intros mb now email_id m otp Hnew Hf Ho Hfail Hup. cbv zeta.
  rewrite process_candidate_fresh by done.
  rewrite (process_marked_found _ _ _ _ _ _ _ Hf Ho). cbv zeta.
  set (w0 := emit (Fetch email_id) (mark_processed chat email_id w)).
  destruct (send_message_spec transport chat
              (OtpNotice (msg_sender_name m) (msg_subject m) otp) w0)
    as (n & evs & Hn & Hp & _ & _ & _ & Hr & Hnone & Hmem).
  assert (n = 3) as ->.
  { apply Hnone. rewrite Hr. destruct (decide (n = 0)); [lia|].
    change (posts w0) with (posts w). apply Hfail. lia. }
  destruct Hmem as (_ & _ & _ & _ & _ & _ & _ & Hlogs & Htx).
  cbn [state_of clean_old with_users emit posts db_otp_logs].
  unfold log_otp. rewrite Htx. change (transactions w0) with (transactions w).
  rewrite Hup.
  cbn [posts db_otp_logs emit with_stats with_db count_transaction].
  rewrite Hp, Hlogs. done.
Qed.

(** C9, as the code has it.  When the store write fails, [log_otp] logs
    the error and leaves the counters in memory as they were, like the
    store; the counters move on only after the write has been committed.  *)
Theorem log_otp_counters_follow_store (chat : Z)
    (sender_email sender_name code subject : string)
    (detection_time_ms now : Z) (w : Bot) :
  let w' :=
    log_otp store_up chat sender_email sender_name code subject
      detection_time_ms now w in
  (store_up (transactions w) = false ->
   user_stats w' = user_stats w /\
   db_users w' = db_users w /\ db_otp_logs w' = db_otp_logs w /\
   trace w' = trace w ++ [Log ERROR (OtpLogError chat)]) /\
  (store_up (transactions w) = true ->
   length (db_otp_logs w') = S (length (db_otp_logs w)) /\
   (is_Some (user_stats w !! chat) -> counters_advanced chat now w w') /\
   trace w' = trace w ++ [Log INFO (OtpLogged chat code detection_time_ms)]).
Proof.
  cbv zeta. unfold log_otp. split; intros ->.
  - done.
  - cbn [db_otp_logs user_stats trace emit with_stats with_db
         count_transaction].
    split_and!; [|intros [s Hs]; exists s|done].
    + rewrite length_app. cbn. lia.
    + split; [done|].
      cbn [user_stats emit with_stats with_db count_transaction].
      by rewrite lookup_alter_eq, Hs.
Qed.

End DeliveryClaims.

(** A run C4 applies to: chat 1 right after login, a transport that
    never answers, a store that commits. *)
Lemma send_message_retry_budget_witness :
  let w :=
    state_of (process_candidate (fun _ => NoAnswer) committing elements 1
                (inbox 1 "1" (FetchOK code_mail)) 0 "1" (logged_in 1)) in
  posts w = posts (logged_in 1) + 3 /\
  db_otp_logs w
  = db_otp_logs (logged_in 1) ++ [otp_row 1 code_mail "482913"].
Proof.
  apply (proj2 (send_message_retry_budget (fun _ => NoAnswer) committing
                  elements 1 TestingConnection (logged_in 1))).
  - rewrite cache_logged_in. apply not_elem_of_empty.
  - reflexivity.
  - apply otp_of_code_mail.
  - reflexivity.
  - reflexivity.
Defined.

(** C9, as the specification states it, does not hold: for chat 1 right after login and a
    store whose write fails, the counters have not moved. *)
Lemma log_otp_failure_keeps_counters :
  ~ counters_advanced 1 0 (logged_in 1)
      (log_otp (fun _ => false) 1 "noreply@example.com" "Example" "482913"
         "Security code: 482913" 0 0 (logged_in 1)).
Proof.
  intros (s & Hs & Hs'). vm_compute in Hs, Hs'.
  rewrite Hs in Hs'. injection Hs' as H. injection Hs as <-. discriminate.
Qed.

(** ** Onboarding *)

Section OnboardingClaims.

Variable transport : nat -> Reply.
Variable store_up : nat -> bool.
Variable password_hash : string -> Z -> string.

Lemma contains_In c text : contains c text = true <-> In c (chars text).
Proof.
  unfold contains. rewrite existsb_exists. split.
  - intros (x & Hx & E). apply Ascii.eqb_eq in E. by subst.
  - intros H. exists c. split; [done|]. apply Ascii.eqb_refl.
Qed.

Lemma address_check text :
  negb (contains "@" text) || negb (contains "." text) = false <->
  address_shaped text.
Proof.
  unfold address_shaped. rewrite <- !contains_In.
  destruct (contains "@" text), (contains "." text); cbn; intuition congruence.
Qed.

(** C6.  While the address is awaited, a text without an at sign or
    without a dot changes nothing in memory (the state stays where it is
    and nothing is staged) and the prompt for a valid address is sent; a
    text with both is staged, stripped, as the address and the state
    becomes the wait for the credential. *)
Theorem address_input_checked (chat : Z) (text : string) (info : UserInfo)
    (mb : Mailbox) (now : Z) (w : Bot) :
  waiting_states w !! chat = Some AwaitEmail ->
  let w' :=
    handle_user_input transport store_up password_hash chat text info mb
      now w in
  (~ address_shaped text ->
   same_memory w w' /\
   waiting_states w' !! chat = Some AwaitEmail /\
   exists n evs, 1 <= n <= 3 /\ trace w' = trace w ++ evs /\
     posts_of evs = replicate n (Post chat InvalidEmail)) /\
  (address_shaped text ->
   waiting_states w' = <[chat := AwaitPassword]> (waiting_states w) /\
   temp_credentials w' = <[chat := stripped text]> (temp_credentials w) /\
   users w' = users w /\ db_users w' = db_users w /\
   monitoring_threads w' = monitoring_threads w /\
   exists n evs, 1 <= n <= 3 /\ trace w' = trace w ++ evs /\
     posts_of evs = replicate n (Post chat (EmailReceived (stripped text)))).
Proof.
  intros Hst. cbv zeta. unfold handle_user_input. rewrite Hst.
  destruct (negb (contains "@" text) || negb (contains "." text)) eqn:E.
  - split; [intros _|intros H; apply address_check in H; congruence].
    pose proof (send_message_memory transport chat InvalidEmail w) as Hm.
    destruct (send_message_trace transport chat InvalidEmail w)
      as (n & evs & Hn & Ht & Hp & _).
    split_and!; [done| |by exists n, evs].
    destruct Hm as (_ & _ & -> & _). done.
  - split; [intros H; by apply address_check in E|intros _].
    set (w1 := with_waiting (insert chat AwaitPassword)
                 (with_temp (insert chat (stripped text)) w)).
    pose proof (send_message_memory transport chat
                  (EmailReceived (stripped text)) w1) as Hm.
    destruct (send_message_trace transport chat
                (EmailReceived (stripped text)) w1)
      as (n & evs & Hn & Ht & Hp & _).
    destruct Hm as (-> & -> & -> & -> & _ & _ & -> & _).
    split_and!; try done. by exists n, evs.
Qed.

(** C5.  While the credential is awaited, with an address staged, a test
    connection that raises clears the state and the staged address,
    leaves users, threads, statistics and store untouched (no account is
    saved, no monitoring started), and sends the notice of the test and
    then the one diagnostic, which does not depend on the error; free
    text that follows is ignored until a new login. *)
Theorem failed_probe_resets_onboarding (chat : Z) (text : string)
    (info : UserInfo) (mb : Mailbox) (now : Z) (w : Bot)
    (staged err : string) :
  waiting_states w !! chat = Some AwaitPassword ->
  temp_credentials w !! chat = Some staged ->
  mb_login mb staged (stripped text) = Some err ->
  let w' :=
    handle_user_input transport store_up password_hash chat text info mb
      now w in
  waiting_states w' = delete chat (waiting_states w) /\
  temp_credentials w' = delete chat (temp_credentials w) /\
  users w' = users w /\ user_stats w' = user_stats w /\
  gmail_locks w' = gmail_locks w /\
  monitoring_threads w' = monitoring_threads w /\
  db_users w' = db_users w /\ db_otp_logs w' = db_otp_logs w /\
  transactions w' = transactions w /\
  (exists n1 n2 evs,
     1 <= n1 <= 3 /\ 1 <= n2 <= 3 /\ trace w' = trace w ++ evs /\
     posts_of evs =
       replicate n1 (Post chat TestingConnection) ++
       replicate n2 (Post chat ConnectionFailed) /\
     Forall (fun e => forall c, e <> ThreadStart c) evs) /\
  (forall text' info' mb' now',
     handle_user_input transport store_up password_hash chat text' info'
       mb' now' w' = w').
Proof.
  intros Hst Htmp Hlogin. cbv zeta.
  set (w1 := (send_message transport chat TestingConnection w).2).
  set (w2 := (send_message transport chat ConnectionFailed w1).2).
  assert (handle_user_input transport store_up password_hash chat text info
            mb now w
          = with_temp (delete chat)
              (with_waiting (delete chat)
                 (emit (Log ERROR (ConnectionError staged err)) w2))) as ->
    by (unfold handle_user_input; by rewrite Hst, Htmp, Hlogin).
  pose proof (send_message_memory transport chat TestingConnection w) as Hm1.
  pose proof (send_message_memory transport chat ConnectionFailed w1) as Hm2.
  fold w1 in Hm1. fold w2 in Hm2.
  pose proof (same_memory_trans _ _ _ Hm1 Hm2)
    as (Hu & Hth & Hws & Htc & Hus & Hgl & Hdu & Hdl & Htx).
  cbn [waiting_states temp_credentials users user_stats gmail_locks
       monitoring_threads db_users db_otp_logs transactions trace
       with_waiting with_temp emit].
  split_and!; try congruence.
  - destruct (send_message_trace transport chat TestingConnection w)
      as (n1 & evs1 & Hn1 & Ht1 & Hp1 & Hts1 & _).
    destruct (send_message_trace transport chat ConnectionFailed w1)
      as (n2 & evs2 & Hn2 & Ht2 & Hp2 & Hts2 & _).
    fold w1 in Ht1. fold w2 in Ht2.
    exists n1, n2, (evs1 ++ evs2 ++ [Log ERROR (ConnectionError staged err)]).
    split_and!; try lia.
    + rewrite Ht2, Ht1, <- !app_assoc. reflexivity.
    + rewrite !posts_of_app, Hp1, Hp2. cbn. by rewrite app_nil_r.
    + apply Forall_app_2; [done|]. apply Forall_app_2; [done|].
      by apply Forall_singleton.
  - intros text' info' mb' now'. unfold handle_user_input.
    cbn [waiting_states with_waiting with_temp emit].
    by rewrite lookup_delete_eq.
Qed.

End OnboardingClaims.

(** A text C6 applies to: ["user@example.com"] sent after the login
    command. *)
Lemma address_input_checked_witness :
  waiting_states
    (handle_user_input delivering committing plain_hash 1 "user@example.com"
       {| username := ""; first_name := "" |}
       (inbox 0 "" FetchNotOK) 0 (begin_login 1 initial))
  = <[1%Z := AwaitPassword]> (waiting_states (begin_login 1 initial)).
Proof.
  apply (address_input_checked delivering committing plain_hash 1
           "user@example.com" {| username := ""; first_name := "" |}
           (inbox 0 "" FetchNotOK) 0 (begin_login 1 initial)).
  - reflexivity.
  - split; vm_compute; tauto.
Defined.

(** A credential C5 applies to: any, for a mailbox that refuses the
    login. *)
Lemma failed_probe_resets_onboarding_witness :
  waiting_states
    (handle_user_input delivering committing plain_hash 1 "abcd efgh ijkl mnop"
       {| username := ""; first_name := "" |} refusing 0 address_received)
  = delete 1%Z (waiting_states address_received).
Proof.
  apply (failed_probe_resets_onboarding delivering committing plain_hash 1
           "abcd efgh ijkl mnop" {| username := ""; first_name := "" |}
           refusing 0 address_received "user@example.com"
           "AUTHENTICATIONFAILED").
  - vm_compute. reflexivity.
  - vm_compute. reflexivity.
  - reflexivity.
Defined.

(** ** The dedup cache *)

Section DedupClaims.

Variable transport : nat -> Reply.
Variable store_up : nat -> bool.
Variable set_order : gset string -> list string.

Lemma added_app w w' evs : trace w' = trace w ++ evs -> added w w' = evs.
Proof. intros H. unfold added. by rewrite H, drop_app_length. Qed.

(** C2, as the code has it.  A candidate whose identifier is in the cache
    is skipped: nothing is fetched, sent or logged.  Otherwise the
    identifier is put in the cache first and the mail is processed from
    there: one notification (up to three attempts, none after a delivery)
    and, when the mail carries a code, one OTP event if the store commits
    and none if it does not.  While the cache holds fewer than a hundred
    identifiers nothing is evicted, the identifier is still cached when
    its turn is over, even if the fetch raised, and presenting it again
    changes nothing; over any number of cycles that stay within a hundred
    identifiers each identifier is fetched at most once, and never if it
    was cached at the start. *)
Theorem dedup_while_cached (chat : Z) (mb : Mailbox) (now : Z)
    (email_id : string) (w : Bot) :
  is_Some (users w !! chat) ->
  let step := process_candidate transport store_up set_order chat mb now in
  (email_id ∈ cache chat w -> step email_id w = Normal w) /\
  (email_id ∉ cache chat w ->
   step email_id w =
     process_marked transport store_up set_order chat mb now email_id
       (mark_processed chat email_id w) /\
   email_id ∈ cache chat (mark_processed chat email_id w)) /\
  (forall m otp,
     email_id ∉ cache chat w ->
     mb_fetch mb email_id = FetchOK m -> otp_of m = Some otp ->
     let w1 := state_of (step email_id w) in
     (exists n,
        1 <= n <= 3 /\
        posts_of (added w w1)
        = replicate n
            (Post chat (OtpNotice (msg_sender_name m) (msg_subject m) otp)) /\
        forall i, i + 1 < n -> delivered (transport (posts w + i)) = None) /\
     db_otp_logs w1 =
       db_otp_logs w ++
       (if store_up (transactions w) then [otp_row chat m otp] else [])) /\
  (size (cache chat w) < 100 ->
   let w1 := state_of (step email_id w) in
   email_id ∈ cache chat w1 /\ step email_id w1 = Normal w1) /\
  (forall mbs,
     size (cache chat w) + 5 * length mbs <= 100 ->
     let w' := poll_cycles transport store_up set_order chat now mbs w in
     forall i,
       fetches i (added w w') <= 1 /\
       (i ∈ cache chat w -> fetches i (added w w') = 0)).
Proof.
  intros Hk. cbv zeta. split_and!.
  - apply process_candidate_skip.
  - intros Hnew. split; [by apply process_candidate_fresh|].
    rewrite cache_mark by done. set_solver.
  - intros m otp Hnew Hf Ho.
    rewrite process_candidate_fresh by done.
    rewrite (process_marked_found _ _ _ _ _ _ _ _ _ _ Hf Ho). cbv zeta.
    set (w0 := emit (Fetch email_id) (mark_processed chat email_id w)).
    set (notice := OtpNotice (msg_sender_name m) (msg_subject m) otp).
    destruct (send_message_spec transport chat notice w0)
      as (n & evs & Hn & Hp & Ht & Hfl & Hfail & _ & _ & Hmem).
    destruct Hmem as (_ & _ & _ & _ & _ & _ & _ & Hlogs & Htx).
    destruct (trace_log_otp store_up chat (msg_sender_email m)
                (msg_sender_name m) otp (msg_subject m) (msg_elapsed_ms m)
                now (send_message transport chat notice w0).2)
      as (e & He & Hte).
    cbn [state_of clean_old with_users emit trace db_otp_logs].
    split.
    + exists n. split; [done|]. split; [|exact Hfail].
      erewrite added_app.
      2:{ cbn [clean_old trace emit with_users]. rewrite Hte, Ht. subst w0.
          cbn [trace emit mark_processed with_users].
          rewrite <- !app_assoc. reflexivity. }
      rewrite !posts_of_app, <- (posts_of_not_log evs), Hfl, posts_of_paced.
      unfold posts_of. cbn [List.filter is_post app].
      destruct e; try discriminate. cbn [List.filter is_post].
      by rewrite app_nil_r.
    + unfold log_otp. rewrite Htx.
      change (transactions w0) with (transactions w).
      destruct (store_up (transactions w));
        cbn [db_otp_logs emit with_stats with_db count_transaction];
        rewrite Hlogs; [done|by rewrite app_nil_r].
  - intros Hsz.
    pose proof (cached_after_candidate transport store_up set_order chat mb
                  now email_id w Hk Hsz) as Hin.
    split; [done|by apply process_candidate_skip].
  - intros mbs Hsz i.
    destruct (processed_once_cycles transport store_up set_order chat now
                mbs w Hk Hsz) as (_ & Hsub & _ & evs & Ht & Hf).
    rewrite (added_app _ _ _ Ht), Hf.
    split; case_decide; try lia. set_solver.
Qed.

End DedupClaims.

(** A run C2 applies to: the first mail of chat 1 after login. *)
Lemma dedup_while_cached_witness :
  let step :=
    process_candidate delivering committing elements 1
      (inbox 1 "1" (FetchOK code_mail)) 0 in
  step "1" (state_of (step "1" (logged_in 1)))
  = Normal (state_of (step "1" (logged_in 1))).
Proof.
  cbv zeta.
  apply (dedup_while_cached delivering committing elements 1
           (inbox 1 "1" (FetchOK code_mail)) 0 "1" (logged_in 1)).
  - destruct (logged_in_at 1) as (u & Hu & _). by rewrite Hu.
  - rewrite cache_logged_in, size_empty. lia.
Defined.

(** ** Eviction *)

Section EvictionFacts.

Variable set_order : gset string -> list string.

Lemma poll_from_login_app chat fetched a b :
  poll_from_login set_order chat fetched (a ++ b)
  = poll_cycles delivering committing set_order chat 0
      (inboxes (length a) fetched b)
      (poll_from_login set_order chat fetched a).
Proof.
  unfold poll_from_login. by rewrite inboxes_app, poll_cycles_app.
Qed.


(** A hundred and one new identifiers with mails that carry a code: the
    cache is cleaned once, when the last of them comes in. *)
Lemma overflow_run chat l x :
  NoDup (l ++ [x]) -> length l = 100 ->
  poller_at chat
    (poll_from_login set_order chat (FetchOK code_mail) (l ++ [x]))
    (trim set_order (list_to_set (l ++ [x]))) 101 101 101 /\
  size (list_to_set (l ++ [x]) : gset string) = 101.
Proof.
  intros Hnd Hlen.
  apply NoDup_app in Hnd as (Hl & Hx & _).
  destruct (run_fresh set_order chat l (logged_in chat) ∅ 0 0 0)
    as [H100 Hsz]; [apply logged_in_at|done|set_solver| |].
  { rewrite size_empty. lia. }
  rewrite size_empty, Hlen in Hsz. cbn in Hsz.
  rewrite poll_from_login_app, Hlen.
  change (inboxes 100 (FetchOK code_mail) [x])
    with [inbox 101 x (FetchOK code_mail)].
  unfold poll_cycles at 1. cbn [foldl]. fold (poll_from_login set_order chat
    (FetchOK code_mail) l).
  rewrite Hlen in H100. cbn [Nat.add] in H100.
  assert (Hnew : x ∉ (∅ ∪ list_to_set l : gset string)).
  { intros Hin. apply (Hx x); set_solver. }
  pose proof (cycle_fresh set_order chat _ _ _ _ _ x H100 Hnew) as H.
  replace (list_to_set (l ++ [x]) : gset string)
    with ({[x]} ∪ (∅ ∪ list_to_set l) : gset string) by set_solver.
  split; [exact H|].
  rewrite size_union, size_singleton, Hsz by set_solver. done.
Qed.

(** Whatever the order a set is listed in, one of the hundred and one
    identifiers has left the cache and is processed again when it comes
    up once more. *)
Lemma overflow_again chat l x :
  enumerates set_order -> NoDup (l ++ [x]) -> length l = 100 ->
  exists e c,
    poller_at chat
      (poll_from_login set_order chat (FetchOK code_mail) ((l ++ [x]) ++ [e]))
      c 102 102 102 /\
    size (list_to_set ((l ++ [x]) ++ [e]) : gset string) = 101.
Proof.
  intros Hen Hnd Hlen.
  destruct (overflow_run chat l x Hnd Hlen) as [Hat Hsz].
  remember (list_to_set (l ++ [x]) : gset string) as S eqn:HS.
  pose proof (Hen S) as Hperm.
  assert (Hl : length (set_order S) = 101) by (by rewrite Hperm).
  destruct (set_order S) as [|e rest] eqn:Hord; [discriminate|].
  assert (HeS : e ∈ S).
  { apply elem_of_elements. rewrite <- Hperm. apply elem_of_cons. by left. }
  assert (Hgone : e ∉ trim set_order S).
  { rewrite trim_eq.
    replace (100 <? size S) with true by (by rewrite Hsz).
    rewrite Hord. cbn [take]. set_solver. }
  pose proof (cycle_fresh set_order chat _ _ _ _ _ e Hat Hgone) as H.
  exists e, (trim set_order ({[e]} ∪ trim set_order S)). split.
  - rewrite poll_from_login_app.
    replace (length (l ++ [x])) with 101 by (rewrite length_app; cbn; lia).
    exact H.
  - rewrite list_to_set_app_L, <- HS.
    replace (S ∪ list_to_set [e]) with S by set_solver. done.
Qed.

End EvictionFacts.

(** C2, as the specification states it, does not hold, whatever order a
    set is listed in:
    once a hundred and one identifiers have been seen, fifty are evicted,
    and an evicted one that comes up again is notified and logged a
    second time. *)
Lemma eviction_breaks_one_per_identifier :
  ~ exists set_order, enumerates set_order /\ one_per_identifier set_order.
Proof.
  intros (set_order & Hen & Hone).
  assert (Hnd : NoDup (take 100 numbers_101 ++ ["101"]))
    by apply NoDup_numbers_101.
  destruct (overflow_again set_order 1 _ _ Hen Hnd eq_refl)
    as (e & c & (u & _ & _ & _ & Hrows & _) & Hsz).
  destruct (Hone ((take 100 numbers_101 ++ ["101"]) ++ [e])) as [Hev _].
  rewrite Hrows, Hsz in Hev. lia.
Qed.


(** The same two facts on one run, with the set listed in the order of
    [elements]: of the identifiers 1 to 101 presented in ascending order,
    the two oldest are still cached after the cleaning while number 51 is
    not, and number 77, evicted, is logged a second time when it comes up
    again. *)
Example eviction_in_key_order :
  let w := poll_from_login elements 1 (FetchOK code_mail) numbers_101 in
  let w' :=
    poll_from_login elements 1 (FetchOK code_mail) (numbers_101 ++ ["77"]) in
  size (cache 1 w) = 51 /\
  ("1" ∈ cache 1 w) /\ ("2" ∈ cache 1 w) /\
  ("51" ∉ cache 1 w) /\ ("77" ∉ cache 1 w) /\
  length (db_otp_logs w) = 101 /\ length (db_otp_logs w') = 102.
Proof.
  cbv zeta. split_and!; try (vm_compute; reflexivity);
    apply (bool_decide_unpack _); vm_compute; exact I.
Qed.

(** * Further properties of the code *)

(** ** OTP extraction: where the code comes from *)

Section ScanPositions.

(** Everything the scan reports is a match at some position of the text
    it scans. *)
Lemma scan_reported ic r s :
  forall skip prev,
    Forall (fun g =>
              exists b s' rest cap,
                s = b ++ s' /\
                match_here ic r (prev_after prev b) s' = Some (rest, cap) /\
                g = reported s' rest cap)
      (scan ic r skip prev s).
Proof.
  induction s as [|c s IH]; intros skip prev.
  - destruct skip; cbn [scan]; [|constructor].
    destruct (match_here ic r prev []) as [[rest cap]|] eqn:M; constructor.
    + by exists [], [], rest, cap.
    + constructor.
  - assert (Htail : forall k,
              Forall (fun g =>
                        exists b s' rest cap,
                          c :: s = b ++ s' /\
                          match_here ic r (prev_after prev b) s'
                          = Some (rest, cap) /\
                          g = reported s' rest cap)
                (scan ic r k (Some c) s)).
    { intros k. eapply Forall_impl; [apply IH|].
      intros g (b & s' & rest & cap & -> & M & ->).
      exists (c :: b), s', rest, cap. by rewrite prev_after_cons. }
    destruct skip; cbn [scan]; [|apply Htail].
    destruct (match_here ic r prev (c :: s)) as [[rest cap]|] eqn:M.
    + constructor; [|apply Htail]. by exists [], (c :: s), rest, cap.
    + apply Htail.
Qed.

(** Every candidate of a bare pattern is a bare run of the text. *)
Lemma findall_bare_runs n t :
  0 < n ->
  Forall (fun g => exists i, bare_run_at n t i g) (findall true (bare n) t).
Proof.
  intros Hn. eapply Forall_impl; [apply scan_reported|].
  intros g (b & s' & rest & cap & -> & M & ->).
  apply match_here_bare_iff in M as (run & -> & -> & L & D & W1 & W2); [|done].
  rewrite prev_after_None in W1.
  exists (length b), b, rest. by split_and!.
Qed.

(** Every candidate of a keyword pattern is read off a keyword match at
    some position of the text. *)
Lemma findall_keyword_matches kw t :
  Forall (fun g => exists b s' rest,
            t = b ++ s' /\ keyword_match (chars kw) s' rest g)
    (findall true (keyword kw) t).
Proof.
  eapply Forall_impl; [apply scan_reported|].
  intros g (b & s' & rest & cap & -> & M & ->).
  apply match_here_keyword_iff in M as (digs & -> & M).
  by exists b, s', rest.
Qed.

Lemma keyword_patterns_keywords : keyword_patterns = map keyword keywords.
Proof. reflexivity. Qed.

Lemma findall_part_of r t :
  r ∈ patterns -> Forall (fun g => part_of g t) (findall true r t).
Proof.
  intros Hr. unfold patterns in Hr. apply elem_of_app in Hr as [Hr|Hr].
  - assert (exists n, r = bare n /\ 0 < n) as (n & -> & Hn).
    { unfold bare_patterns in Hr.
      repeat (apply elem_of_cons in Hr as [->|Hr];
                [eexists; split; [reflexivity|lia]|]).
      by apply elem_of_nil in Hr. }
    eapply Forall_impl; [by apply findall_bare_runs|].
    intros g (i & pre & post & -> & _). by exists pre, post.
  - apply list_elem_of_fmap in Hr as (kw & -> & _).
    eapply Forall_impl; [apply findall_keyword_matches|].
    intros g (b & s' & rest & -> & w & seps & -> & _).
    exists (b ++ w ++ seps), rest. by rewrite <- !app_assoc.
Qed.

Lemma first_pattern_candidate ps t code :
  first_pattern ps t = Some code ->
  exists r, r ∈ ps /\ code ∈ findall true r t /\ valid_code code = true.
Proof.
  induction ps as [|r ps IH]; [discriminate|]. cbn [first_pattern].
  destruct (first_valid r t) as [c|] eqn:E.
  - intros [= <-]. unfold first_valid in E. apply find_some in E as [Hin Hv].
    exists r. split_and!; [set_solver|by apply list_elem_of_In|done].
  - intros H. destruct (IH H) as (q & Hq & Hc). exists q. split; [set_solver|done].
Qed.

End ScanPositions.

(** X1.  The code [extract_otp] returns is a contiguous part of the text
    it was given. *)
Theorem extract_otp_part_of_text (t code : string) :
  extract_otp (Some t) = Some code -> part_of (chars code) (chars t).
Proof.
  intros H. apply extract_otp_Some in H.
  apply first_pattern_candidate in H as (r & Hr & Hin & _).
  pose proof (findall_part_of r (chars t) Hr) as HF.
  rewrite Forall_forall in HF. by apply HF.
Qed.

Lemma extract_otp_part_of_text_witness :
  part_of (chars "482913") (chars "Security code: 482913").
Proof.
  apply (extract_otp_part_of_text "Security code: 482913" "482913").
  vm_compute. reflexivity.
Defined.

Section DigitCount.

Lemma decimal_count_app a b :
  decimal_count (a ++ b) = decimal_count a + decimal_count b.
Proof. unfold decimal_count. by rewrite List.filter_app, length_app. Qed.

Lemma decimal_count_all g :
  forallb is_decimal g = true -> decimal_count g = length g.
Proof.
  unfold decimal_count. induction g as [|c g IH]; [done|].
  cbn [forallb List.filter]. intros H. apply andb_true_iff in H as [-> H].
  cbn [length]. by rewrite IH.
Qed.

End DigitCount.

Lemma first_pattern_few_digits t :
  decimal_count t < 4 -> first_pattern patterns t = None.
Proof.
  intros Hlt. destruct (first_pattern patterns t) as [code|] eqn:E; [|done].
  assert (four_to_eight_digits code) as [[L _] D].
  { by apply first_pattern_digits in E. }
  apply first_pattern_candidate in E as (r & Hr & Hin & _).
  pose proof (findall_part_of r t Hr) as HF.
  rewrite Forall_forall in HF. apply HF in Hin as (pre & post & E).
  rewrite E, !decimal_count_app, (decimal_count_all _ D) in Hlt. lia.
Qed.



(** ** OTP extraction: letter case *)

Section LetterCase.


Lemma is_decimal_lower c : is_decimal (lower c) = is_decimal c.
Proof. destruct c as [[] [] [] [] [] [] [] []]; reflexivity. Qed.

















End LetterCase.



(** ** OTP extraction: texts made of digits, and digits after a keyword *)

Section DigitTexts.

Lemma bare_patterns_lengths : bare_patterns = map bare bare_lengths.
Proof. reflexivity. Qed.

Lemma all_digits_app a b :
  forallb is_decimal (a ++ b) = true ->
  forallb is_decimal a = true /\ forallb is_decimal b = true.
Proof. rewrite forallb_app. apply andb_true_iff. Qed.

Lemma valid_code_digits g :
  4 <= length g <= 8 -> forallb is_decimal g = true -> valid_code g = true.
Proof.
  intros [L1 L2] D. unfold valid_code, isdigit.
  apply andb_true_iff; split; [apply andb_true_iff; split|
                               apply andb_true_iff; split].
  - by apply Nat.leb_le.
  - by apply Nat.leb_le.
  - destruct g; [cbn in L1; lia|done].
  - rewrite forallb_forall in D. apply forallb_forall.
    intros c Hc. by apply decimal_isdigit_char, D.
Qed.

Lemma findall_head ic r t rest cap :
  match_here ic r None t = Some (rest, cap) ->
  head (findall ic r t) = Some (reported t rest cap).
Proof.
  intros M. unfold findall. destruct t; cbn [scan]; by rewrite M.
Qed.

Lemma first_valid_head r t g :
  head (findall true r t) = Some g -> valid_code g = true ->
  first_valid r t = Some g.
Proof.
  unfold first_valid. destruct (findall true r t) as [|g' l]; [done|].
  cbn [head find]. intros [= ->] ->. done.
Qed.

Lemma first_valid_no_candidate r t :
  findall true r t = [] -> first_valid r t = None.
Proof. unfold first_valid. by intros ->. Qed.

(** In a text made of digits the only bare run is the whole text. *)
Lemma bare_run_all_digits n t i g :
  forallb is_decimal t = true -> bare_run_at n t i g -> g = t /\ i = 0.
Proof.
  intros D (pre & post & -> & <- & _ & _ & W1 & W2).
  apply all_digits_app in D as [Dpre D]. apply all_digits_app in D as [_ Dpost].
  assert (pre = []) as ->.
  { destruct pre as [|c pre]; [done|].
    rewrite <- (prev_after_None (c :: pre)) in W1.
    rewrite last_digit_word in W1; done. }
  assert (post = []) as ->.
  { destruct post as [|c post]; [done|]. rewrite head_digit_word in W2; done. }
  by rewrite app_nil_r.
Qed.

Lemma first_valid_bare_digits n t :
  4 <= n <= 8 -> forallb is_decimal t = true ->
  first_valid (bare n) t = if length t =? n then Some t else None.
Proof.
  intros Hn D. destruct (Nat.eqb_spec (length t) n) as [L|L].
  - apply first_valid_head; [|apply valid_code_digits; [lia|done]].
    apply (findall_bare_first n t 0 t); [lia| |lia].
    exists [], []. rewrite app_nil_r. split_and!; try done.
  - apply first_valid_no_candidate.
    pose proof (findall_bare_runs n t ltac:(lia)) as HF.
    destruct (findall true (bare n) t) as [|g l]; [done|].
    apply Forall_cons in HF as [[i Hrun] _].
    pose proof Hrun as (pre & post & _ & _ & Lg & _).
    apply bare_run_all_digits in Hrun as [-> _]; done.
Qed.

Lemma decimal_count_cons c t :
  decimal_count (c :: t) = 0 -> is_decimal c = false /\ decimal_count t = 0.
Proof.
  unfold decimal_count. cbn [List.filter].
  destruct (is_decimal c); [done|]. by intros ->.
Qed.

Lemma decimal_count_lower t : decimal_count (map lower t) = decimal_count t.
Proof.
  unfold decimal_count. induction t as [|c t IH]; [done|].
  cbn [map List.filter]. rewrite is_decimal_lower.
  destruct (is_decimal c); cbn [length]; by rewrite IH.
Qed.

(** A keyword, in any letter case, is not empty and has no digit. *)
Lemma keyword_letters kw w :
  kw ∈ keywords -> same_up_to_case w (chars kw) ->
  w <> [] /\ decimal_count w = 0.
Proof.
  unfold same_up_to_case. intros Hkw E.
  assert (chars kw <> [] /\ decimal_count (chars kw) = 0) as [N Z].
  { unfold keywords in Hkw.
    repeat (apply elem_of_cons in Hkw as [-> | Hkw]; [done|]).
    by apply elem_of_nil in Hkw. }
  split.
  - intros ->. destruct (chars kw); done.
  - by rewrite <- decimal_count_lower, E, decimal_count_lower.
Qed.

Lemma decimal_count_seps l :
  forallb is_sep l = true -> decimal_count l = 0.
Proof.
  unfold decimal_count. induction l as [|c l IH]; [done|].
  cbn [forallb List.filter]. intros H. apply andb_true_iff in H as [Hc H].
  by rewrite (sep_not_decimal _ Hc), IH.
Qed.

Lemma keyword_in_patterns kw : kw ∈ keywords -> keyword kw ∈ patterns.
Proof.
  intros H. unfold patterns. apply elem_of_app. right.
  rewrite keyword_patterns_keywords. apply list_elem_of_fmap. by exists kw.
Qed.

(** No keyword is read in a text made of digits. *)
Lemma first_valid_keyword_digits kw t :
  kw ∈ keywords -> forallb is_decimal t = true ->
  first_valid (keyword kw) t = None.
Proof.
  intros Hkw D. apply first_valid_no_candidate.
  pose proof (findall_keyword_matches kw t) as HF.
  destruct (findall true (keyword kw) t) as [|g l]; [done|].
  apply Forall_cons in HF as [(b & s' & rest & -> & w & seps & -> & Hw & _) _].
  apply (keyword_letters kw w Hkw) in Hw as [N Z].
  apply all_digits_app in D as [_ D]. apply all_digits_app in D as [D _].
  rewrite (decimal_count_all _ D) in Z. by destruct w.
Qed.

End DigitTexts.

(** X4.  A text made only of decimal digits is its own code when it has
    6, 4, 5 or 8 digits, and has no code otherwise: a number of seven
    digits, or of nine or more, standing alone is not found. *)
Theorem extract_otp_digits_only (t : string) :
  forallb is_decimal (chars t) = true ->
  extract_otp (Some t)
  = if bool_decide (length (chars t) ∈ bare_lengths) then Some t else None.
Proof.
  intros D. unfold extract_otp.
  destruct (chars t) as [|c l] eqn:E.
  { rewrite bool_decide_eq_false_2; [done|]. unfold bare_lengths. cbn.
    rewrite !elem_of_cons, elem_of_nil. lia. }
  rewrite <- E in *.
  assert (K : first_pattern keyword_patterns (chars t) = None).
  { apply first_pattern_None. intros r Hr.
    rewrite keyword_patterns_keywords in Hr.
    apply list_elem_of_fmap in Hr as (kw & -> & Hkw).
    by apply first_valid_keyword_digits. }
  unfold patterns, bare_patterns. cbn [app first_pattern].
  rewrite !first_valid_bare_digits by (done || lia). rewrite K.
  unfold bare_lengths.
  destruct (Nat.eqb_spec (length (chars t)) 6) as [L6|L6];
    [|destruct (Nat.eqb_spec (length (chars t)) 4) as [L4|L4];
      [|destruct (Nat.eqb_spec (length (chars t)) 5) as [L5|L5];
        [|destruct (Nat.eqb_spec (length (chars t)) 8) as [L8|L8]]]].
  1-4: rewrite bool_decide_eq_true_2;
         [cbn; by rewrite string_chars
         |rewrite !elem_of_cons, elem_of_nil; lia].
  rewrite bool_decide_eq_false_2; [done|].
  rewrite !elem_of_cons, elem_of_nil. lia.
Qed.

Lemma extract_otp_digits_only_witness :
  extract_otp (Some "4821973") = None.
Proof.
  apply (extract_otp_digits_only "4821973"). reflexivity.
Defined.

Section AfterKeyword.

Lemma all_digits_last l c :
  forallb is_decimal l = true -> last l = Some c -> is_decimal c = true.
Proof.
  intros D L. rewrite forallb_forall in D. apply D.
  apply list_elem_of_In. destruct (last_Some l c) as [[l' ->] _]; [done|].
  set_solver.
Qed.

Lemma decimal_count_last b y :
  decimal_count y = 0 -> y <> [] ->
  exists c, last (b ++ y) = Some c /\ is_decimal c = false.
Proof.
  intros Z N. destruct (exists_last N) as (y' & c & ->).
  exists c. split; [by rewrite app_assoc, last_snoc|].
  rewrite decimal_count_app in Z.
  assert (Zc : decimal_count [c] = 0) by lia.
  by apply decimal_count_cons in Zc as [? _].
Qed.

(** Where a run of digits can start in a text that ends with digits and
    has none before them. *)
Lemma digit_block_start x d :
  forallb is_decimal d = true ->
  forall p g rest,
    decimal_count x = 0 ->
    x ++ d = p ++ g ++ rest ->
    g <> [] -> forallb is_decimal g = true ->
    (exists c, last p = Some c /\ is_decimal c = false) ->
    p = x /\ d = g ++ rest.
Proof.
  intros D. induction x as [|a x IH]; intros p g rest Z E G Dg (c & L & Hc).
  - cbn [app] in E. subst d. apply all_digits_app in D as [Dp _].
    rewrite (all_digits_last _ _ Dp L) in Hc. done.
  - apply decimal_count_cons in Z as [Ha Z].
    destruct p as [|a' p]; [done|]. cbn [app] in E. injection E as <- E.
    destruct p as [|a'' p].
    + cbn [app] in E. destruct x as [|a2 x].
      * by cbn [app] in E.
      * destruct g as [|g0 g]; [done|]. cbn [app] in E. injection E as -> E.
        apply decimal_count_cons in Z as [Z0 _].
        cbn [forallb] in Dg. rewrite Z0 in Dg. done.
    + destruct (IH (a'' :: p) g rest Z E G Dg) as [-> ->]; [|done].
      exists c. by rewrite last_cons_cons in L.
Qed.

(** In a keyword followed by separators and digits, every candidate of
    every pattern is the first eight digits. *)
Lemma bare_candidates_after_keyword n x d :
  4 <= n <= 8 ->
  x <> [] -> decimal_count x = 0 -> forallb is_decimal d = true ->
  Forall (fun g => g = take 8 d) (findall true (bare n) (x ++ d)).
Proof.
  intros Hn N Z D. eapply Forall_impl; [apply findall_bare_runs; lia|].
  intros g (i & pre & post & E & _ & L & Dg & W1 & W2).
  assert (G : g <> []) by (intros ->; cbn in L; lia).
  destruct pre as [|a pre].
  { destruct x as [|x0 x]; [done|]. destruct g as [|g0 g]; [done|].
    cbn [app] in E. injection E as -> _.
    apply decimal_count_cons in Z as [Z0 _].
    cbn [forallb] in Dg. rewrite Z0 in Dg. done. }
  destruct (digit_block_start x d D (a :: pre) g post Z E G Dg) as [_ ->].
  { destruct (last (a :: pre)) as [c|] eqn:Lc.
    - exists c. split; [done|]. cbn in W1.
      destruct (is_decimal c) eqn:Dc; [|done].
      by rewrite (decimal_is_word _ Dc) in W1.
    - by apply last_None in Lc. }
  apply all_digits_app in D as [_ Dpost].
  destruct post as [|c post].
  - rewrite app_nil_r. rewrite take_ge; [done|lia].
  - cbn [forallb] in Dpost. apply andb_true_iff in Dpost as [Dc _].
    cbn in W2. by rewrite (decimal_is_word _ Dc) in W2.
Qed.

Lemma keyword_candidates_after_keyword kw x d :
  kw ∈ keywords ->
  decimal_count x = 0 -> forallb is_decimal d = true ->
  Forall (fun g => g = take 8 d) (findall true (keyword kw) (x ++ d)).
Proof.
  intros Hkw Z D. eapply Forall_impl; [apply findall_keyword_matches|].
  intros g (b & s' & rest & E & w & seps & -> & Hw & Hs & Dg & L & Hmax).
  apply (keyword_letters kw w Hkw) in Hw as [Nw Zw].
  assert (G : g <> []) by (intros ->; cbn in L; lia).
  destruct (digit_block_start x d D (b ++ w ++ seps) g rest Z) as [_ ->];
    try done.
  { rewrite E. by rewrite <- !app_assoc. }
  { apply decimal_count_last.
    - by rewrite decimal_count_app, Zw, decimal_count_seps.
    - by destruct w. }
  destruct Hmax as [L8|Hrest].
  - by rewrite take_app_length' by done.
  - apply all_digits_app in D as [_ Dr]. destruct rest as [|c rest].
    + rewrite app_nil_r. rewrite take_ge; [done|lia].
    + cbn [forallb] in Dr. apply andb_true_iff in Dr as [Dc _].
      rewrite (Hrest c) in Dc; done.
Qed.

Lemma candidates_after_keyword r x d :
  r ∈ patterns ->
  x <> [] -> decimal_count x = 0 -> forallb is_decimal d = true ->
  Forall (fun g => g = take 8 d) (findall true r (x ++ d)).
Proof.
  unfold patterns. rewrite elem_of_app, keyword_patterns_keywords.
  intros [Hr|Hr] N Z D.
  - unfold bare_patterns in Hr.
    repeat (apply elem_of_cons in Hr as [-> | Hr];
            [apply bare_candidates_after_keyword; (done || lia)|]).
    by apply elem_of_nil in Hr.
  - apply list_elem_of_fmap in Hr as (kw & -> & Hkw).
    by apply keyword_candidates_after_keyword.
Qed.

(** The keyword pattern of the keyword the text starts with finds the
    digits. *)
Lemma first_valid_after_keyword kw w seps d :
  same_up_to_case w (chars kw) ->
  forallb is_sep seps = true -> forallb is_decimal d = true ->
  4 <= length d ->
  first_valid (keyword kw) (w ++ seps ++ d) = Some (take 8 d).
Proof.
  intros Hw Hs D L.
  assert (Dt : forallb is_decimal (take 8 d) = true).
  { rewrite <- (take_drop 8 d) in D. by apply all_digits_app in D as [? _]. }
  assert (Lt : 4 <= length (take 8 d) <= 8) by (rewrite length_take; lia).
  apply first_valid_head; [|by apply valid_code_digits].
  rewrite (findall_head true (keyword kw) _ (drop 8 d) (Some (take 8 d)));
    [done|].
  apply match_here_keyword_iff. exists (take 8 d). split; [done|].
  exists w, seps. rewrite take_drop. split_and!; try done; try lia.
  destruct (decide (8 <= length d)) as [L8|L8].
  - left. rewrite length_take. lia.
  - right. rewrite drop_ge by lia. done.
Qed.

End AfterKeyword.

(** X5.  A text that is a keyword in any letter case, then separators
    (colon, whitespace, hyphen; possibly none), then decimal digits to
    the end: with four digits or more the code is the first eight of them
    (so a longer number is cut to eight digits), with fewer there is
    none. *)
Theorem extract_otp_after_keyword (t kw : string) (w seps d : list ascii) :
  kw ∈ keywords ->
  chars t = w ++ seps ++ d ->
  same_up_to_case w (chars kw) ->
  forallb is_sep seps = true ->
  forallb is_decimal d = true ->
  extract_otp (Some t)
  = if 4 <=? length d then Some (string_of_list_ascii (take 8 d)) else None.
Proof.
  intros Hkw E Hw Hs D.
  destruct (keyword_letters kw w Hkw Hw) as [Nw Zw].
  assert (Zx : decimal_count (w ++ seps) = 0).
  { by rewrite decimal_count_app, Zw, decimal_count_seps. }
  unfold extract_otp. rewrite E. clear E.
  destruct (w ++ seps ++ d) as [|c l] eqn:Et; [by destruct w|].
  rewrite <- Et. clear c l Et.
  destruct (Nat.leb_spec 4 (length d)) as [L|L].
  - destruct (first_pattern patterns (w ++ seps ++ d)) as [code|] eqn:F.
    + apply first_pattern_candidate in F as (r & Hr & Hin & _).
      rewrite app_assoc in Hin.
      pose proof (candidates_after_keyword r (w ++ seps) d Hr) as HF.
      rewrite Forall_forall in HF. cbn. f_equal. f_equal.
      apply HF; try done. by destruct w.
    + rewrite first_pattern_None in F.
      specialize (F (keyword kw) (keyword_in_patterns kw Hkw)).
      by rewrite (first_valid_after_keyword kw) in F.
  - rewrite first_pattern_few_digits; [done|].
    rewrite app_assoc, decimal_count_app, Zx, (decimal_count_all _ D). lia.
Qed.

Lemma extract_otp_after_keyword_witness :
  extract_otp (Some "OTP:123456789") = Some "12345678".
Proof.
  apply (extract_otp_after_keyword "OTP:123456789" "otp"
           (chars "OTP") (chars ":") (chars "123456789")).
  - unfold keywords. repeat constructor.
  - reflexivity.
  - reflexivity.
  - reflexivity.
  - reflexivity.
Defined.

(** ** The poller: what a turn reads and what it leaves alone *)

Lemma same_memory_tables w w' : same_memory w w' -> same_tables w w'.
Proof. intros (? & ? & ? & ? & ? & ? & ? & ? & _). by split_and!. Qed.

Lemma same_tables_refl w : same_tables w w.
Proof. by split_and!. Qed.

Lemma same_tables_trans w1 w2 w3 :
  same_tables w1 w2 -> same_tables w2 w3 -> same_tables w1 w3.
Proof.
  intros (? & ? & ? & ? & ? & ? & ? & ?) (? & ? & ? & ? & ? & ? & ? & ?).
  split_and!; congruence.
Qed.

Lemma poller_footprint_refl chat w : poller_footprint chat w w.
Proof. by split_and!. Qed.

Lemma poller_footprint_trans chat w1 w2 w3 :
  poller_footprint chat w1 w2 -> poller_footprint chat w2 w3 ->
  poller_footprint chat w1 w3.
Proof.
  intros (T1 & W1 & C1 & L1 & O1 & M1 & E1 & P1 & S1 & D1)
         (T2 & W2 & C2 & L2 & O2 & M2 & E2 & P2 & S2 & D2).
  split_and!; try congruence; try tauto.
  intros c Hc. destruct (O1 c Hc) as (? & ? & ?), (O2 c Hc) as (? & ? & ?).
  split_and!; congruence.
Qed.

Lemma poller_footprint_tables chat w w' :
  same_tables w w' -> poller_footprint chat w w'.
Proof.
  intros (Hu & Ht & Hw & Hc & Hs & Hl & Hd & _).
  split_and!; try done; try (intros c _); by rewrite ?Hu, ?Hs, ?Hd.
Qed.

(** An update of the user's own entry that keeps the address, the
    credential and the flag. *)
Lemma poller_footprint_alter chat (f : UserConfig -> UserConfig) w :
  (forall u, is_monitoring (f u) = is_monitoring u /\ email (f u) = email u /\
             password (f u) = password u) ->
  poller_footprint chat w (with_users (alter f chat) w).
Proof.
  intros Hf. unfold poller_footprint. cbn.
  split_and!; try done.
  - intros c Hc. by rewrite lookup_alter_ne.
  - rewrite lookup_alter_eq. destruct (users w !! chat) as [u|]; cbn; [|done].
    f_equal. apply Hf.
  - rewrite lookup_alter_eq. destruct (users w !! chat) as [u|]; cbn; [|done].
    f_equal. apply Hf.
  - rewrite lookup_alter_eq. destruct (users w !! chat) as [u|]; cbn; [|done].
    f_equal. apply Hf.
Qed.

Lemma poller_footprint_emit chat e w : poller_footprint chat w (emit e w).
Proof. by split_and!. Qed.

Section PollerFacts.

Variable transport : nat -> Reply.
Variable store_up : nat -> bool.
Variable set_order : gset string -> list string.

Lemma poller_footprint_send chat c text w :
  poller_footprint chat w (send_message transport c text w).2.
Proof.
  apply poller_footprint_tables, same_memory_tables, send_message_memory.
Qed.

Lemma poller_footprint_log_otp chat se sn code subj ms now w :
  poller_footprint chat w (log_otp store_up chat se sn code subj ms now w).
Proof.
  unfold log_otp. destruct (store_up (transactions w)); [|by split_and!].
  unfold poller_footprint. cbn. split_and!; try done.
  - intros c Hc. by rewrite !lookup_alter_ne.
  - rewrite lookup_alter_eq. by destruct (user_stats w !! chat).
  - rewrite lookup_alter_eq. by destruct (db_users w !! chat).
Qed.

Lemma poller_footprint_clean_old chat w :
  poller_footprint chat w (clean_old set_order chat w).
Proof. by apply poller_footprint_alter. Qed.

Lemma poller_footprint_marked chat mb now email_id w :
  poller_footprint chat w
    (state_of (process_marked transport store_up set_order chat mb now
                 email_id w)).
Proof.
  unfold process_marked.
  destruct (mb_fetch mb email_id) as [m| |]; cbn [state_of].
  - destruct (otp_of m) as [otp|]; cbn [state_of].
    + eapply poller_footprint_trans; [|apply poller_footprint_clean_old].
      eapply poller_footprint_trans; [|apply poller_footprint_emit].
      eapply poller_footprint_trans; [|apply poller_footprint_log_otp].
      eapply poller_footprint_trans; [|apply poller_footprint_send].
      apply poller_footprint_emit.
    + eapply poller_footprint_trans; [|apply poller_footprint_clean_old].
      apply poller_footprint_emit.
  - eapply poller_footprint_trans; [|apply poller_footprint_clean_old].
    apply poller_footprint_emit.
  - apply poller_footprint_emit.
Qed.

Lemma poller_footprint_candidate chat mb now email_id w :
  poller_footprint chat w
    (state_of (process_candidate transport store_up set_order chat mb now
                 email_id w)).
Proof.
  unfold process_candidate. case_decide; [apply poller_footprint_refl|].
  eapply poller_footprint_trans; [|apply poller_footprint_marked].
  by apply poller_footprint_alter.
Qed.

Lemma poller_footprint_candidates chat mb now email_ids :
  forall w,
    poller_footprint chat w
      (state_of (process_candidates transport store_up set_order chat mb now
                   email_ids w)).
Proof.
  induction email_ids as [|i l IH]; intros w; cbn [process_candidates].
  - apply poller_footprint_refl.
  - pose proof (poller_footprint_candidate chat mb now i w) as H.
    destruct (process_candidate transport store_up set_order chat mb now i w)
      as [w1|w1]; cbn [state_of] in *; [|done].
    eapply poller_footprint_trans; [exact H|apply IH].
Qed.

(** The events of the loop over the candidates: the fetches are made in
    the order of the candidates, at most one each, and no thread is
    started. *)
Lemma fetched_ids_app a b : fetched_ids (a ++ b) = fetched_ids a ++ fetched_ids b.
Proof. apply omap_app. Qed.

Lemma threads_started_app a b :
  threads_started (a ++ b) = threads_started a ++ threads_started b.
Proof. apply omap_app. Qed.

Lemma trace_send chat text w :
  exists evs,
    trace (send_message transport chat text w).2 = trace w ++ evs /\
    fetched_ids evs = [] /\ threads_started evs = [].
Proof.
  destruct (send_message_trace transport chat text w)
    as (n & evs & _ & Ht & _ & Hth & Hf).
  exists evs. split; [done|]. clear Ht. split.
  - induction evs as [|e evs IH]; [done|].
    apply Forall_cons in Hf as [He Hf]. apply Forall_cons in Hth as [_ Hth].
    destruct e; cbn; try by apply IH. by destruct (He email_id).
  - induction evs as [|e evs IH]; [done|].
    apply Forall_cons in Hf as [_ Hf]. apply Forall_cons in Hth as [He Hth].
    destruct e; cbn; try by apply IH. by destruct (He chat0).
Qed.

Lemma trace_marked chat mb now email_id w :
  exists evs,
    trace (state_of (process_marked transport store_up set_order chat mb now
                       email_id w)) = trace w ++ evs /\
    fetched_ids evs = [email_id] /\ threads_started evs = [].
Proof.
  unfold process_marked.
  destruct (mb_fetch mb email_id) as [m| |]; cbn [state_of].
  - destruct (otp_of m) as [otp|]; cbn [state_of].
    + destruct (trace_send chat
                  (OtpNotice (msg_sender_name m) (msg_subject m) otp)
                  (emit (Fetch email_id) w)) as (evs & Ht & Hf & Hth).
      destruct (trace_log_otp store_up chat (msg_sender_email m)
                  (msg_sender_name m) otp (msg_subject m) (msg_elapsed_ms m)
                  now (send_message transport chat
                         (OtpNotice (msg_sender_name m) (msg_subject m) otp)
                         (emit (Fetch email_id) w)).2) as (e & He & Hl).
      eexists (Fetch email_id :: evs ++ [e; _]).
      cbn [clean_old with_users trace emit]. rewrite Hl, Ht. cbn [emit trace].
      split; [by rewrite <- !app_assoc|].
      change (Fetch email_id :: evs ++ [e; ?x])
        with ([Fetch email_id] ++ evs ++ [e; x]).
      rewrite !fetched_ids_app, !threads_started_app, Hf, Hth.
      destruct e; try done.
    + exists [Fetch email_id]. by cbn.
  - exists [Fetch email_id]. by cbn.
  - exists [Fetch email_id]. by cbn.
Qed.

Lemma trace_candidates chat mb now email_ids :
  forall w, exists evs,
    trace (state_of (process_candidates transport store_up set_order chat mb
                       now email_ids w)) = trace w ++ evs /\
    fetched_ids evs `sublist_of` email_ids /\ threads_started evs = [].
Proof.
  induction email_ids as [|i l IH]; intros w; cbn [process_candidates].
  - exists []. by rewrite app_nil_r.
  - unfold process_candidate. case_decide as Hin.
    + destruct (IH w) as (evs & Ht & Hs & Hth). exists evs.
      split_and!; [done| |done]. by apply sublist_cons.
    + destruct (trace_marked chat mb now i (mark_processed chat i w))
        as (evs1 & Ht1 & Hf1 & Hth1).
      destruct (process_marked transport store_up set_order chat mb now i
                  (mark_processed chat i w)) as [w1|w1]; cbn [state_of] in *.
      * destruct (IH w1) as (evs & Ht & Hs & Hth). exists (evs1 ++ evs).
        rewrite Ht, Ht1, fetched_ids_app, threads_started_app, Hf1, Hth1, Hth.
        split_and!; [by rewrite <- app_assoc| |done].
        by apply sublist_skip.
      * exists evs1. rewrite Hf1. split_and!; [done| |done].
        apply sublist_skip, sublist_nil_l.
Qed.

Lemma poller_footprint_cycle chat mb now w :
  poller_footprint chat w
    (poll_cycle transport store_up set_order chat mb now w).
Proof.
  unfold poll_cycle. destruct (users w !! chat) as [u|];
    [|apply poller_footprint_refl].
  eapply poller_footprint_trans; [|apply poller_footprint_emit].
  assert (Hfail : forall w1, poller_footprint chat w w1 ->
            poller_footprint chat w
              (emit (Sleep 2000)
                 (emit (Log ERROR (MonitoringError (email u))) w1))).
  { intros w1 H. eapply poller_footprint_trans; [exact H|].
    eapply poller_footprint_trans; apply poller_footprint_emit. }
  destruct (mb_login mb (email u) (password u));
    [apply Hfail, poller_footprint_refl|].
  destruct (mb_count mb) as [current_count|]; [|apply poller_footprint_refl].
  assert (Hcount : poller_footprint chat w
            (with_users (alter (set_count current_count) chat) w))
    by by apply poller_footprint_alter.
  destruct (last_email_count u <? current_count).
  - destruct (mb_unseen mb) as [email_ids|]; [|done].
    pose proof (poller_footprint_candidates chat
                  mb now (newest_five email_ids)
                  (with_users (alter (set_count current_count) chat) w)) as H.
    destruct (process_candidates transport store_up set_order chat mb now
                (newest_five email_ids) _) as [w1|w1]; cbn [state_of] in H.
    + by eapply poller_footprint_trans.
    + apply Hfail. by eapply poller_footprint_trans.
  - destruct (last_email_count u =? 0); [done|apply poller_footprint_refl].
Qed.

End PollerFacts.

Section PollerProperties.

Variable transport : nat -> Reply.
Variable store_up : nat -> bool.
Variable set_order : gset string -> list string.

(** X6.  A turn of the poller of a chat changes nothing of any other
    chat and, of its own, only the dedup cache, the count, the
    statistics, the row and the OTP log: threads, locks and dialogue
    states stay as they are, and so do the address, the credential and
    the monitoring flag. *)
Theorem poll_cycle_footprint (chat : Z) (mb : Mailbox) (now : Z) (w : Bot) :
  poller_footprint chat w
    (poll_cycle transport store_up set_order chat mb now w).
Proof. apply poller_footprint_cycle. Qed.

(** X7.  In one turn the poller fetches at most five messages, all among
    the last five unread ones of the search, newest first, each at most
    once; it starts no thread. *)
Theorem poll_cycle_fetches_newest_five (chat : Z) (mb : Mailbox) (now : Z)
    (w : Bot) :
  exists evs,
    trace (poll_cycle transport store_up set_order chat mb now w)
    = trace w ++ evs /\
    fetched_ids evs `sublist_of` newest_five (default [] (mb_unseen mb)) /\
    length (fetched_ids evs) <= 5 /\
    threads_started evs = [].
Proof.
  assert (Hgen : exists evs,
    trace (poll_cycle transport store_up set_order chat mb now w)
    = trace w ++ evs /\
    fetched_ids evs `sublist_of` newest_five (default [] (mb_unseen mb)) /\
    threads_started evs = []).
  { unfold poll_cycle. destruct (users w !! chat) as [u|].
    2:{ exists []. rewrite app_nil_r. split_and!; [done| |done].
        apply sublist_nil_l. }
    destruct (mb_login mb (email u) (password u)).
    { eexists [_; _; _]. cbn. split_and!; [by rewrite <- !app_assoc| |done].
      apply sublist_nil_l. }
    destruct (mb_count mb) as [current_count|].
    2:{ eexists [_]. cbn. split_and!; [done| |done]. apply sublist_nil_l. }
    destruct (last_email_count u <? current_count).
    - destruct (mb_unseen mb) as [email_ids|].
      2:{ eexists [_]. cbn. split_and!; [done| |done]. apply sublist_nil_l. }
      destruct (trace_candidates transport store_up set_order chat mb now
                  (newest_five email_ids)
                  (with_users (alter (set_count current_count) chat) w))
        as (evs & Ht & Hs & Hth).
      destruct (process_candidates transport store_up set_order chat mb now
                  (newest_five email_ids) _) as [w1|w1];
        cbn [state_of] in Ht.
      + exists (evs ++ [Sleep 200]). cbn [emit trace]. rewrite Ht.
        cbn [with_users trace].
        rewrite fetched_ids_app, threads_started_app, Hth. cbn.
        rewrite app_nil_r. split_and!; [by rewrite <- app_assoc|done|done].
      + exists (evs ++ [Log ERROR (MonitoringError (email u)); Sleep 2000;
                        Sleep 200]).
        cbn [emit trace]. rewrite Ht. cbn [with_users trace].
        rewrite fetched_ids_app, threads_started_app, Hth. cbn.
        rewrite app_nil_r.
        split_and!; [by rewrite <- !app_assoc|done|done].
    - exists [Sleep 200]. split_and!; [|apply sublist_nil_l|done].
      by destruct (last_email_count u =? 0). }
  destruct Hgen as (evs & Ht & Hs & Hth). exists evs.
  split_and!; try done.
  apply sublist_length in Hs. pose proof (length_newest_five
    (default [] (mb_unseen mb))). lia.
Qed.


End PollerProperties.


Section FailedFetch.

Variable transport : nat -> Reply.
Variable store_up : nat -> bool.
Variable set_order : gset string -> list string.

(** X9.  When the fetch of the newest new message raises, the turn ends
    there: the other candidates of the turn are not fetched, nothing is
    sent or logged to the store, the message stays marked as processed
    and the count stays advanced, so the next turn sees no new mail
    unless a further message arrives. *)
Theorem failed_fetch_ends_turn (chat : Z) (mb : Mailbox) (now : Z) (w : Bot)
    (u : UserConfig) (current_count : nat) (email_ids rest : list string)
    (email_id : string) :
  users w !! chat = Some u ->
  mb_login mb (email u) (password u) = None ->
  mb_count mb = Some current_count ->
  last_email_count u < current_count ->
  mb_unseen mb = Some email_ids ->
  newest_five email_ids = email_id :: rest ->
  email_id ∉ cache chat w ->
  mb_fetch mb email_id = FetchRaises ->
  let w' := poll_cycle transport store_up set_order chat mb now w in
  trace w' =
    trace w ++ [Fetch email_id; Log ERROR (MonitoringError (email u));
                Sleep 2000; Sleep 200] /\
  cache chat w' = {[email_id]} ∪ cache chat w /\
  last_email_count <$> users w' !! chat = Some current_count /\
  db_otp_logs w' = db_otp_logs w /\ posts w' = posts w.
Proof.
  intros Hu Hl Hc Hlt Hun Hnew Hfresh Hfetch. cbv zeta.
  unfold poll_cycle. rewrite Hu, Hl, Hc, Hun, Hnew.
  destruct (Nat.ltb_spec (last_email_count u) current_count) as [_|?];
    [|lia].
  cbn [process_candidates].
  rewrite process_candidate_fresh by by rewrite cache_set_count.
  unfold process_marked. rewrite Hfetch.
  split_and!.
  - cbn. by rewrite <- !app_assoc.
  - rewrite !cache_emit, cache_mark, cache_set_count; [done|].
    apply known_set_count. by eexists.
  - cbn. rewrite !lookup_alter_eq, Hu. reflexivity.
  - reflexivity.
  - reflexivity.
Qed.

End FailedFetch.

(** A turn X9 applies to: the first new message of chat 1 after its
    login, whose fetch raises. *)
Lemma failed_fetch_ends_turn_witness :
  cache 1
    (poll_cycle delivering committing elements 1 (inbox 1 "1" FetchRaises) 0
       (logged_in 1))
  = {[ "1" ]} ∪ cache 1 (logged_in 1).
Proof.
  eapply (failed_fetch_ends_turn delivering committing elements 1
            (inbox 1 "1" FetchRaises) 0 (logged_in 1) _ 1 ["1"] [] "1").
  - vm_compute. reflexivity.
  - reflexivity.
  - reflexivity.
  - vm_compute. lia.
  - reflexivity.
  - reflexivity.
  - rewrite cache_logged_in. set_solver.
  - reflexivity.
Defined.

(** ** The dialogue and the commands *)

Section SendTables.

Variable transport : nat -> Reply.

Lemma users_send chat text w :
  users (send_message transport chat text w).2 = users w.
Proof. by destruct (send_message_memory transport chat text w) as (? & _). Qed.

Lemma threads_send chat text w :
  monitoring_threads (send_message transport chat text w).2
  = monitoring_threads w.
Proof.
  by destruct (send_message_memory transport chat text w) as (_ & ? & _).
Qed.

Lemma waiting_send chat text w :
  waiting_states (send_message transport chat text w).2 = waiting_states w.
Proof.
  by destruct (send_message_memory transport chat text w) as (_ & _ & ? & _).
Qed.

Lemma temp_send chat text w :
  temp_credentials (send_message transport chat text w).2
  = temp_credentials w.
Proof.
  by destruct (send_message_memory transport chat text w)
    as (_ & _ & _ & ? & _).
Qed.

Lemma stats_send chat text w :
  user_stats (send_message transport chat text w).2 = user_stats w.
Proof.
  by destruct (send_message_memory transport chat text w)
    as (_ & _ & _ & _ & ? & _).
Qed.

Lemma locks_send chat text w :
  gmail_locks (send_message transport chat text w).2 = gmail_locks w.
Proof.
  by destruct (send_message_memory transport chat text w)
    as (_ & _ & _ & _ & _ & ? & _).
Qed.

Lemma db_users_send chat text w :
  db_users (send_message transport chat text w).2 = db_users w.
Proof.
  by destruct (send_message_memory transport chat text w)
    as (_ & _ & _ & _ & _ & _ & ? & _).
Qed.

Lemma db_otp_logs_send chat text w :
  db_otp_logs (send_message transport chat text w).2 = db_otp_logs w.
Proof.
  by destruct (send_message_memory transport chat text w)
    as (_ & _ & _ & _ & _ & _ & _ & ? & _).
Qed.

Lemma transactions_send chat text w :
  transactions (send_message transport chat text w).2 = transactions w.
Proof.
  by destruct (send_message_memory transport chat text w)
    as (_ & _ & _ & _ & _ & _ & _ & _ & ?).
Qed.

(** What one [send_message] adds to the trace. *)
Lemma added_send chat text w :
  exists n evs,
    1 <= n <= 3 /\
    trace (send_message transport chat text w).2 = trace w ++ evs /\
    posts_of evs = replicate n (Post chat text) /\
    threads_started evs = [] /\ fetched_ids evs = [].
Proof.
  destruct (send_message_trace transport chat text w)
    as (n & evs & Hn & Ht & Hp & _).
  destruct (trace_send transport chat text w) as (evs' & Ht' & Hf & Hth).
  rewrite Ht in Ht'. apply app_inv_head in Ht' as <-.
  by exists n, evs.
Qed.

End SendTables.

Ltac tables :=
  repeat first
    [ rewrite users_send | rewrite threads_send | rewrite waiting_send
    | rewrite temp_send | rewrite stats_send | rewrite locks_send
    | rewrite db_users_send | rewrite db_otp_logs_send
    | rewrite transactions_send
    | progress
        cbn [users monitoring_threads waiting_states temp_credentials
             user_stats gmail_locks db_users db_otp_logs transactions
             trace posts
             with_users with_threads with_waiting with_temp with_stats
             with_locks with_db emit count_post count_transaction
             fst snd state_of] ].

Lemma posts_of_log lvl l : posts_of [Log lvl l] = [].
Proof. reflexivity. Qed.

Lemma in_posts_of e evs : e ∈ evs -> is_post e = true -> e ∈ posts_of evs.
Proof.
  intros Hin Hp. unfold posts_of. apply list_elem_of_In, filter_In.
  split; [by apply list_elem_of_In|done].
Qed.

Section Onboarding.

Variable transport : nat -> Reply.
Variable store_up : nat -> bool.
Variable password_hash : string -> Z -> string.

(** The password step when the test connection succeeds and the store
    commits, and when it does not commit. *)
Lemma password_step_saved chat text info mb now w staged :
  waiting_states w !! chat = Some AwaitPassword ->
  temp_credentials w !! chat = Some staged ->
  mb_login mb staged (stripped text) = None ->
  store_up (transactions w) = true ->
  exists w3,
    handle_user_input transport store_up password_hash chat text info mb now w
    = with_temp (delete chat)
        (with_waiting (delete chat)
           (send_message transport chat (Connected staged) w3).2) /\
    w3 =
      emit (Log INFO (MonitoringStarted chat))
        (with_threads (union {[chat]})
           (emit (ThreadStart chat)
              (with_users
                 (insert chat
                    {| email := staged; password := stripped text;
                       is_monitoring := true; last_processed_emails := ∅;
                       last_email_count := 0 |})
                 (emit (Log INFO (UserSaved staged chat))
                    (with_locks (union {[chat]})
                       (with_stats
                          (insert chat
                             {| total_otps := 0; last_otp_time := None;
                                session_start := now |})
                          (with_users
                             (insert chat
                                {| email := staged; password := stripped text;
                                   is_monitoring := false;
                                   last_processed_emails := ∅;
                                   last_email_count := 0 |})
                             (with_db
                                (insert chat
                                   {| row_username := username info;
                                      row_first_name := first_name info;
                                      row_email := staged;
                                      row_password_hash :=
                                        password_hash (stripped text) chat;
                                      row_last_active := now;
                                      row_total_otps := 0;
                                      row_is_active := true |}) id
                                (count_transaction
                                   (send_message transport chat
                                      TestingConnection w).2))))))))).
Proof.
  intros Hst Htmp Hlogin Hup. eexists. split; [|reflexivity].
  unfold handle_user_input. rewrite Hst, Htmp, Hlogin.
  unfold save_user. rewrite transactions_send, Hup.
  unfold start_monitoring_for_user. tables.
  rewrite lookup_insert_eq. cbn [is_monitoring]. reflexivity.
Qed.

Lemma password_step_not_saved chat text info mb now w staged :
  waiting_states w !! chat = Some AwaitPassword ->
  temp_credentials w !! chat = Some staged ->
  mb_login mb staged (stripped text) = None ->
  store_up (transactions w) = false ->
  handle_user_input transport store_up password_hash chat text info mb now w
  = with_temp (delete chat)
      (with_waiting (delete chat)
         (send_message transport chat ErrorSavingCredentials
            (emit (Log ERROR (UserSaveError chat))
               (count_transaction
                  (send_message transport chat TestingConnection w).2))).2).
Proof.
  intros Hst Htmp Hlogin Hup. unfold handle_user_input.
  rewrite Hst, Htmp, Hlogin.
  unfold save_user. rewrite transactions_send, Hup. reflexivity.
Qed.

(** X10.  The password step of the dialogue, when the test connection
    succeeds and the store commits: the chat gets a fresh user entry
    (address as staged, the stripped text as credential, monitoring on,
    empty dedup cache, count 0), fresh statistics, a lock, a thread
    (started once) and a fresh active row whose total is 0, while the OTP
    log keeps its rows; the dialogue state and the staged address are
    gone; the chat is sent the notice of the test and then the notice of
    the connection. *)
Theorem onboarding_connects (chat : Z) (text : string) (info : UserInfo)
    (mb : Mailbox) (now : Z) (w : Bot) (staged : string) :
  waiting_states w !! chat = Some AwaitPassword ->
  temp_credentials w !! chat = Some staged ->
  mb_login mb staged (stripped text) = None ->
  store_up (transactions w) = true ->
  let w' :=
    handle_user_input transport store_up password_hash chat text info mb
      now w in
  users w' =
    <[chat := {| email := staged; password := stripped text;
                 is_monitoring := true; last_processed_emails := ∅;
                 last_email_count := 0 |}]> (users w) /\
  monitoring_threads w' = {[chat]} ∪ monitoring_threads w /\
  user_stats w' =
    <[chat := {| total_otps := 0; last_otp_time := None;
                 session_start := now |}]> (user_stats w) /\
  gmail_locks w' = {[chat]} ∪ gmail_locks w /\
  db_users w' =
    <[chat := {| row_username := username info;
                 row_first_name := first_name info; row_email := staged;
                 row_password_hash := password_hash (stripped text) chat;
                 row_last_active := now; row_total_otps := 0;
                 row_is_active := true |}]> (db_users w) /\
  db_otp_logs w' = db_otp_logs w /\
  waiting_states w' = delete chat (waiting_states w) /\
  temp_credentials w' = delete chat (temp_credentials w) /\
  exists n1 n2 evs,
    1 <= n1 <= 3 /\ 1 <= n2 <= 3 /\ trace w' = trace w ++ evs /\
    posts_of evs =
      replicate n1 (Post chat TestingConnection) ++
      replicate n2 (Post chat (Connected staged)) /\
    threads_started evs = [chat].
Proof.
  intros Hst Htmp Hlogin Hup. cbv zeta.
  destruct (password_step_saved chat text info mb now w staged)
    as (w3 & -> & Ew3); try done.
  destruct (added_send transport chat TestingConnection w)
    as (n1 & evs1 & Hn1 & Ht1 & Hp1 & Hth1 & _).
  destruct (added_send transport chat (Connected staged) w3)
    as (n2 & evs2 & Hn2 & Ht2 & Hp2 & Hth2 & _).
  tables. split_and!; try (rewrite Ew3; tables; done).
  - rewrite Ew3. tables. by rewrite insert_insert_eq.
  - exists n1, n2,
      (evs1 ++ [Log INFO (UserSaved staged chat); ThreadStart chat;
                Log INFO (MonitoringStarted chat)] ++ evs2).
    split_and!; try lia.
    + rewrite Ht2, Ew3. tables. rewrite Ht1.
      by rewrite <- !app_assoc.
    + rewrite !posts_of_app, Hp1, Hp2. reflexivity.
    + rewrite !threads_started_app, Hth1, Hth2. reflexivity.
Qed.

(** X11.  The password step when the test connection succeeds but the
    store does not commit: no user is saved and no thread is started;
    users, threads, statistics, locks and store are as before, the
    dialogue state and the staged address are gone, and the chat is sent
    the notice of the test and then the notice that saving failed. *)
Theorem onboarding_store_failure (chat : Z) (text : string)
    (info : UserInfo) (mb : Mailbox) (now : Z) (w : Bot) (staged : string) :
  waiting_states w !! chat = Some AwaitPassword ->
  temp_credentials w !! chat = Some staged ->
  mb_login mb staged (stripped text) = None ->
  store_up (transactions w) = false ->
  let w' :=
    handle_user_input transport store_up password_hash chat text info mb
      now w in
  users w' = users w /\ monitoring_threads w' = monitoring_threads w /\
  user_stats w' = user_stats w /\ gmail_locks w' = gmail_locks w /\
  db_users w' = db_users w /\ db_otp_logs w' = db_otp_logs w /\
  waiting_states w' = delete chat (waiting_states w) /\
  temp_credentials w' = delete chat (temp_credentials w) /\
  exists n1 n2 evs,
    1 <= n1 <= 3 /\ 1 <= n2 <= 3 /\ trace w' = trace w ++ evs /\
    posts_of evs =
      replicate n1 (Post chat TestingConnection) ++
      replicate n2 (Post chat ErrorSavingCredentials) /\
    threads_started evs = [].
Proof.
  intros Hst Htmp Hlogin Hup. cbv zeta.
  rewrite (password_step_not_saved chat text info mb now w staged) by done.
  destruct (added_send transport chat TestingConnection w)
    as (n1 & evs1 & Hn1 & Ht1 & Hp1 & Hth1 & _).
  set (w1 := (send_message transport chat TestingConnection w).2) in *.
  set (w2 := emit (Log ERROR (UserSaveError chat)) (count_transaction w1)).
  destruct (added_send transport chat ErrorSavingCredentials w2)
    as (n2 & evs2 & Hn2 & Ht2 & Hp2 & Hth2 & _).
  tables. split_and!; try (unfold w2, w1; tables; done).
  exists n1, n2, (evs1 ++ [Log ERROR (UserSaveError chat)] ++ evs2).
  split_and!; try lia.
  - fold w1. fold w2. rewrite Ht2. unfold w2. tables. rewrite Ht1.
    by rewrite <- !app_assoc.
  - rewrite !posts_of_app, Hp1, Hp2. reflexivity.
  - rewrite !threads_started_app, Hth1, Hth2. reflexivity.
Qed.

(** The chat messages among the events of one [send_message] are copies
    of the message sent. *)
Lemma send_only transport' chat text w c t :
  t <> text ->
  exists evs,
    trace (send_message transport' chat text w).2 = trace w ++ evs /\
    Post c t ∉ evs.
Proof.
  intros Hne.
  destruct (added_send transport' chat text w) as (n & evs & _ & Ht & Hp & _).
  exists evs. split; [done|]. intros Hin.
  apply in_posts_of in Hin; [|done]. rewrite Hp in Hin.
  apply elem_of_replicate in Hin as [[= _ ->] _]. done.
Qed.

(** X12.  The dialogue never sends the notice that monitoring could not
    be started: once the user is saved, starting the monitoring
    succeeds. *)
Theorem start_error_never_sent (chat : Z) (text : string) (info : UserInfo)
    (mb : Mailbox) (now : Z) (w : Bot) (c : Z) :
  exists evs,
    trace (handle_user_input transport store_up password_hash chat text info
             mb now w) = trace w ++ evs /\
    Post c ErrorStartingMonitoring ∉ evs.
Proof.
  unfold handle_user_input.
  destruct (waiting_states w !! chat) as [[|]|] eqn:Hst.
  - destruct (negb (contains "@" text) || negb (contains "." text));
      [by apply send_only|].
    destruct (send_only transport chat (EmailReceived (stripped text))
                (with_waiting (insert chat AwaitPassword)
                   (with_temp (insert chat (stripped text)) w)) c
                ErrorStartingMonitoring) as (evs & Ht & Hn); [done|].
    by exists evs.
  - destruct (temp_credentials w !! chat) as [staged|] eqn:Htmp;
      [|by apply send_only].
    destruct (send_only transport chat TestingConnection w c
                ErrorStartingMonitoring) as (evs1 & Ht1 & Hn1); [done|].
    destruct (mb_login mb staged (stripped text)) as [err|] eqn:Hlogin.
    { destruct (send_only transport chat ConnectionFailed
                  (send_message transport chat TestingConnection w).2 c
                  ErrorStartingMonitoring) as (evs2 & Ht2 & Hn2); [done|].
      exists (evs1 ++ evs2 ++ [Log ERROR (ConnectionError staged err)]).
      tables. rewrite Ht2, Ht1. split; [by rewrite <- !app_assoc|].
      rewrite !elem_of_app, list_elem_of_singleton. naive_solver. }
    destruct (store_up (transactions w)) eqn:Hup.
    + destruct (password_step_saved chat text info mb now w staged)
        as (w3 & E & Ew3); try done.
      unfold handle_user_input in E. rewrite Hst, Htmp, Hlogin in E.
      rewrite E. clear E.
      destruct (send_only transport chat (Connected staged) w3 c
                  ErrorStartingMonitoring) as (evs2 & Ht2 & Hn2); [done|].
      exists (evs1 ++ [Log INFO (UserSaved staged chat); ThreadStart chat;
                       Log INFO (MonitoringStarted chat)] ++ evs2).
      tables. rewrite Ht2, Ew3. tables. rewrite Ht1.
      split; [by rewrite <- !app_assoc|].
      rewrite !elem_of_app, !elem_of_cons, elem_of_nil. naive_solver.
    + pose proof (password_step_not_saved chat text info mb now w staged
                    Hst Htmp Hlogin Hup) as E.
      unfold handle_user_input in E. rewrite Hst, Htmp, Hlogin in E.
      rewrite E. clear E.
      destruct (send_only transport chat ErrorSavingCredentials
                  (emit (Log ERROR (UserSaveError chat))
                     (count_transaction
                        (send_message transport chat TestingConnection w).2))
                  c ErrorStartingMonitoring) as (evs2 & Ht2 & Hn2); [done|].
      exists (evs1 ++ [Log ERROR (UserSaveError chat)] ++ evs2).
      tables. rewrite Ht2. tables. rewrite Ht1.
      split; [by rewrite <- !app_assoc|].
      rewrite !elem_of_app, list_elem_of_singleton. naive_solver.
  - exists []. split; [by rewrite app_nil_r|apply not_elem_of_nil].
Qed.

End Onboarding.

(** A step X10 applies to: the credential sent after the address, to a
    mailbox that accepts the login, with a store that commits. *)
Lemma onboarding_connects_witness :
  users
    (handle_user_input delivering committing plain_hash 1 " abcdefghijklmnop "
       {| username := ""; first_name := "" |} (inbox 0 "" FetchNotOK) 0
       address_received)
  = <[1%Z := {| email := "user@example.com"; password := "abcdefghijklmnop";
                is_monitoring := true; last_processed_emails := ∅;
                last_email_count := 0 |}]> (users address_received).
Proof.
  apply (onboarding_connects delivering committing plain_hash 1
           " abcdefghijklmnop " {| username := ""; first_name := "" |}
           (inbox 0 "" FetchNotOK) 0 address_received "user@example.com").
  - vm_compute. reflexivity.
  - vm_compute. reflexivity.
  - reflexivity.
  - reflexivity.
Defined.

(** A step X11 applies to: the same with a store that never commits. *)
Lemma onboarding_store_failure_witness :
  users
    (handle_user_input delivering (fun _ => false) plain_hash 1
       "abcdefghijklmnop" {| username := ""; first_name := "" |}
       (inbox 0 "" FetchNotOK) 0 address_received)
  = users address_received.
Proof.
  apply (onboarding_store_failure delivering (fun _ => false) plain_hash 1
           "abcdefghijklmnop" {| username := ""; first_name := "" |}
           (inbox 0 "" FetchNotOK) 0 address_received "user@example.com").
  - vm_compute. reflexivity.
  - vm_compute. reflexivity.
  - reflexivity.
  - reflexivity.
Defined.

(** ** Logging out *)

(** Lookups in the tables after the updates the handlers make. *)
Ltac lookups :=
  repeat first
    [ rewrite lookup_insert_eq | rewrite lookup_delete_eq
    | rewrite lookup_alter_eq
    | rewrite lookup_insert_ne by done | rewrite lookup_delete_ne by done
    | rewrite lookup_alter_ne by done ].

Section Logout.

Variable transport : nat -> Reply.
Variable store_up : nat -> bool.
Variable wording : Text -> Notice.
Variable line : Line -> LogLine.

Lemma get_user_stats_tables chat w :
  same_tables w (get_user_stats store_up line chat w).2.
Proof.
  unfold get_user_stats. destruct (store_up (transactions w)); tables;
    [destruct (db_users w !! chat)|]; by split_and!.
Qed.

(** X13.  Logging out a monitored chat while the store commits: nothing
    is left of the chat in memory (user, statistics, lock, thread,
    dialogue state, staged address), its row stays in the store, marked
    inactive, the OTP log keeps its rows, the other chats are untouched,
    and the chat is sent the notice of the logout, which names the
    address. *)
Theorem logout_forgets (chat : Z) (w : Bot) (u : UserConfig) :
  users w !! chat = Some u ->
  is_monitoring u = true ->
  store_up (transactions w) = true ->
  let w' := handle_logout_command transport store_up wording line chat w in
  forgotten chat w' /\
  others_untouched chat w w' /\
  db_users w' !! chat = deactivate <$> db_users w !! chat /\
  db_otp_logs w' = db_otp_logs w /\
  exists n evs,
    1 <= n <= 3 /\ trace w' = trace w ++ evs /\
    posts_of evs = replicate n (Post chat (wording (LoggedOut (email u)))).
Proof.
  intros Hu Hm Hup. cbv zeta. unfold handle_logout_command.
  rewrite Hu, Hm. unfold stop_monitoring_for_user, delete_user. tables.
  rewrite Hup.
  match goal with |- context [send_message transport chat _ ?s] =>
    set (w1 := s) end.
  destruct (added_send transport chat (wording (LoggedOut (email u))) w1)
    as (n & evs & Hn & Ht & Hp & _).
  unfold forgotten, others_untouched.
  split_and!; [tables; unfold w1; tables .. | idtac].
  - by lookups.
  - by lookups.
  - set_solver.
  - set_solver.
  - by lookups.
  - by lookups.
  - intros c Hc. lookups. split_and!; try done; set_solver.
  - by lookups.
  - done.
  - exists n, ([Log INFO (line (MonitoringStopped chat));
                Log INFO (line (UserDeleted chat))] ++ evs).
    split_and!; try lia.
    + rewrite Ht. unfold w1. tables. by rewrite <- !app_assoc.
    + by rewrite posts_of_app, Hp.
Qed.

(** X14.  Logging out a monitored chat while the store does not commit:
    the chat is sent the same notice of the logout, the monitoring is
    off and the thread is off the record, but the user entry, with
    address and credential, the statistics and the lock stay in memory
    and the row stays active in the store; another logout finds the chat
    not connected and changes nothing. *)
Theorem logout_store_failure (chat : Z) (w : Bot) (u : UserConfig) :
  users w !! chat = Some u ->
  is_monitoring u = true ->
  store_up (transactions w) = false ->
  let w' := handle_logout_command transport store_up wording line chat w in
  users w' = <[chat := set_monitoring false u]> (users w) /\
  monitoring_threads w' = monitoring_threads w ∖ {[chat]} /\
  user_stats w' = user_stats w /\ gmail_locks w' = gmail_locks w /\
  db_users w' = db_users w /\ db_otp_logs w' = db_otp_logs w /\
  waiting_states w' = delete chat (waiting_states w) /\
  temp_credentials w' = delete chat (temp_credentials w) /\
  (exists n evs,
     1 <= n <= 3 /\ trace w' = trace w ++ evs /\
     posts_of evs = replicate n (Post chat (wording (LoggedOut (email u))))) /\
  same_tables w'
    (handle_logout_command transport store_up wording line chat w').
Proof.
  intros Hu Hm Hup. cbv zeta.
  assert (E : handle_logout_command transport store_up wording line chat w
    = (send_message transport chat (wording (LoggedOut (email u)))
         (with_temp (delete chat)
            (with_waiting (delete chat)
               (emit (Log ERROR (line (UserDeleteError chat)))
                  (count_transaction
                     (with_threads (fun s => s ∖ {[chat]})
                        (with_users
                           (alter (fun u => if is_monitoring u
                                            then set_monitoring false u else u)
                              chat)
                           (emit (Log INFO (line (MonitoringStopped chat)))
                              (with_threads (fun s => s ∖ {[chat]})
                                 (with_users
                                    (alter (set_monitoring false) chat)
                                    w)))))))))).2).
  { unfold handle_logout_command. rewrite Hu, Hm.
    unfold stop_monitoring_for_user, delete_user. tables. by rewrite Hup. }
  assert (Eu : alter
                 (fun u => if is_monitoring u then set_monitoring false u
                           else u) chat
                 (alter (set_monitoring false) chat (users w))
               = <[chat := set_monitoring false u]> (users w)).
  { apply map_eq. intros c. destruct (decide (c = chat)) as [->|Hc]; lookups.
    - by rewrite Hu.
    - done. }
  rewrite E.
  match goal with |- context [send_message transport chat _ ?s] =>
    set (w1 := s) end.
  destruct (added_send transport chat (wording (LoggedOut (email u))) w1)
    as (n & evs & Hn & Ht & Hp & _).
  split_and!.
  - tables. unfold w1. tables. exact Eu.
  - tables. unfold w1. tables. set_solver.
  - tables. unfold w1. by tables.
  - tables. unfold w1. by tables.
  - tables. unfold w1. by tables.
  - tables. unfold w1. by tables.
  - tables. unfold w1. by tables.
  - tables. unfold w1. by tables.
  - exists n, ([Log INFO (line (MonitoringStopped chat));
                Log ERROR (line (UserDeleteError chat))] ++ evs).
    split_and!; try lia.
    + rewrite Ht. unfold w1. tables. by rewrite <- !app_assoc.
    + by rewrite posts_of_app, Hp.
  - unfold handle_logout_command at 1.
    assert (Hu' : users (send_message transport chat
                           (wording (LoggedOut (email u))) w1).2 !! chat
                  = Some (set_monitoring false u)).
    { tables. unfold w1. tables. rewrite Eu. by lookups. }
    rewrite Hu'. cbn [is_monitoring set_monitoring].
    apply same_memory_tables, send_message_memory.
Qed.

End Logout.

(** A logout X13 applies to: chat 1 right after it has logged in. *)
Lemma logout_forgets_witness :
  forgotten 1
    (handle_logout_command delivering committing any_text any_line 1
       (logged_in 1)).
Proof.
  eapply (logout_forgets delivering committing any_text any_line 1
            (logged_in 1)).
  - vm_compute. reflexivity.
  - reflexivity.
  - reflexivity.
Defined.

(** A logout X14 applies to: the same with a store that has stopped
    committing. *)
Lemma logout_store_failure_witness :
  user_stats
    (handle_logout_command delivering failing any_text any_line 1
       (logged_in 1))
  = user_stats (logged_in 1).
Proof.
  eapply (logout_store_failure delivering failing any_text any_line 1
            (logged_in 1)).
  - vm_compute. reflexivity.
  - reflexivity.
  - reflexivity.
Defined.

(** ** Starting up *)

Section StartUp.

Variable store_up : nat -> bool.
Variable line : Line -> LogLine.

Lemma load_rows_tables now l :
  forall w,
    users (foldl (load_row line now) w l) = users w /\
    monitoring_threads (foldl (load_row line now) w l) = monitoring_threads w /\
    waiting_states (foldl (load_row line now) w l) = waiting_states w /\
    temp_credentials (foldl (load_row line now) w l) = temp_credentials w /\
    db_users (foldl (load_row line now) w l) = db_users w /\
    db_otp_logs (foldl (load_row line now) w l) = db_otp_logs w.
Proof.
  induction l as [|p l IH]; intros w; cbn [foldl]; [done|].
  destruct (IH (load_row line now w p)) as (-> & -> & -> & -> & -> & ->).
  done.
Qed.

Lemma load_rows_locks now l :
  forall w,
    gmail_locks (foldl (load_row line now) w l)
    = list_to_set l.*1 ∪ gmail_locks w.
Proof.
  induction l as [|p l IH]; intros w; cbn [foldl]; [set_solver|].
  rewrite IH. cbn. set_solver.
Qed.

Lemma load_rows_stats_other now l c :
  c ∉ l.*1 ->
  forall w, user_stats (foldl (load_row line now) w l) !! c
            = user_stats w !! c.
Proof.
  induction l as [|p l IH]; intros Hc w; cbn [foldl]; [done|].
  rewrite fmap_cons, not_elem_of_cons in Hc. destruct Hc as [Hp Hc].
  rewrite IH by done. cbn. by rewrite lookup_insert_ne.
Qed.

Lemma load_rows_stats now l c r :
  NoDup l.*1 -> (c, r) ∈ l ->
  forall w, user_stats (foldl (load_row line now) w l) !! c
            = Some (loaded_stats now r).
Proof.
  induction l as [|p l IH]; intros Hnd Hin w; [by apply elem_of_nil in Hin|].
  rewrite fmap_cons in Hnd. apply NoDup_cons in Hnd as [Hp Hnd].
  cbn [foldl]. apply elem_of_cons in Hin as [<-|Hin].
  - rewrite load_rows_stats_other by done. cbn. by rewrite lookup_insert_eq.
  - by apply IH.
Qed.

Lemma filter_fst_NoDup (f : Z * UserRow -> bool) l :
  NoDup l.*1 -> NoDup (List.filter f l).*1.
Proof.
  induction l as [|p l IH]; [done|]. rewrite fmap_cons. intros Hnd.
  apply NoDup_cons in Hnd as [Hp Hnd]. cbn [List.filter].
  destruct (f p); [|by apply IH].
  rewrite fmap_cons. apply NoDup_cons. split; [|by apply IH].
  intros Hin. apply Hp. apply list_elem_of_fmap in Hin as (q & -> & Hq).
  apply list_elem_of_fmap. exists q. split; [done|].
  apply list_elem_of_In in Hq. apply filter_In in Hq as [Hq _].
  by apply list_elem_of_In.
Qed.

Lemma active_rows_spec (rows : gmap Z UserRow) c r :
  (c, r) ∈ List.filter (fun p : Z * UserRow => row_is_active p.2)
             (map_to_list rows)
  <-> rows !! c = Some r /\ row_is_active r = true.
Proof.
  rewrite list_elem_of_In, filter_In, <- list_elem_of_In,
    elem_of_map_to_list. done.
Qed.

(** What [load_all_users] makes of a state without statistics and
    locks. *)
Lemma load_all_users_spec now w1 :
  user_stats w1 = ∅ -> gmail_locks w1 = ∅ ->
  let w := load_all_users store_up line now w1 in
  users w = users w1 /\ monitoring_threads w = monitoring_threads w1 /\
  waiting_states w = waiting_states w1 /\
  temp_credentials w = temp_credentials w1 /\
  db_users w = db_users w1 /\ db_otp_logs w = db_otp_logs w1 /\
  (forall c, c ∈ gmail_locks w <-> is_Some (user_stats w !! c)) /\
  (forall c, user_stats w !! c =
     if store_up (transactions w1) then
       match db_users w1 !! c with
       | Some r => if row_is_active r then Some (loaded_stats now r) else None
       | None => None
       end
     else None).
Proof.
  intros Hs0 Hl0. cbv zeta. unfold load_all_users.
  destruct (store_up (transactions w1)).
  2:{ cbn. rewrite Hs0, Hl0. split_and!; try done.
      intros c. rewrite lookup_empty. split; [set_solver|by intros []]. }
  cbn [db_users count_transaction].
  set (l := List.filter (fun p : Z * UserRow => row_is_active p.2)
              (map_to_list (db_users w1))).
  set (w0 := emit _ _).
  assert (Hnd : NoDup l.*1)
    by apply filter_fst_NoDup, NoDup_fst_map_to_list.
  destruct (load_rows_tables now l w0) as (-> & -> & -> & -> & -> & ->).
  assert (Hstats : forall c,
            user_stats (foldl (load_row line now) w0 l) !! c
            = match db_users w1 !! c with
              | Some r => if row_is_active r then Some (loaded_stats now r)
                          else None
              | None => None
              end).
  { intros c. destruct (db_users w1 !! c) as [r|] eqn:Hr;
      [destruct (row_is_active r) eqn:Ha|].
    - apply load_rows_stats; [done|]. by apply active_rows_spec.
    - rewrite load_rows_stats_other.
      + cbn. by rewrite Hs0.
      + intros Hin. apply list_elem_of_fmap in Hin as ([c' r'] & -> & Hin).
        apply active_rows_spec in Hin as [Hr' Ha']. cbn in Hr.
        rewrite Hr in Hr'. injection Hr' as <-. congruence.
    - rewrite load_rows_stats_other.
      + cbn. by rewrite Hs0.
      + intros Hin. apply list_elem_of_fmap in Hin as ([c' r'] & -> & Hin).
        apply active_rows_spec in Hin as [Hr' _]. cbn in Hr. congruence. }
  split_and!; try done.
  intros c. rewrite load_rows_locks, Hstats. cbn [gmail_locks w0 emit count_transaction].
  rewrite Hl0, elem_of_union, elem_of_list_to_set, list_elem_of_fmap.
  split.
  - intros [([c' r] & -> & Hin)|Hin]; [|set_solver].
    apply active_rows_spec in Hin as [Hr Ha]. cbn. by rewrite Hr, Ha.
  - intros Hs. left. destruct (db_users w1 !! c) as [r|] eqn:Hr;
      [|by destruct Hs].
    destruct (row_is_active r) eqn:Ha; [|by destruct Hs].
    exists (c, r). split; [done|]. by apply active_rows_spec.
Qed.

(** X15.  After the start of the process no chat has a user entry, a
    thread or a dialogue state, whatever the store holds: nobody is
    monitored until they log in again.  The store is as it was;
    statistics and locks exist for active rows only, with the stored
    total, and for every active row when the store could be read. *)
Theorem start_up_monitors_nobody (rows : gmap Z UserRow) (logs : list OtpRow)
    (now : Z) (w : Bot) :
  start_up store_up line rows logs now = Some w ->
  users w = ∅ /\ monitoring_threads w = ∅ /\
  waiting_states w = ∅ /\ temp_credentials w = ∅ /\
  db_users w = rows /\ db_otp_logs w = logs /\
  (forall c, c ∈ gmail_locks w <-> is_Some (user_stats w !! c)) /\
  (forall c s, user_stats w !! c = Some s ->
     exists r, rows !! c = Some r /\ row_is_active r = true /\
               s = loaded_stats now r) /\
  (store_up 1 = true ->
   forall c r, rows !! c = Some r -> row_is_active r = true ->
               user_stats w !! c = Some (loaded_stats now r)).
Proof.
  unfold start_up. cbn [transactions with_db initial].
  destruct (store_up 0); [|done]. intros [= <-].
  set (w1 := emit _ _).
  destruct (load_all_users_spec now w1)
    as (-> & -> & -> & -> & -> & -> & Hl & Hs); [done|done|].
  cbn [db_users transactions w1 emit count_transaction with_db initial] in Hs.
  split_and!; try done.
  - intros c s. rewrite Hs. destruct (store_up 1); [|done].
    destruct (rows !! c) as [r|]; [|done].
    destruct (row_is_active r) eqn:Ha; [|done].
    intros [= <-]. by exists r.
  - intros Hup c r Hr Ha. by rewrite Hs, Hup, Hr, Ha.
Qed.

End StartUp.

(** A start X15 applies to: the store as the login of chat 1 left it. *)
Lemma start_up_monitors_nobody_witness :
  users
    (load_all_users committing any_line 7
       (emit (Log INFO (any_line DatabaseInitialized))
          (count_transaction
             (with_db (fun _ => db_users (logged_in 1)) (fun _ => [])
                initial))))
  = ∅.
Proof.
  eapply (start_up_monitors_nobody committing any_line
            (db_users (logged_in 1)) [] 7).
  reflexivity.
Defined.

(** ** What holds in every state the bot reaches *)

Lemma others_untouched_refl chat w : others_untouched chat w w.
Proof. intros c _. by split_and!. Qed.

Lemma others_untouched_trans chat w1 w2 w3 :
  others_untouched chat w1 w2 -> others_untouched chat w2 w3 ->
  others_untouched chat w1 w3.
Proof.
  intros H1 H2 c Hc.
  destruct (H1 c Hc) as (? & ? & ? & ? & ? & ? & ?).
  destruct (H2 c Hc) as (? & ? & ? & ? & ? & ? & ?).
  split_and!; try congruence; tauto.
Qed.

Lemma others_untouched_tables chat w w' :
  same_tables w w' -> others_untouched chat w w'.
Proof.
  intros (Hu & Ht & Hw & Hc & Hs & Hl & Hd & _) c _.
  by rewrite Hu, Ht, Hw, Hc, Hs, Hl, Hd.
Qed.

Lemma consistent_tables w w' : same_tables w w' -> consistent w -> consistent w'.
Proof.
  intros (Hu & Ht & Hw & Hc & Hs & Hl & Hd & _). unfold consistent, monitored.
  by rewrite Hu, Ht, Hw, Hc, Hs, Hl, Hd.
Qed.

Lemma monitored_eq c w w' :
  is_monitoring <$> users w' !! c = is_monitoring <$> users w !! c ->
  monitored c w' = monitored c w.
Proof.
  unfold monitored.
  destruct (users w' !! c), (users w !! c); cbn; congruence.
Qed.

(** A change that is local to [chat] keeps the tables consistent when it
    does so at [chat]. *)
Lemma consistent_local chat w w' :
  others_untouched chat w w' ->
  (is_Some (users w' !! chat) ->
   is_Some (user_stats w' !! chat) /\ chat ∈ gmail_locks w' /\
   is_Some (db_users w' !! chat)) ->
  (chat ∈ monitoring_threads w' <-> monitored chat w' = true) ->
  (waiting_states w' !! chat = Some AwaitPassword ->
   is_Some (temp_credentials w' !! chat)) ->
  consistent w -> consistent w'.
Proof.
  intros O L1 L2 L3 (I1 & I2 & I3).
  split_and!; intros c; (destruct (decide (c = chat)) as [->|Hc]; [done|]);
    destruct (O c Hc) as (Eu & Es & El & Et & Ew & Etc & Ed).
  - rewrite Eu, Es, El, Ed. apply I1.
  - rewrite Et, (monitored_eq c w w') by by rewrite Eu. apply I2.
  - rewrite Ew, Etc. apply I3.
Qed.

Lemma consistent_footprint chat w w' :
  poller_footprint chat w w' -> consistent w -> consistent w'.
Proof.
  intros (Ht & Hw & Hc & Hl & Ho & Hm & He & Hp & Hs & Hd) Hcons.
  pose proof Hcons as (I1 & I2 & I3).
  assert (Hk : is_Some (users w' !! chat) <-> is_Some (users w !! chat)).
  { rewrite <- !(fmap_is_Some is_monitoring), Hm. done. }
  apply (consistent_local chat w w'); try done.
  - intros c Hne. destruct (Ho c Hne) as (? & ? & ?).
    rewrite Ht, Hw, Hc, Hl. by split_and!.
  - rewrite Hk, Hs, Hl, Hd. apply I1.
  - rewrite Ht, (monitored_eq chat w w') by done. apply I2.
  - rewrite Hw, Hc. apply I3.
Qed.

Ltac untouched :=
  let c := fresh "c" in
  let Hc := fresh "Hc" in
  intros c Hc; tables; lookups; split_and!; try done; set_solver.

Section Handlers.

Variable transport : nat -> Reply.
Variable store_up : nat -> bool.
Variable set_order : gset string -> list string.
Variable password_hash : string -> Z -> string.
Variable wording : Text -> Notice.
Variable line : Line -> LogLine.

Lemma send_tables chat text w :
  same_tables w (send_message transport chat text w).2.
Proof. apply same_memory_tables, send_message_memory. Qed.

(** The dialogue step touches the chat it handles only, and keeps the
    tables consistent. *)
Lemma handle_user_input_local chat text info mb now w :
  let w' :=
    handle_user_input transport store_up password_hash chat text info mb
      now w in
  others_untouched chat w w' /\ (consistent w -> consistent w').
Proof.
  cbv zeta. unfold handle_user_input.
  destruct (waiting_states w !! chat) as [[|]|] eqn:Hst.
  - destruct (negb (contains "@" text) || negb (contains "." text)).
    + split; [apply others_untouched_tables|apply consistent_tables];
        apply send_tables.
    + split; [untouched|].
      intros Hcons. pose proof Hcons as (I1 & I2 & I3).
      apply (consistent_local chat w); [untouched|tables; lookups..|done].
      * apply I1.
      * unfold monitored. tables. apply I2.
      * intros _. by eexists.
  - destruct (temp_credentials w !! chat) as [staged|] eqn:Htmp.
    2:{ split; [apply others_untouched_tables|apply consistent_tables];
          apply send_tables. }
    destruct (mb_login mb staged (stripped text)) as [err|] eqn:Hlogin.
    { split; [untouched|].
      intros Hcons. pose proof Hcons as (I1 & I2 & I3).
      apply (consistent_local chat w); [untouched|tables; lookups..|done].
      - apply I1.
      - unfold monitored. tables. apply I2.
      - done. }
    destruct (store_up (transactions w)) eqn:Hup.
    + destruct (password_step_saved transport store_up password_hash chat
                  text info mb now w staged) as (w3 & E & Ew3); try done.
      unfold handle_user_input in E. rewrite Hst, Htmp, Hlogin in E.
      rewrite E. clear E. subst w3. split; [untouched|].
      intros Hcons.
      apply (consistent_local chat w); [untouched|tables; lookups..|done].
      * intros _. split_and!; [by eexists|set_solver|by eexists].
      * unfold monitored. tables. lookups. cbn. set_solver.
      * done.
    + pose proof (password_step_not_saved transport store_up password_hash
                    chat text info mb now w staged Hst Htmp Hlogin Hup) as E.
      unfold handle_user_input in E. rewrite Hst, Htmp, Hlogin in E.
      rewrite E. clear E. split; [untouched|].
      intros Hcons. pose proof Hcons as (I1 & I2 & I3).
      apply (consistent_local chat w); [untouched|tables; lookups..|done].
      * apply I1.
      * unfold monitored. tables. apply I2.
      * done.
  - split; [apply others_untouched_refl|done].
Qed.

Lemma handle_login_command_local chat w :
  let w' := handle_login_command transport store_up wording line chat w in
  others_untouched chat w w' /\ (consistent w -> consistent w').
Proof.
  cbv zeta. unfold handle_login_command.
  assert (Hask :
    let w' := (send_message transport chat (wording GmailSetup)
                 (with_waiting (insert chat AwaitEmail) w)).2 in
    others_untouched chat w w' /\ (consistent w -> consistent w')).
  { cbv zeta. split; [untouched|].
    intros Hcons. pose proof Hcons as (I1 & I2 & I3).
    apply (consistent_local chat w); [untouched|tables; lookups..|done].
    - apply I1.
    - unfold monitored. tables. apply I2.
    - done. }
  destruct (users w !! chat) as [u|]; [|exact Hask].
  destruct (is_monitoring u); [|exact Hask].
  pose proof (get_user_stats_tables store_up line chat w) as Hg.
  destruct (get_user_stats store_up line chat w) as [[s|] w1]; cbn [snd] in Hg.
  - assert (same_tables w
              (send_message transport chat
                 (wording (AlreadyConnected (email u) (st_total_otps s)))
                 w1).2)
      by (eapply same_tables_trans; [exact Hg|apply send_tables]).
    split; [by apply others_untouched_tables|by apply consistent_tables].
  - assert (Hask1 :
      let w' := (send_message transport chat (wording GmailSetup)
                   (with_waiting (insert chat AwaitEmail) w1)).2 in
      others_untouched chat w1 w' /\ (consistent w1 -> consistent w')).
    { cbv zeta. split; [untouched|].
      intros Hcons. pose proof Hcons as (I1 & I2 & I3).
      apply (consistent_local chat w1); [untouched|tables; lookups..|done].
      - apply I1.
      - unfold monitored. tables. apply I2.
      - done. }
    destruct Hask1 as [O1 C1]. split.
    + eapply others_untouched_trans; [|exact O1].
      by apply others_untouched_tables.
    + intros Hcons. apply C1. by eapply consistent_tables.
Qed.

Lemma handle_logout_command_local chat w :
  let w' := handle_logout_command transport store_up wording line chat w in
  others_untouched chat w w' /\ (consistent w -> consistent w').
Proof.
  cbv zeta. unfold handle_logout_command.
  destruct (users w !! chat) as [u|] eqn:Hu.
  2:{ split; [apply others_untouched_tables|apply consistent_tables];
        apply send_tables. }
  destruct (is_monitoring u) eqn:Hm.
  2:{ split; [apply others_untouched_tables|apply consistent_tables];
        apply send_tables. }
  unfold stop_monitoring_for_user, delete_user. tables.
  destruct (store_up (transactions w)) eqn:Hup.
  - split; [untouched|]. intros Hcons.
    apply (consistent_local chat w); [untouched|tables; lookups..|done].
    + by intros [].
    + unfold monitored. tables. lookups. set_solver.
    + done.
  - split; [untouched|]. intros Hcons. pose proof Hcons as (I1 & I2 & I3).
    destruct (I1 chat) as (Hs & Hl & Hd); [by eexists|].
    apply (consistent_local chat w); [untouched|tables; lookups..|done].
    + intros _. by split_and!.
    + unfold monitored. tables. lookups. rewrite Hu. cbn. set_solver.
    + done.
Qed.

Lemma handle_status_command_tables chat w :
  same_tables w
    (state_of (handle_status_command transport store_up wording line chat w)).
Proof.
  unfold handle_status_command.
  destruct (users w !! chat) as [u|]; [|apply send_tables].
  destruct (is_monitoring u); [|apply send_tables].
  pose proof (get_user_stats_tables store_up line chat w) as Hg.
  destruct (get_user_stats store_up line chat w) as [[s|] w1]; cbn [snd] in Hg.
  - destruct (user_stats w1 !! chat); cbn [state_of]; [|done].
    eapply same_tables_trans; [exact Hg|apply send_tables].
  - cbn [state_of]. eapply same_tables_trans; [exact Hg|apply send_tables].
Qed.

Lemma handle_stats_command_tables chat w :
  same_tables w (handle_stats_command transport store_up wording line chat w).
Proof.
  unfold handle_stats_command.
  pose proof (get_user_stats_tables store_up line chat w) as Hg.
  destruct (get_user_stats store_up line chat w) as [[s|] w1]; cbn [snd] in Hg;
    (eapply same_tables_trans; [exact Hg|apply send_tables]).
Qed.

Lemma handle_message_local m mb now w :
  let w' :=
    state_of (handle_message transport store_up password_hash wording line
                m mb now w) in
  others_untouched (cm_chat m) w w' /\ (consistent w -> consistent w').
Proof.
  cbv zeta. unfold handle_message.
  assert (Htab : forall w', same_tables w w' ->
            others_untouched (cm_chat m) w w' /\
            (consistent w -> consistent w')).
  { intros w' H.
    split; [by apply others_untouched_tables|by apply consistent_tables]. }
  repeat case_match; cbn [state_of].
  - apply Htab, send_tables.
  - apply handle_login_command_local.
  - apply handle_logout_command_local.
  - apply Htab, handle_status_command_tables.
  - apply Htab, handle_stats_command_tables.
  - apply Htab, send_tables.
  - apply Htab, send_tables.
  - apply handle_user_input_local.
Qed.

Lemma deliver_local m mb now w :
  let w' :=
    deliver transport store_up password_hash wording line m mb now w in
  others_untouched (cm_chat m) w w' /\ (consistent w -> consistent w').
Proof.
  cbv zeta. unfold deliver.
  pose proof (handle_message_local m mb now w) as H. cbv zeta in H.
  destruct (handle_message transport store_up password_hash wording line m mb
              now w) as [w1|w1]; cbn [state_of] in H; [done|].
  destruct H as [O C]. split.
  - intros c Hc. destruct (O c Hc) as (? & ? & ? & ? & ? & ? & ?).
    tables. by split_and!.
  - intros Hcons. specialize (C Hcons).
    revert C. apply consistent_tables. by split_and!.
Qed.

Lemma consistent_step s w :
  consistent w ->
  consistent (step transport store_up set_order password_hash wording line
                w s).
Proof.
  intros Hcons. destruct s as [m mb now|chat mb now]; cbn [step].
  - by apply deliver_local.
  - destruct (monitored chat w); [|done].
    eapply consistent_footprint; [|exact Hcons].
    apply poller_footprint_cycle.
Qed.

End Handlers.

Section Reachable.

Variable transport : nat -> Reply.
Variable store_up : nat -> bool.
Variable set_order : gset string -> list string.
Variable password_hash : string -> Z -> string.
Variable wording : Text -> Notice.
Variable line : Line -> LogLine.

Lemma consistent_steps l :
  forall w,
    consistent w ->
    consistent (steps transport store_up set_order password_hash wording line
                  l w).
Proof.
  unfold steps. induction l as [|s l IH]; intros w Hcons; cbn [foldl]; [done|].
  by apply IH, consistent_step.
Qed.

Lemma consistent_start_up rows logs now w :
  start_up store_up line rows logs now = Some w -> consistent w.
Proof.
  unfold start_up. cbn [transactions with_db initial].
  destruct (store_up 0); [|done]. intros [= <-].
  set (w1 := emit _ _).
  destruct (load_all_users_spec store_up line now w1)
    as (Hu & Ht & Hw & _ & _ & _ & _ & _); [done|done|].
  unfold consistent, monitored. rewrite Hu, Ht, Hw. cbn.
  split_and!; intros c; rewrite ?lookup_empty; try done;
    try (by intros []); set_solver.
Qed.

(** In consistent tables no handler raises. *)
Lemma handle_message_normal m mb now w :
  consistent w ->
  exists w',
    handle_message transport store_up password_hash wording line m mb now w
    = Normal w'.
Proof.
  intros (I1 & _ & _). unfold handle_message.
  repeat case_match; try by eexists.
  unfold handle_status_command.
  destruct (users w !! cm_chat m) as [u|] eqn:Hu; [|by eexists].
  destruct (is_monitoring u); [|by eexists].
  pose proof (get_user_stats_tables store_up line (cm_chat m) w)
    as (_ & _ & _ & _ & Hs & _).
  destruct (get_user_stats store_up line (cm_chat m) w) as [[s|] w1];
    cbn [snd] in Hs; [|by eexists].
  destruct (I1 (cm_chat m)) as ([x Hx] & _); [by eexists|].
  rewrite Hs, Hx. by eexists.
Qed.

(** X16.  In every state the bot reaches from its start by handling chat
    messages and by turns of the pollers of monitored chats, the tables
    agree: every user in memory has statistics, a lock and a row in the
    store; the threads on record are exactly those of the users whose
    monitoring is on; and a chat that is asked for its credential has an
    address staged (so the notice to start over is never due). *)
Theorem reachable_consistent (rows : gmap Z UserRow) (logs : list OtpRow)
    (now : Z) (w0 : Bot) (l : list Step) :
  start_up store_up line rows logs now = Some w0 ->
  consistent
    (steps transport store_up set_order password_hash wording line l w0).
Proof.
  intros H. eapply consistent_steps, consistent_start_up, H.
Qed.

(** X17.  In every state the bot reaches from its start by handling chat
    messages and by turns of the pollers, no chat message makes its
    handler raise: the status command always finds the statistics of a
    monitored chat, so the main loop never logs an error for a handler. *)
Theorem handle_message_never_raises (rows : gmap Z UserRow)
    (logs : list OtpRow) (now0 : Z) (w0 : Bot) (l : list Step)
    (m : ChatMessage) (mb : Mailbox) (now : Z) :
  start_up store_up line rows logs now0 = Some w0 ->
  exists w',
    handle_message transport store_up password_hash wording line m mb now
      (steps transport store_up set_order password_hash wording line l w0)
    = Normal w'.
Proof.
  intros H. eapply handle_message_normal, consistent_steps,
    consistent_start_up, H.
Qed.

(** X18.  Handling a chat message changes nothing of any other chat:
    neither its user entry, statistics, lock and thread, nor its dialogue
    state and staged address, nor its row. *)
Theorem deliver_touches_one_chat (m : ChatMessage) (mb : Mailbox) (now : Z)
    (w : Bot) :
  others_untouched (cm_chat m) w
    (deliver transport store_up password_hash wording line m mb now w).
Proof. apply deliver_local. Qed.

(** X19.  Only the login command, the logout command and the text of a
    chat in a dialogue change the tables: any other command, known or
    not, and any text of a chat that is in no dialogue, leaves users,
    threads, dialogue states, staged addresses, statistics, locks and
    store as they are. *)
Theorem commands_read_only (m : ChatMessage) (mb : Mailbox) (now : Z)
    (w : Bot) :
  stripped (default "" (cm_text m)) <> "/login" ->
  stripped (default "" (cm_text m)) <> "/logout" ->
  is_command (stripped (default "" (cm_text m))) = true \/
  waiting_states w !! cm_chat m = None ->
  same_tables w
    (state_of (handle_message transport store_up password_hash wording line
                 m mb now w)).
Proof.
  intros Hlogin Hlogout Hcase. unfold handle_message.
  repeat case_match; cbn [state_of];
    try (by apply send_tables);
    try (by exfalso; apply Hlogin; apply String.eqb_eq);
    try (by exfalso; apply Hlogout; apply String.eqb_eq).
  - apply handle_status_command_tables.
  - apply handle_stats_command_tables.
  - destruct Hcase as [?|Hnone]; [congruence|].
    unfold handle_user_input. rewrite Hnone. apply same_tables_refl.
Qed.

(** X20.  In every state the bot reaches, the login command of a chat
    that is monitored, while the store can be read, begins no dialogue:
    the tables stay as they are and the chat is told that it is connected
    already, with its address and the total of its row. *)
Theorem login_refused_while_connected (rows : gmap Z UserRow)
    (logs : list OtpRow) (now0 : Z) (w0 : Bot) (l : list Step) (chat : Z)
    (u : UserConfig) :
  start_up store_up line rows logs now0 = Some w0 ->
  let w :=
    steps transport store_up set_order password_hash wording line l w0 in
  users w !! chat = Some u ->
  is_monitoring u = true ->
  store_up (transactions w) = true ->
  let w' := handle_login_command transport store_up wording line chat w in
  same_tables w w' /\
  exists r n evs,
    db_users w !! chat = Some r /\
    1 <= n <= 3 /\ trace w' = trace w ++ evs /\
    posts_of evs =
      replicate n
        (Post chat (wording (AlreadyConnected (email u) (row_total_otps r)))).
Proof.
  intros Hstart w Hu Hm Hup.
  assert (Hcons : consistent w)
    by (eapply consistent_steps, consistent_start_up, Hstart).
  destruct Hcons as (I1 & _ & _).
  destruct (I1 chat) as (_ & _ & [r Hr]); [by eexists|].
  cbv zeta. unfold handle_login_command, get_user_stats.
  rewrite Hu, Hm, Hup. tables. rewrite Hr.
  destruct (added_send transport chat
              (wording (AlreadyConnected (email u) (row_total_otps r)))
              (count_transaction w)) as (n & evs & Hn & Ht & Hp & _).
  split.
  - eapply same_tables_trans; [|apply send_tables]. by split_and!.
  - by exists r, n, evs.
Qed.

End Reachable.

(** A run X16 applies to: chat 1 logs in after a start on an empty
    store. *)
Lemma reachable_consistent_witness :
  consistent
    (steps delivering committing elements plain_hash any_text any_line
       login_session started).
Proof.
  apply (reachable_consistent delivering committing elements plain_hash
           any_text any_line ∅ [] 0 started login_session).
  reflexivity.
Defined.

(** A message X17 applies to: the status command after that login. *)
Lemma handle_message_never_raises_witness :
  exists w',
    handle_message delivering committing plain_hash any_text any_line
      (says "/status") (inbox 0 "" FetchNotOK) 0
      (steps delivering committing elements plain_hash any_text any_line
         login_session started)
    = Normal w'.
Proof.
  apply (handle_message_never_raises delivering committing elements plain_hash
           any_text any_line ∅ [] 0 started login_session (says "/status")
           (inbox 0 "" FetchNotOK) 0).
  reflexivity.
Defined.

(** A message X19 applies to: the statistics command of chat 1 once it
    has logged in. *)
Lemma commands_read_only_witness :
  same_tables (logged_in 1)
    (state_of
       (handle_message delivering committing plain_hash any_text any_line
          (says " /stats ") (inbox 0 "" FetchNotOK) 0 (logged_in 1))).
Proof.
  apply (commands_read_only delivering committing plain_hash any_text
           any_line (says " /stats ") (inbox 0 "" FetchNotOK) 0 (logged_in 1)).
  - vm_compute. discriminate.
  - vm_compute. discriminate.
  - left. reflexivity.
Defined.

(** A login command X20 applies to: chat 1 sends it again after it has
    logged in. *)
Lemma login_refused_while_connected_witness :
  same_tables
    (steps delivering committing elements plain_hash any_text any_line
       login_session started)
    (handle_login_command delivering committing any_text any_line 1
       (steps delivering committing elements plain_hash any_text any_line
          login_session started)).
Proof.
  eapply (login_refused_while_connected delivering committing elements
            plain_hash any_text any_line ∅ [] 0 started login_session 1).
  - reflexivity.
  - vm_compute. reflexivity.
  - reflexivity.
  - reflexivity.
Defined.

Section ShutDown.

Variable transport : nat -> Reply.
Variable store_up : nat -> bool.
Variable set_order : gset string -> list string.
Variable password_hash : string -> Z -> string.
Variable wording : Text -> Notice.
Variable line : Line -> LogLine.

Lemma monitored_emit c e w : monitored c (emit e w) = monitored c w.
Proof. reflexivity. Qed.

Lemma stop_all_spec l :
  forall w,
    let w' := foldl (fun w chat => stop_monitoring_for_user line chat w) w l in
    monitoring_threads w' = monitoring_threads w ∖ list_to_set l /\
    (forall c, monitored c w' = if decide (c ∈ l) then false
                                else monitored c w) /\
    (forall c, email <$> users w' !! c = email <$> users w !! c) /\
    (forall c, password <$> users w' !! c = password <$> users w !! c) /\
    user_stats w' = user_stats w /\ gmail_locks w' = gmail_locks w /\
    db_users w' = db_users w /\ db_otp_logs w' = db_otp_logs w.
Proof.
  induction l as [|a l IH]; intros w; cbn [foldl].
  - cbv zeta. split_and!; try done. set_solver.
  - destruct (IH (stop_monitoring_for_user line a w))
      as (Ht & Hm & He & Hp & -> & -> & -> & ->).
    cbv zeta. split_and!; try done.
    + rewrite Ht. cbn. set_solver.
    + intros c. rewrite Hm. unfold monitored. cbn.
      destruct (decide (c = a)) as [->|Hne].
      * rewrite lookup_alter_eq.
        destruct (decide (a ∈ a :: l)) as [_|Hn];
          [|destruct Hn; apply elem_of_cons; by left].
        case_decide; [done|]. by destruct (users w !! a).
      * rewrite lookup_alter_ne by done.
        destruct (decide (c ∈ l)) as [Hin|Hin],
                 (decide (c ∈ a :: l)) as [Hin'|Hin']; try done.
        -- destruct Hin'. apply elem_of_cons. by right.
        -- apply elem_of_cons in Hin' as [?|?]; done.
    + intros c. rewrite He. cbn.
      destruct (decide (c = a)) as [->|Hne];
        [rewrite lookup_alter_eq; by destruct (users w !! a)
        |by rewrite lookup_alter_ne].
    + intros c. rewrite Hp. cbn.
      destruct (decide (c = a)) as [->|Hne];
        [rewrite lookup_alter_eq; by destruct (users w !! a)
        |by rewrite lookup_alter_ne].
Qed.

(** X21.  When the bot shuts down after any run, the monitoring of every
    user is switched off and no thread stays on record; the users stay in
    memory with address and credential, and statistics, locks and store
    are not touched (the rows stay active). *)
Theorem shut_down_stops_every_poller (rows : gmap Z UserRow)
    (logs : list OtpRow) (now : Z) (w0 : Bot) (l : list Step) :
  start_up store_up line rows logs now = Some w0 ->
  let w :=
    steps transport store_up set_order password_hash wording line l w0 in
  let w' := shut_down line w in
  (forall c, monitored c w' = false) /\
  monitoring_threads w' = ∅ /\
  (forall c, email <$> users w' !! c = email <$> users w !! c) /\
  (forall c, password <$> users w' !! c = password <$> users w !! c) /\
  user_stats w' = user_stats w /\ gmail_locks w' = gmail_locks w /\
  db_users w' = db_users w /\ db_otp_logs w' = db_otp_logs w.
Proof.
  intros Hstart w.
  assert (Hcons : consistent w)
    by (eapply consistent_steps, consistent_start_up, Hstart).
  destruct Hcons as (_ & I2 & _).
  cbv zeta. unfold shut_down.
  destruct (stop_all_spec (map_to_list (users w)).*1 w)
    as (Ht & Hm & He & Hp & Hs & Hl & Hd & Ho).
  assert (Hkeys : forall c, c ∈ (map_to_list (users w)).*1
                            <-> is_Some (users w !! c)).
  { intros c. rewrite list_elem_of_fmap. split.
    - intros ([c' u] & -> & Hin). apply elem_of_map_to_list in Hin.
      by eexists.
    - intros [u Hu]. exists (c, u). split; [done|].
      by apply elem_of_map_to_list. }
  tables. split_and!; try done.
  - intros c. rewrite monitored_emit, Hm. case_decide as Hin; [done|].
    unfold monitored. destruct (users w !! c) as [u|] eqn:Hu; [|done].
    exfalso. apply Hin, Hkeys. by eexists.
  - rewrite Ht. apply set_eq. intros c.
    rewrite elem_of_difference, elem_of_list_to_set, Hkeys.
    split; [|set_solver]. intros [Hin Hno]. exfalso. apply Hno.
    apply I2 in Hin. unfold monitored in Hin.
    destruct (users w !! c); [by eexists|done].
Qed.

End ShutDown.

(** A shutdown X21 applies to: after chat 1 has logged in. *)
Lemma shut_down_stops_every_poller_witness :
  monitoring_threads
    (shut_down any_line
       (steps delivering committing elements plain_hash any_text any_line
          login_session started))
  = ∅.
Proof.
  exact (proj1 (proj2
           (shut_down_stops_every_poller delivering committing elements
              plain_hash any_text any_line ∅ [] 0 started login_session
              eq_refl))).
Defined.
